(** * koncur: the execution targets and the result validator

    A shallow embedding of [pkg/targets] (label selector parser,
    argument builder and application-reference dispatch of the
    kantra target) and of [pkg/validator] (the comparers and
    [ValidateFiles]), followed by the properties the specification
    states about them.

    Go strings are byte strings, modelled by [string]; a slice is
    [option (list A)] with [None] for the nil slice; a map is
    [option (gmap string V)] with [None] for the nil map; a pointer
    carries its address next to the value it points to, so that [==]
    on pointers (address identity) and [reflect.DeepEqual] (pointee
    equality) can both be written down; a panic is the [Panic] outcome
    of the [result] monad. *)

From Stdlib Require Import ZArith String Ascii List.
From Stdlib Require DecimalString HexadecimalString.
From Stdlib Require Import Permutation.
From stdpp Require Import base option strings gmap list.

Open Scope string_scope.
Open Scope list_scope.

(** ** The Go runtime and standard library, as far as the code uses them *)

Module Go.

(** A slice: [None] is nil, [Some l] a non-nil slice with elements [l]. *)
Definition slice (A : Type) : Type := option (list A).

Definition elems {A} (s : slice A) : list A :=
  match s with Some l => l | None => [] end.

Definition len {A} (s : slice A) : nat := length (elems s).

(** [append(s, x1, ..., xn)]: with at least one new element the
    result is never nil. *)
Definition append {A} (s : slice A) (xs : list A) : slice A :=
  match xs with
  | [] => s
  | _ => Some (elems s ++ xs)
  end.

(** A map with string keys: [None] is the nil map. *)
Definition gomap (V : Type) : Type := option (gmap string V).

Definition entries {V} (m : gomap V) : gmap string V :=
  match m with Some g => g | None => ∅ end.

(** [m[k]]: the zero value when the key is absent (or the map nil). *)
Definition index {V} (m : gomap V) (k : string) (zero : V) : V :=
  match entries m !! k with Some v => v | None => zero end.

(** [for k, v := range m]: Go leaves the order unspecified; the model
    visits the entries in the order of [map_to_list]. *)
Definition range {V} (m : gomap V) : list (string * V) := map_to_list (entries m).

(** A non-nil pointer: its address and the value stored there. *)
Record ref (A : Type) : Type := Ref { addr : N; load : A }.
Global Arguments Ref {A} _ _.
Global Arguments addr {A} _.
Global Arguments load {A} _.

(** A pointer: [None] is nil. *)
Definition pointer (A : Type) : Type := option (ref A).

(** [p == q] on pointers: both nil, or the same address. *)
Definition ptrEq {A} (p q : pointer A) : bool :=
  match p, q with
  | None, None => true
  | Some x, Some y => N.eqb (addr x) (addr y)
  | _, _ => false
  end.

(** The outcome of a call that may panic. *)
Inductive result (A : Type) : Type :=
| Ok (a : A)
| Panic.
Global Arguments Ok {A} a.
Global Arguments Panic {A}.

Definition bind {A B} (r : result A) (f : A → result B) : result B :=
  match r with Ok a => f a | Panic => Panic end.

Global Instance result_bind : MBind result := λ A B f r, bind r f.

(** A call whose callee panics exactly where [o] is [None]. *)
Definition orPanic {A} (o : option A) : result A :=
  match o with Some a => Ok a | None => Panic end.

(** A [for _, x := range l] loop whose body updates the state [s]
    and may panic. *)
Fixpoint forEach {A S} (body : S → A → result S) (l : list A) (s : S) : result S :=
  match l with
  | [] => Ok s
  | x :: l' => bind (body s x) (forEach body l')
  end.

(** *** packages maps and reflect *)

(** [maps.Equal]: the same keys with equal values; a nil map equals
    an empty one. *)
Definition mapsEqual {V} (eq : V → V → bool) (m1 m2 : gomap V) : bool :=
  (size (entries m1) =? size (entries m2))%nat &&
  forallb (λ '(k, v1), match entries m2 !! k with
                       | Some v2 => eq v1 v2
                       | None => false
                       end) (range m1).

(** [reflect.DeepEqual] on pointers: the same address, or deeply
    equal pointees. *)
Definition deepEqualPointer {A} (eq : A → A → bool) (p q : pointer A) : bool :=
  match p, q with
  | None, None => true
  | Some x, Some y => N.eqb (addr x) (addr y) || eq (load x) (load y)
  | _, _ => false
  end.

Fixpoint deepEqualList {A} (eq : A → A → bool) (l1 l2 : list A) : bool :=
  match l1, l2 with
  | [], [] => true
  | x :: l1', y :: l2' => eq x y && deepEqualList eq l1' l2'
  | _, _ => false
  end.

(** [reflect.DeepEqual] on slices: both nil or both non-nil, the
    same length, deeply equal elements. *)
Definition deepEqualSlice {A} (eq : A → A → bool) (s1 s2 : slice A) : bool :=
  match s1, s2 with
  | None, None => true
  | Some l1, Some l2 => deepEqualList eq l1 l2
  | _, _ => false
  end.

(** [reflect.DeepEqual] on maps: both nil or both non-nil, the same
    length, and every key of the first bound to a deeply equal value
    in the second. *)
Definition deepEqualMap {V} (eq : V → V → bool) (m1 m2 : gomap V) : bool :=
  match m1, m2 with
  | None, None => true
  | Some g1, Some g2 =>
      (size g1 =? size g2)%nat &&
      forallb (λ '(k, v1), match g2 !! k with
                           | Some v2 => eq v1 v2
                           | None => false
                           end) (map_to_list g1)
  | _, _ => false
  end.

(** *** package strings *)

Definition HasPrefix (s prefix : string) : bool := String.prefix prefix s.

Fixpoint dropBytes (n : nat) (s : string) : string :=
  match n, s with
  | S n', String _ s' => dropBytes n' s'
  | _, _ => s
  end.

Definition TrimPrefix (s prefix : string) : string :=
  if HasPrefix s prefix then dropBytes (String.length prefix) s else s.

Fixpoint Contains (s substr : string) : bool :=
  String.prefix substr s ||
  match s with
  | EmptyString => false
  | String _ s' => Contains s' substr
  end.

(** The text before and after the first occurrence of [sep]. *)
Fixpoint cut (s sep : string) : option (string * string) :=
  if String.prefix sep s then Some ("", dropBytes (String.length sep) s)
  else match s with
       | EmptyString => None
       | String c s' =>
           match cut s' sep with
           | Some (before, after) => Some (String c before, after)
           | None => None
           end
       end.

(** [strings.SplitN(s, sep, n)] for a non-empty [sep] and [n >= 0]:
    at most [n] parts, the last one the unsplit remainder. *)
Fixpoint SplitN (s sep : string) (n : nat) : list string :=
  match n with
  | 0 => []
  | 1 => [s]
  | S n' =>
      match cut s sep with
      | Some (before, after) => before :: SplitN after sep n'
      | None => [s]
      end
  end.

(** [strings.Split(s, sep)] for a non-empty [sep]: a string of [k]
    bytes has at most [k + 1] parts. *)
Definition Split (s sep : string) : list string :=
  SplitN s sep (S (String.length s)).

Fixpoint Join (l : list string) (sep : string) : string :=
  match l with
  | [] => ""
  | [x] => x
  | x :: l' => x +:+ sep +:+ Join l' sep
  end.

Definition bytes (l : list nat) : string :=
  string_of_list_ascii (map ascii_of_nat l).

(** The UTF-8 encodings of the runes for which [unicode.IsSpace]
    holds: tab, line feed, vertical tab, form feed, carriage return,
    space, U+0085, U+00A0, U+1680, U+2000 to U+200A, U+2028, U+2029,
    U+202F, U+205F and U+3000. *)
Definition spaceRunes : list string :=
  map bytes
    ([ [9]; [10]; [11]; [12]; [13]; [32]; [194; 133]; [194; 160]; [225; 154; 128] ]
     ++ map (λ b, [226; 128; b]) [128; 129; 130; 131; 132; 133; 134; 135; 136; 137; 138]
     ++ [ [226; 128; 168]; [226; 128; 169]; [226; 128; 175]; [226; 129; 159];
          [227; 128; 128] ])%nat.

Definition revString (s : string) : string :=
  string_of_list_ascii (rev (list_ascii_of_string s)).

(** Removes one leading rune of [runes], if there is one. *)
Fixpoint stripRune (runes : list string) (s : string) : option string :=
  match runes with
  | [] => None
  | r :: runes' =>
      if String.prefix r s then Some (dropBytes (String.length r) s)
      else stripRune runes' s
  end.

Fixpoint trimLeft (fuel : nat) (runes : list string) (s : string) : string :=
  match fuel with
  | 0 => s
  | S fuel' =>
      match stripRune runes s with
      | Some s' => trimLeft fuel' runes s'
      | None => s
      end
  end.

(** [strings.TrimSpace]: all leading and trailing white space
    removed, as defined by Unicode.  Trailing runes are removed on
    the reversed string, against the reversed encodings. *)
Definition TrimSpace (s : string) : string :=
  let s1 := trimLeft (String.length s) spaceRunes s in
  revString (trimLeft (String.length s1) (map revString spaceRunes) (revString s1)).

Definition lowerByte (c : ascii) : ascii :=
  let n := nat_of_ascii c in
  if (65 <=? n)%nat && (n <=? 90)%nat then ascii_of_nat (n + 32) else c.

(** [strings.ToLower] on the ASCII letters.  (The library also maps
    non-ASCII letters; none of them is mapped to a byte of [".jar"],
    [".war"] or [".ear"], the only strings its result is compared
    with.) *)
Fixpoint ToLower (s : string) : string :=
  match s with
  | EmptyString => EmptyString
  | String c s' => String (lowerByte c) (ToLower s')
  end.

(** [strconv.Itoa]. *)
Definition Itoa (n : Z) : string :=
  DecimalString.NilZero.string_of_int (Z.to_int n).

(** *** package path/filepath (Unix) *)

(** The backward scan of [filepath.Ext], over the reversed path:
    [acc] is the suffix already passed. *)
Fixpoint extScan (reversed : list ascii) (acc : string) : string :=
  match reversed with
  | [] => ""
  | c :: reversed' =>
      if Ascii.eqb c "/" then ""
      else if Ascii.eqb c "." then String c acc
      else extScan reversed' (String c acc)
  end.

Definition Ext (path : string) : string :=
  extScan (rev (list_ascii_of_string path)) "".

End Go.

Import Go.

(** ** package targets *)

Module targets.

(** *** label_selector.go *)

Record Labels : Type := { Included : slice string; Excluded : slice string }.

Definition ParseLabelSelector (selector : string) : Labels :=
  let labels := {| Included := Some []; Excluded := Some [] |} in
  if String.eqb selector "" then labels
  else
    let parts := Split selector "||" in
    fold_left
      (λ labels part,
         let part := TrimSpace part in
         if String.eqb part "" then labels
         else if HasPrefix part "!" then
           let excluded := TrimPrefix part "!" in
           let excluded := TrimSpace excluded in
           if negb (String.eqb excluded "") then
             {| Included := Included labels;
                Excluded := append (Excluded labels) [excluded] |}
           else labels
         else
           {| Included := append (Included labels) [part];
              Excluded := Excluded labels |})
      parts labels.

(** *** util.go *)

Definition IsBinaryFile (path : string) : bool :=
  let ext := ToLower (Ext path) in
  String.eqb ext ".jar" || String.eqb ext ".war" || String.eqb ext ".ear".

(** *** kantra.go *)

(** Modelled from the spec: the analysis modes are constants of the
    engine's provider package, a string type with the two values
    that the argument contract names. *)
Definition SourceOnlyAnalysisMode : string := "source-only".
Definition FullAnalysisMode : string := "full".

(** Modelled from the spec: [config.AnalysisConfig] is declared in
    [pkg/config], which is not among the sources; these are the
    fields the target reads. *)
Record AnalysisConfig : Type := {
  Application : string;
  ContextLines : Z;
  LabelSelector : string;
  IncidentSelector : string;
  Target : slice string;
  Source : slice string;
  Rules : slice string;
  AnalysisMode : string
}.

Record KantraTarget : Type := { binaryPath : string; mavenSettings : string }.

Definition Name (k : KantraTarget) : string := "kantra".

Definition buildArgs (k : KantraTarget) (analysis : AnalysisConfig)
    (inputPath outputDir mavenSettings : string) : slice string :=
  let args := Some ["analyze"; "--context-lines"; Itoa (ContextLines analysis)] in
  let args := append args ["--input"; inputPath] in
  let args := append args ["--output"; outputDir] in
  let args :=
    if negb (String.eqb (LabelSelector analysis) "")
    then append args ["--label-selector"; LabelSelector analysis] else args in
  let args :=
    if negb (String.eqb (IncidentSelector analysis) "")
    then append args ["--incident-selector"; IncidentSelector analysis] else args in
  let args :=
    if negb (String.eqb mavenSettings "")
    then append args ["--maven-settings"; mavenSettings] else args in
  let args :=
    if (0 <? len (Target analysis))%nat
    then fold_left (λ args target, append args ["-t"; target]) (elems (Target analysis)) args
    else args in
  let args :=
    if (0 <? len (Source analysis))%nat
    then fold_left (λ args source, append args ["-s"; source]) (elems (Source analysis)) args
    else args in
  let args :=
    if (0 <? len (Rules analysis))%nat
    then fold_left (λ args rule, append args ["--rules"; rule]) (elems (Rules analysis)) args
    else args in
  let args :=
    if String.eqb (AnalysisMode analysis) SourceOnlyAnalysisMode
    then append args ["--mode"; "source-only"]
    else if String.eqb (AnalysisMode analysis) FullAnalysisMode
    then append args ["--mode"; "full"]
    else args in
  let args := append args ["--run-local=false"] in
  let args := append args ["--overwrite"] in
  args.

(** What [prepareInput] decides to do with an application reference.
    The function goes on to the file system and to [git clone]; those
    steps are the constructors' names, and are not modelled further. *)
Inductive input : Type :=
| binaryFile (binaryPath testDir : string)
    (** [return k.prepareBinary(application, workDir)] *)
| localPath (path : string)
    (** [return path, nil]: a local path, or the rest of a [binary:] reference *)
| gitClone (gitURL gitRef gitPath workDir : string)
    (** clone [gitURL] at [gitRef] into [workDir/source], use [gitPath] below it *).

(** [prepareInput] up to and including the parsing of the git
    reference (the first 46 lines of the function). *)
Definition prepareInput (k : KantraTarget) (application testName workDir : string) : input :=
  if IsBinaryFile application then binaryFile application workDir
  else
    let isGitURL :=
      HasPrefix application "http://" ||
      HasPrefix application "https://" ||
      HasPrefix application "git@" in
    if negb isGitURL then
      if HasPrefix application "binary:" then
        let binaryFile := dropBytes 7 application in
        localPath binaryFile
      else localPath application
    else
      let '(gitURL, gitRef, gitPath) :=
        if Contains application "#" then
          let parts := SplitN application "#" 2 in
          let gitURL := nth 0 parts "" in
          if (1 <? length parts)%nat then
            let refParts := SplitN (nth 1 parts "") "/" 2 in
            let gitRef := nth 0 refParts "" in
            if (1 <? length refParts)%nat
            then (gitURL, gitRef, nth 1 refParts "")
            else (gitURL, gitRef, "")
          else (gitURL, "", "")
        else (application, "", "") in
      gitClone gitURL gitRef gitPath workDir.

End targets.

(** ** The result types of the analysis engine *)

Module konveyor.

(** The types of this module are declared in the analysis engine's
    output package, outside this repository.  Their fields are the
    ones the specification's data model lists and the validator
    reads; the optional category, effort and line number are
    pointers, as the tests of the validator build them
    ([categoryPtr], [intPtr]). *)

(** Modelled from the spec: the value of a template variable, of
    type [interface{}] in the code; the scalar values a result file
    holds, on which [reflect.DeepEqual] is plain equality. *)
Inductive value : Type :=
| Null
| Bool (b : bool)
| Int (z : Z)
| Text (s : string).

Global Instance value_eq_dec : EqDecision value.
Proof. solve_decision. Defined.

(** Modelled from the spec: a link, title and URL. *)
Record Link : Type := { URL : string; Title : string }.

(** Modelled from the spec: one occurrence, with its source-file
    URI, message, optional code snippet, optional line number and
    template variables. *)
Record Incident : Type := {
  URI : string;
  Message : string;
  CodeSnip : string;
  LineNumber : pointer Z;
  Variables : gomap value
}.

(** Modelled from the spec: a finding for one rule (violations and
    insights have this one shape). *)
Record Violation : Type := {
  Description : string;
  Category : pointer string;
  Labels : slice string;
  Incidents : slice Incident;
  Links : slice Link;
  Effort : pointer Z
}.

(** Modelled from the spec: a named bundle of findings. *)
Record RuleSet : Type := {
  Name : string;
  Tags : slice string;
  Violations : gomap Violation;
  Insights : gomap Violation;
  Errors : gomap string;
  Unmatched : slice string;
  Skipped : slice string
}.

(** The zero value of [Violation], which indexing a map yields for
    an absent key. *)
Definition zeroViolation : Violation :=
  {| Description := ""; Category := None; Labels := None;
     Incidents := None; Links := None; Effort := None |}.

(** [reflect.DeepEqual] at the types the validator applies it to. *)
Definition deepEqualVariables : gomap value → gomap value → bool :=
  deepEqualMap (λ v1 v2, bool_decide (v1 = v2)).

Definition deepEqualLink (l1 l2 : Link) : bool :=
  String.eqb (URL l1) (URL l2) && String.eqb (Title l1) (Title l2).

Definition deepEqualIncident (i1 i2 : Incident) : bool :=
  String.eqb (URI i1) (URI i2) &&
  String.eqb (Message i1) (Message i2) &&
  String.eqb (CodeSnip i1) (CodeSnip i2) &&
  deepEqualPointer Z.eqb (LineNumber i1) (LineNumber i2) &&
  deepEqualVariables (Variables i1) (Variables i2).

Definition deepEqualViolation (v1 v2 : Violation) : bool :=
  String.eqb (Description v1) (Description v2) &&
  deepEqualPointer String.eqb (Category v1) (Category v2) &&
  deepEqualSlice String.eqb (Labels v1) (Labels v2) &&
  deepEqualSlice deepEqualIncident (Incidents v1) (Incidents v2) &&
  deepEqualSlice deepEqualLink (Links v1) (Links v2) &&
  deepEqualPointer Z.eqb (Effort v1) (Effort v2).

End konveyor.

(** ** Functions of other packages that the comparers call *)

(** [uri.URI.Filename], [filepath.Join], [filepath.Rel] and the [%v]
    renderings of [fmt.Sprintf] for the engine's types are taken as
    they come; every statement below holds for whatever they compute. *)
Record External : Type := {
  (** [u.Filename()]: [None] when the call panics (the URI does not
      parse or is not a file URI) *)
  Filename : string → option string;
  filepathJoin : string → string → string;
  (** [filepath.Rel(base, target)]: [None] when the error is not nil *)
  filepathRel : string → string → option string;
  formatCategory : pointer string → string;
  formatEffort : pointer Z → string;
  formatLink : konveyor.Link → string;
  formatIncident : konveyor.Incident → string
}.

(** ** package validator *)

Module validator.

(** *** validator.go: results *)

(** The values the code stores in the [any]-typed fields. *)
Inductive any : Type :=
| nil
| ofString (s : string)
| ofViolation (v : konveyor.Violation).

Record ValidationError : Type := {
  Path : string;
  Message : string;
  Expected : any;
  Actual : any
}.

Record ValidationResult : Type := {
  Passed : bool;
  Errors : slice ValidationError
}.

Definition findExpectedString (expected : string) (actual : slice string) : bool :=
  existsb (λ a, String.eqb expected a) (elems actual).

(** *** kantra_validator.go *)

Record kantra : Type := { testDir : string }.

(** [tackle2Hub] embeds a [kantra]. *)
Record tackle2Hub : Type := { embedded : kantra }.

Definition kantra_compareTag (k : kantra) (expected : string) (actual : slice string)
    : option ValidationError * bool :=
  if findExpectedString expected actual then (None, false)
  else (Some {| Path := "";
                Message := "Did not find expected tag: " +:+ expected;
                Expected := ofString expected;
                Actual := nil |}, true).

Definition kantra_compareErrors (k : kantra) (expected actual : string)
    : option ValidationError * bool :=
  if negb (String.eqb expected actual) then
    (Some {| Path := "";
             Message := "Did not find expected error: " +:+ expected;
             Expected := ofString expected;
             Actual := nil |}, true)
  else (None, false).

Definition kantra_compareUnmatched (k : kantra) (expected : string) (actual : slice string)
    : option ValidationError * bool :=
  if findExpectedString expected actual then (None, false)
  else (Some {| Path := "";
                Message := "Did not find expected unmatched rule: " +:+ expected;
                Expected := ofString expected;
                Actual := nil |}, true).

Definition kantra_compareSkipped (k : kantra) (expected : string) (actual : slice string)
    : option ValidationError * bool :=
  if findExpectedString expected actual then (None, false)
  else (Some {| Path := "";
                Message := "Did not find expected skipped rule: " +:+ expected;
                Expected := ofString expected;
                Actual := nil |}, true).

(** How one turn of the search through the actual incidents ends:
    [continue], [break], or with [found = true]. *)
Inductive turn : Type := skip | leave | match_.

(** The search loop [for _, ai := range actual.Incidents], started
    with [found]. *)
Fixpoint searchIncidents (body : konveyor.Incident → result turn)
    (actual : list konveyor.Incident) (found : bool) : result bool :=
  match actual with
  | [] => Ok found
  | ai :: rest =>
      t ← body ai;
      match t with
      | skip => searchIncidents body rest found
      | leave => Ok found
      | match_ => searchIncidents body rest true
      end
  end.

Section Comparers.

Context (X : External).

Definition categoryError (expected : konveyor.Violation) : ValidationError :=
  {| Path := "";
     Message := "Did not find expected category: "
                +:+ formatCategory X (konveyor.Category expected);
     Expected := ofViolation expected;
     Actual := nil |}.

Definition effortError (expected : konveyor.Violation) : ValidationError :=
  {| Path := "";
     Message := "Did not find expected effort: "
                +:+ formatEffort X (konveyor.Effort expected);
     Expected := ofViolation expected;
     Actual := nil |}.

Definition linkError (expected : konveyor.Violation) (l : konveyor.Link) : ValidationError :=
  {| Path := "";
     Message := "Did not find expected links: " +:+ formatLink X l;
     Expected := ofViolation expected;
     Actual := nil |}.

Definition labelError (expected : konveyor.Violation) (l : string) : ValidationError :=
  {| Path := "";
     Message := "Did not find expected label: " +:+ l;
     Expected := ofViolation expected;
     Actual := nil |}.

(** The search for an expected link among the actual ones. *)
Definition linkFound (l : konveyor.Link) (actual : slice konveyor.Link) : bool :=
  existsb (λ al, String.eqb (konveyor.Title l) (konveyor.Title al) &&
                 String.eqb (konveyor.URL l) (konveyor.Title al))
          (elems actual).

(** The checks of category, effort, links and labels.  Both
    [compareViolation] methods open with this same text. *)
Definition compareFields (expected actual : konveyor.Violation) : slice ValidationError :=
  let validationError := Some [] in
  let validationError :=
    if negb (ptrEq (konveyor.Category expected) (konveyor.Category actual))
    then append validationError [categoryError expected] else validationError in
  let validationError :=
    if negb (ptrEq (konveyor.Effort expected) (konveyor.Effort actual))
    then append validationError [effortError expected] else validationError in
  let validationError :=
    fold_left
      (λ validationError l,
         let found := linkFound l (konveyor.Links actual) in
         if negb found then append validationError [linkError expected l]
         else validationError)
      (elems (konveyor.Links expected)) validationError in
  let validationError :=
    fold_left
      (λ validationError l,
         if findExpectedString l (konveyor.Labels actual) then validationError
         else append validationError [labelError expected l])
      (elems (konveyor.Labels expected)) validationError in
  validationError.

(** The comparisons that close one turn of either search loop:
    message, line number, variables. *)
Definition compareRest (i ai : konveyor.Incident) : turn :=
  if negb (String.eqb (konveyor.Message i) (konveyor.Message ai)) then skip
  else if negb (ptrEq (konveyor.LineNumber i) (konveyor.LineNumber ai)) then skip
  else if negb (konveyor.deepEqualVariables (konveyor.Variables i) (konveyor.Variables ai))
  then skip
  else match_.

(** The path test: the expected file, relative to [testDir/source],
    must occur in the actual file name. *)
Definition comparePaths (testDir : string) (i ai : konveyor.Incident) : result turn :=
  let base := filepathJoin X testDir "source" in
  file ← orPanic (Filename X (konveyor.URI i));
  match filepathRel X base file with
  | None => Ok leave
  | Some pathToTest =>
      afile ← orPanic (Filename X (konveyor.URI ai));
      if negb (Contains afile pathToTest) then Ok skip
      else Ok (compareRest i ai)
  end.

Definition kantra_turn (k : kantra) (i ai : konveyor.Incident) : result turn :=
  if negb (String.eqb (TrimSpace (konveyor.CodeSnip i)) (TrimSpace (konveyor.CodeSnip ai)))
  then Ok skip
  else if String.eqb (konveyor.URI i) "" || String.eqb (konveyor.URI ai) "" then
    if negb (String.eqb (konveyor.URI i) (konveyor.URI ai)) then Ok skip
    else Ok (compareRest i ai)
  else comparePaths (testDir k) i ai.

Definition missingError (expected actual : konveyor.Violation)
    (missingIncidents : slice konveyor.Incident) : ValidationError :=
  let uris :=
    fold_left
      (λ uris inc,
         if negb (String.eqb (konveyor.URI inc) "")
         then append uris [konveyor.URI inc] else uris)
      (elems missingIncidents) None in
  let message :=
    "Missing " +:+ Itoa (Z.of_nat (len missingIncidents)) +:+ " incident(s)" in
  let message :=
    if (0 <? len uris)%nat
    then message +:+ " for files: " +:+ Join (elems uris) ", "
    else message in
  {| Path := "";
     Message := message;
     Expected := ofString (Itoa (Z.of_nat (len (konveyor.Incidents expected)))
                           +:+ " incidents");
     Actual := ofString (Itoa (Z.of_nat (len (konveyor.Incidents actual)))
                         +:+ " incidents (missing "
                         +:+ Itoa (Z.of_nat (len missingIncidents)) +:+ ")") |}.

Definition kantra_compareViolation (k : kantra) (expected actual : konveyor.Violation)
    : result (slice ValidationError * bool) :=
  let validationError := compareFields expected actual in
  missingIncidents ←
    forEach
      (λ missingIncidents i,
         found ← searchIncidents (kantra_turn k i)
                   (elems (konveyor.Incidents actual)) false;
         Ok (if negb found then append missingIncidents [i] else missingIncidents))
      (elems (konveyor.Incidents expected)) None;
  let validationError :=
    if (0 <? len missingIncidents)%nat
    then append validationError [missingError expected actual missingIncidents]
    else validationError in
  Ok (validationError, negb (len validationError =? 0)%nat).

(** *** tackle2_hub_validator.go *)

Definition incidentError (expected : konveyor.Violation) (i : konveyor.Incident)
    : ValidationError :=
  {| Path := "";
     Message := "Did not find expected incident: " +:+ formatIncident X i;
     Expected := ofViolation expected;
     Actual := nil |}.

Definition tackle2Hub_turn (t : tackle2Hub) (i ai : konveyor.Incident) : result turn :=
  comparePaths (testDir (embedded t)) i ai.

Definition tackle2Hub_compareViolation (t : tackle2Hub)
    (expected actual : konveyor.Violation) : result (slice ValidationError * bool) :=
  let validationError := compareFields expected actual in
  validationError ←
    forEach
      (λ validationError i,
         found ← searchIncidents (tackle2Hub_turn t i)
                   (elems (konveyor.Incidents actual)) false;
         Ok (if negb found then append validationError [incidentError expected i]
             else validationError))
      (elems (konveyor.Incidents expected)) validationError;
  Ok (validationError, negb (len validationError =? 0)%nat).

(** *** validator.go: the comparer interface and the engine *)

(** The two implementations of the [comparer] interface. *)
Inductive comparer : Type :=
| kantraComparer (k : kantra)
| tackle2HubComparer (t : tackle2Hub).

(** A nil interface value is [None]. *)
Definition getComparer (targetType testDir : string) : option comparer :=
  let k := {| testDir := testDir |} in
  if String.eqb targetType "kantra" then Some (kantraComparer k)
  else if String.eqb targetType "tackle-hub"
  then Some (tackle2HubComparer {| embedded := k |})
  else if String.eqb targetType "tackle-ui" then Some (kantraComparer k)
  else if String.eqb targetType "kai-rpc" then Some (kantraComparer k)
  else if String.eqb targetType "vscode" then Some (kantraComparer k)
  else None.

(** The receiver the methods promoted from the embedded [kantra]
    are called on. *)
Definition receiver (c : comparer) : kantra :=
  match c with
  | kantraComparer k => k
  | tackle2HubComparer t => embedded t
  end.

(** Method calls through the interface: a call on the nil interface
    panics. *)
Definition compareTag (c : option comparer) (expected : string) (actual : slice string)
    : result (option ValidationError * bool) :=
  c ← orPanic c; Ok (kantra_compareTag (receiver c) expected actual).

Definition compareErrors (c : option comparer) (expected actual : string)
    : result (option ValidationError * bool) :=
  c ← orPanic c; Ok (kantra_compareErrors (receiver c) expected actual).

Definition compareUnmatched (c : option comparer) (expected : string)
    (actual : slice string) : result (option ValidationError * bool) :=
  c ← orPanic c; Ok (kantra_compareUnmatched (receiver c) expected actual).

Definition compareSkipped (c : option comparer) (expected : string)
    (actual : slice string) : result (option ValidationError * bool) :=
  c ← orPanic c; Ok (kantra_compareSkipped (receiver c) expected actual).

Definition compareViolation (c : option comparer) (expected actual : konveyor.Violation)
    : result (slice ValidationError * bool) :=
  c ← orPanic c;
  match c with
  | kantraComparer k => kantra_compareViolation k expected actual
  | tackle2HubComparer t => tackle2Hub_compareViolation t expected actual
  end.

(** [errors = append(errors, *err)] under [if err, ok := ...; ok]. *)
Definition appendIfOk (errors : slice ValidationError)
    (r : option ValidationError * bool) : result (slice ValidationError) :=
  let '(err, ok) := r in
  if ok then e ← orPanic err; Ok (append errors [e]) else Ok errors.

Definition newline : string := String (ascii_of_nat 10) "".
Definition tab : string := String (ascii_of_nat 9) "".

(** The message that sums up the errors of one violation or
    insight, after the given opening line. *)
Definition summary (opening : string) (err : slice ValidationError) : string :=
  fold_left (λ newMessage e, newMessage +:+ newline +:+ tab +:+ Message e)
            (elems err) (opening +:+ newline +:+ tab).

(** The loop over the expected insights or violations of one
    ruleset. *)
Definition compareFindings (c : option comparer) (opening : string)
    (expected actual : gomap konveyor.Violation) (errors : slice ValidationError)
    : result (slice ValidationError) :=
  forEach
    (λ errors (entry : string * konveyor.Violation),
       let '(k, ersinsights) := entry in
       r ← compareViolation c ersinsights (index actual k konveyor.zeroViolation);
       let '(err, ok) := (r : slice ValidationError * bool) in
       if ok then
         let newMessage := summary opening err in
         Ok (append errors [ {| Path := "";
                                Message := newMessage;
                                Expected := ofViolation ersinsights;
                                Actual := nil |} ])
       else Ok errors)
    (range expected) errors.

(** The body of the inner loop for an actual ruleset [rs] with the
    name of the expected ruleset [ers]. *)
Definition compareRuleSets (c : option comparer) (ers rs : konveyor.RuleSet)
    (errors : slice ValidationError) : result (slice ValidationError) :=
  errors ←
    (if negb (mapsEqual String.eqb (konveyor.Errors ers) (konveyor.Errors rs)) then
       forEach
         (λ errors (entry : string * string),
            let '(k, eerr) := entry in
            r ← compareErrors c eerr (index (konveyor.Errors rs) k "");
            appendIfOk errors r)
         (range (konveyor.Errors ers)) errors
     else Ok errors);
  errors ←
    (if negb (deepEqualSlice String.eqb (konveyor.Tags rs) (konveyor.Tags ers)) then
       forEach
         (λ errors erstags,
            r ← compareTag c erstags (konveyor.Tags rs); appendIfOk errors r)
         (elems (konveyor.Tags ers)) errors
     else Ok errors);
  errors ←
    (if negb (deepEqualMap konveyor.deepEqualViolation
                (konveyor.Insights rs) (konveyor.Insights ers)) then
       compareFindings c "Did not find Insights"
         (konveyor.Insights ers) (konveyor.Insights rs) errors
     else Ok errors);
  errors ←
    (if negb (deepEqualMap konveyor.deepEqualViolation
                (konveyor.Violations rs) (konveyor.Violations ers)) then
       compareFindings c "Did not find violations"
         (konveyor.Violations ers) (konveyor.Violations rs) errors
     else Ok errors);
  errors ←
    (if negb (deepEqualSlice String.eqb (konveyor.Unmatched rs) (konveyor.Unmatched ers))
     then
       forEach
         (λ errors ersunmatched,
            r ← compareUnmatched c ersunmatched (konveyor.Unmatched rs);
            appendIfOk errors r)
         (elems (konveyor.Unmatched ers)) errors
     else Ok errors);
  (if negb (deepEqualSlice String.eqb (konveyor.Skipped rs) (konveyor.Skipped ers)) then
     forEach
       (λ errors ersskipped,
          r ← compareSkipped c ersskipped (konveyor.Skipped rs); appendIfOk errors r)
       (elems (konveyor.Skipped ers)) errors
   else Ok errors).

Definition ValidateFiles (testDir targetType : string)
    (actual expected : slice konveyor.RuleSet) : result ValidationResult :=
  let errors := Some [] in
  let comparer := getComparer targetType testDir in
  errors ←
    forEach
      (λ errors ers,
         errors ←
           forEach
             (λ errors rs,
                if negb (String.eqb (konveyor.Name rs) (konveyor.Name ers))
                then Ok errors
                else compareRuleSets comparer ers rs errors)
             (elems actual) errors;
         Ok (append errors [ {| Path := "ruleset/" +:+ konveyor.Name ers;
                                Message := "";
                                Expected := nil;
                                Actual := nil |} ]))
      (elems expected) errors;
  Ok {| Passed := (len errors =? 0)%nat; Errors := errors |}.

Definition Validate (actual expected : slice konveyor.RuleSet) : result ValidationResult :=
  ValidateFiles "" "" actual expected.

End Comparers.

End validator.

(** ** A reference instance of the external functions *)

(** Used to run the model on examples.  It agrees with the libraries
    on file URIs with an empty authority and a path free of escapes,
    and on clean slash-separated paths without [.] and [..] elements. *)
Module reference.

Definition filename (u : string) : option string :=
  if HasPrefix u "file:///" then Some (dropBytes 7 u) else None.

Definition Join (dir name : string) : string :=
  if String.eqb dir "" then name else dir +:+ "/" +:+ name.

(** The elements left of [base] and of [target] once their common
    leading elements are dropped: one [..] for each of the former,
    then the latter. *)
Fixpoint relElements (base target : list string) : list string :=
  match base, target with
  | b :: base', t :: target' =>
      if String.eqb b t then relElements base' target'
      else map (λ _, "..") base ++ target
  | _, _ => map (λ _, "..") base ++ target
  end.

Definition Rel (base target : string) : option string :=
  if negb (Bool.eqb (HasPrefix base "/") (HasPrefix target "/")) then None
  else if String.eqb base target then Some "."
  else Some (Go.Join (relElements (Split base "/") (Split target "/")) "/").

Definition showPointer {A} (p : pointer A) : string :=
  match p with
  | None => "<nil>"
  | Some r => "0x" +:+ HexadecimalString.NilZero.string_of_uint (N.to_hex_uint (addr r))
  end.

Definition showLink (l : konveyor.Link) : string :=
  "{" +:+ konveyor.URL l +:+ " " +:+ konveyor.Title l +:+ "}".

Definition showValue (v : konveyor.value) : string :=
  match v with
  | konveyor.Null => "<nil>"
  | konveyor.Bool b => if b then "true" else "false"
  | konveyor.Int z => Itoa z
  | konveyor.Text s => s
  end.

Definition showIncident (i : konveyor.Incident) : string :=
  "{" +:+ konveyor.URI i +:+ " " +:+ konveyor.Message i +:+ " " +:+ konveyor.CodeSnip i
  +:+ " " +:+ showPointer (konveyor.LineNumber i) +:+ " map["
  +:+ Go.Join (map (λ '(k, v), k +:+ ":" +:+ showValue v)
                   (range (konveyor.Variables i))) " "
  +:+ "]}".

Definition external : External :=
  {| Filename := filename;
     filepathJoin := Join;
     filepathRel := Rel;
     formatCategory := showPointer;
     formatEffort := showPointer;
     formatLink := showLink;
     formatIncident := showIncident |}.

End reference.

(** ** Vocabulary of the properties *)

Module props.

(** [x] directly followed by [y] in the argument list [l]. *)
Definition adjacent (x y : string) (l : list string) : Prop :=
  ∃ before after, l = before ++ x :: y :: after.

(** An argument of the command line: a flag alone, or a flag with
    its value. *)
Definition rendered (arg : string * option string) : list string :=
  match arg with
  | (flag, Some v) => [flag; v]
  | (flag, None) => [flag]
  end.

Definition optional (flag value : string) : list (string * option string) :=
  if String.eqb value "" then [] else [(flag, Some value)].

Definition repeated (flag : string) (values : slice string)
    : list (string * option string) :=
  map (λ v, (flag, Some v)) (elems values).

(** The argument contract of the kantra command line. *)
Definition contract (analysis : targets.AnalysisConfig)
    (inputPath outputDir mavenSettings : string) : list (string * option string) :=
  [ ("analyze", None);
    ("--context-lines", Some (Itoa (targets.ContextLines analysis)));
    ("--input", Some inputPath);
    ("--output", Some outputDir) ]
  ++ optional "--label-selector" (targets.LabelSelector analysis)
  ++ optional "--incident-selector" (targets.IncidentSelector analysis)
  ++ optional "--maven-settings" mavenSettings
  ++ repeated "-t" (targets.Target analysis)
  ++ repeated "-s" (targets.Source analysis)
  ++ repeated "--rules" (targets.Rules analysis)
  ++ (if String.eqb (targets.AnalysisMode analysis) targets.SourceOnlyAnalysisMode
      then [("--mode", Some "source-only")]
      else if String.eqb (targets.AnalysisMode analysis) targets.FullAnalysisMode
      then [("--mode", Some "full")]
      else [])
  ++ [ ("--run-local=false", None); ("--overwrite", None) ].

(** The values the caller hands to the argument builder, apart from
    the settings path. *)
Definition supplied (analysis : targets.AnalysisConfig)
    (inputPath outputDir : string) : list string :=
  [ inputPath; outputDir;
    targets.LabelSelector analysis; targets.IncidentSelector analysis ]
  ++ elems (targets.Target analysis)
  ++ elems (targets.Source analysis)
  ++ elems (targets.Rules analysis).

(** The application reference is sent to [git clone]. *)
Definition isGitReference (i : targets.input) : Prop :=
  ∃ gitURL gitRef gitPath workDir, i = targets.gitClone gitURL gitRef gitPath workDir.

(** The three prefixes [prepareInput] takes for a git URL. *)
Definition gitPrefix (application : string) : bool :=
  HasPrefix application "http://" ||
  HasPrefix application "https://" ||
  HasPrefix application "git@".

Definition nonEmpty {A} (l : list A) : bool :=
  match l with [] => false | _ => true end.

(** Some compared field of the matched pair fails its equality
    check while its expected side has an element to compare: the
    cases in which [ValidateFiles] calls a method of the comparer. *)
Definition needsComparer (ers rs : konveyor.RuleSet) : bool :=
  negb (mapsEqual String.eqb (konveyor.Errors ers) (konveyor.Errors rs))
    && nonEmpty (range (konveyor.Errors ers))
  || negb (deepEqualSlice String.eqb (konveyor.Tags rs) (konveyor.Tags ers))
    && nonEmpty (elems (konveyor.Tags ers))
  || negb (deepEqualMap konveyor.deepEqualViolation
             (konveyor.Insights rs) (konveyor.Insights ers))
    && nonEmpty (range (konveyor.Insights ers))
  || negb (deepEqualMap konveyor.deepEqualViolation
             (konveyor.Violations rs) (konveyor.Violations ers))
    && nonEmpty (range (konveyor.Violations ers))
  || negb (deepEqualSlice String.eqb (konveyor.Unmatched rs) (konveyor.Unmatched ers))
    && nonEmpty (elems (konveyor.Unmatched ers))
  || negb (deepEqualSlice String.eqb (konveyor.Skipped rs) (konveyor.Skipped ers))
    && nonEmpty (elems (konveyor.Skipped ers)).

Definition knownTargets : list string :=
  ["kantra"; "tackle-hub"; "tackle-ui"; "kai-rpc"; "vscode"].

(** The error [ValidateFiles] appends for the expected ruleset
    [name]. *)
Definition rulesetError (name : string) : validator.ValidationError :=
  {| validator.Path := "ruleset/" +:+ name;
     validator.Message := "";
     validator.Expected := validator.nil;
     validator.Actual := validator.nil |}.

(** A ruleset with a name and nothing else. *)
Definition bare (name : string) : konveyor.RuleSet :=
  {| konveyor.Name := name; konveyor.Tags := None; konveyor.Violations := None;
     konveyor.Insights := None; konveyor.Errors := None;
     konveyor.Unmatched := None; konveyor.Skipped := None |}.

(** The violation [actual] with its incidents replaced. *)
Definition withIncidents (actual : konveyor.Violation)
    (incidents : slice konveyor.Incident) : konveyor.Violation :=
  {| konveyor.Description := konveyor.Description actual;
     konveyor.Category := konveyor.Category actual;
     konveyor.Labels := konveyor.Labels actual;
     konveyor.Incidents := incidents;
     konveyor.Links := konveyor.Links actual;
     konveyor.Effort := konveyor.Effort actual |}.

(** The incident [i] with another code snippet. *)
Definition withCodeSnip (i : konveyor.Incident) (codeSnip : string) : konveyor.Incident :=
  {| konveyor.URI := konveyor.URI i;
     konveyor.Message := konveyor.Message i;
     konveyor.CodeSnip := codeSnip;
     konveyor.LineNumber := konveyor.LineNumber i;
     konveyor.Variables := konveyor.Variables i |}.

(** The file of the incident lies below [testDir/source] in such a
    way that its path relative to that folder occurs in its own file
    name: the convention for the URIs of expected incidents. *)
Definition underSource (X : External) (testDir : string) (i : konveyor.Incident) : Prop :=
  ∃ file pathToTest,
    Filename X (konveyor.URI i) = Some file ∧
    filepathRel X (filepathJoin X testDir "source") file = Some pathToTest ∧
    Contains file pathToTest = true.

End props.

(** ** Sample data *)

Module sample.

Definition incident (uri codeSnip : string) : konveyor.Incident :=
  {| konveyor.URI := uri; konveyor.Message := "Test message";
     konveyor.CodeSnip := codeSnip; konveyor.LineNumber := None;
     konveyor.Variables := None |}.

Definition violation (links : slice konveyor.Link) (incidents : slice konveyor.Incident)
    : konveyor.Violation :=
  {| konveyor.Description := "Test violation"; konveyor.Category := None;
     konveyor.Labels := Some ["label1"]; konveyor.Incidents := incidents;
     konveyor.Links := links; konveyor.Effort := None |}.

Definition tagged (name : string) (tags : slice string) : konveyor.RuleSet :=
  {| konveyor.Name := name; konveyor.Tags := tags; konveyor.Violations := None;
     konveyor.Insights := None; konveyor.Errors := None;
     konveyor.Unmatched := None; konveyor.Skipped := None |}.

(** The ruleset of [TestValidate_ExactMatch], its three pointers at
    the addresses [a], [a + 1] and [a + 2]. *)
Definition exactMatch (a : N) : konveyor.RuleSet :=
  let incident :=
    {| konveyor.URI := "file:///test/file.go"; konveyor.Message := "Test message";
       konveyor.CodeSnip := ""; konveyor.LineNumber := Some (Ref (a + 1) 10%Z);
       konveyor.Variables := None |} in
  let rule1 :=
    {| konveyor.Description := "Test violation";
       konveyor.Category := Some (Ref a "mandatory");
       konveyor.Labels := Some ["label1"]; konveyor.Incidents := Some [incident];
       konveyor.Links := None; konveyor.Effort := Some (Ref (a + 2) 5%Z) |} in
  {| konveyor.Name := "test-ruleset"; konveyor.Tags := Some ["tag1"; "tag2"];
     konveyor.Violations := Some {[ "rule1" := rule1 ]}; konveyor.Insights := None;
     konveyor.Errors := None; konveyor.Unmatched := None; konveyor.Skipped := None |}.

(** The ruleset of [TestValidateFiles_WithTargetType], with the given
    code snippet in its incident. *)
Definition withTargetType (codeSnip : string) : konveyor.RuleSet :=
  let incident :=
    {| konveyor.URI := "file:///test/file.go"; konveyor.Message := "Test message";
       konveyor.CodeSnip := codeSnip; konveyor.LineNumber := None;
       konveyor.Variables := None |} in
  let rule1 :=
    {| konveyor.Description := "Test"; konveyor.Category := None;
       konveyor.Labels := None; konveyor.Incidents := Some [incident];
       konveyor.Links := None; konveyor.Effort := None |} in
  {| konveyor.Name := "test-ruleset"; konveyor.Tags := None;
     konveyor.Violations := Some {[ "rule1" := rule1 ]}; konveyor.Insights := None;
     konveyor.Errors := None; konveyor.Unmatched := None; konveyor.Skipped := None |}.

Definition target : targets.KantraTarget :=
  {| targets.binaryPath := "/usr/local/bin/kantra"; targets.mavenSettings := "" |}.

Definition analysis : targets.AnalysisConfig :=
  {| targets.Application := "/path/to/app"; targets.ContextLines := 10;
     targets.LabelSelector := ""; targets.IncidentSelector := "";
     targets.Target := Some []; targets.Source := Some []; targets.Rules := None;
     targets.AnalysisMode := targets.SourceOnlyAnalysisMode |}.

End sample.

(** ** More of the Go standard library: replacing text *)

Module replace.

(** Where a match starts at the head of a text: the number of bytes
    it takes, which is not zero. *)
Definition matcher : Type := string → option nat.

(** The leftmost matches, none overlapping the one before it,
    replaced by [repl] from left to right; [skip] counts the bytes of
    the current match that are still to be passed. *)
Fixpoint replaceFrom (m : matcher) (repl : string) (skip : nat) (s : string) : string :=
  match s with
  | EmptyString => EmptyString
  | String c s' =>
      match skip with
      | S skip' => replaceFrom m repl skip' s'
      | 0 =>
          match m s with
          | Some n => repl +:+ replaceFrom m repl (n - 1) s'
          | None => String c (replaceFrom m repl 0 s')
          end
      end
  end.

(** A fixed text. *)
Definition literal (text : string) : matcher :=
  λ s, if String.prefix text s then Some (String.length text) else None.

(** [strings.ReplaceAll(s, old, new)] for a non-empty [old]. *)
Definition ReplaceAll (s old new : string) : string := replaceFrom (literal old) new 0 s.

(** The number of bytes before the first [/]. *)
Fixpoint untilSlash (s : string) : option nat :=
  match s with
  | EmptyString => None
  | String c s' => if Ascii.eqb c "/" then Some 0 else option_map S (untilSlash s')
  end.

(** The expression [text[^/]+/] for a [text] free of
    metacharacters: the text, one or more bytes other than [/], and
    a [/].  (The expression works on runes; a [/] is a rune of its
    own in every text, so the bytes before the first [/] are the
    runes before it.) *)
Definition segmentAfter (text : string) : matcher :=
  λ s, if String.prefix text s then
         match untilSlash (dropBytes (String.length text) s) with
         | Some (S n) => Some (String.length text + S n + 1)
         | _ => None
         end
       else None.

(** [re.ReplaceAllString(src, repl)] for a [repl] without [$]. *)
Definition ReplaceAllString (re : matcher) (src repl : string) : string :=
  replaceFrom re repl 0 src.

End replace.

(** ** package validator: the text of a result file *)

Module yaml.

Import replace.

(** The expression [file:///shared/source/[^/]+/]. *)
Definition re : matcher := segmentAfter "file:///shared/source/".

(** [len(line) > 0 && (line[0] == ' ' || line[0] == '\t')]. *)
Definition indented (line : string) : bool :=
  match line with
  | String c _ => Ascii.eqb c " " || Ascii.eqb c (ascii_of_nat 9)
  | EmptyString => false
  end.

(** The body of the loop over the lines; its state is the lines
    kept so far and the flag [skipNext]. *)
Definition keep (state : slice string * bool) (line : string) : slice string * bool :=
  let '(filtered, skipNext) := state in
  let trimmed := TrimSpace line in
  if HasPrefix trimmed "codeSnip:" then (filtered, true)
  else if skipNext then
    if indented line && negb (Contains trimmed ":") then (filtered, skipNext)
    else (append filtered [line], false)
  else (append filtered [line], skipNext).

Definition normalizeYAMLPaths (yamlStr testDir targetType : string) : string :=
  let yamlStr :=
    if negb (String.eqb testDir "") then ReplaceAll yamlStr testDir "" else yamlStr in
  let yamlStr := ReplaceAll yamlStr "file:///opt/input/source/" "file:///source/" in
  let yamlStr := ReplaceAllString re yamlStr "file:///source/" in
  let yamlStr := ReplaceAll yamlStr "file:///root/.m2/repository/" "file:///m2/" in
  let yamlStr := ReplaceAll yamlStr "file:///cache/m2/repository/" "file:///m2/" in
  if String.eqb targetType "tackle-hub" then
    let lines := Split yamlStr validator.newline in
    let filtered := fst (fold_left keep lines (None, false)) in
    Join (elems filtered) validator.newline
  else yamlStr.

End yaml.

(** ** Vocabulary of the further properties *)

Module further.

(** The labels a list of selector terms includes: in order, the
    trimmed terms that are not empty and do not begin with [!]. *)
Definition includedTerms (terms : list string) : list string :=
  List.filter (λ p, negb (String.eqb p "") && negb (HasPrefix p "!"))
              (map TrimSpace terms).

(** The labels a list of selector terms excludes: in order, what is
    left of the trimmed terms that begin with [!] once the [!] is
    removed and the rest trimmed, unless nothing is left. *)
Definition excludedTerms (terms : list string) : list string :=
  List.filter (λ p, negb (String.eqb p ""))
              (map (λ p, TrimSpace (TrimPrefix p "!"))
                   (List.filter (λ p, HasPrefix p "!") (map TrimSpace terms))).

(** An error that names a path. *)
Definition hasPath (e : validator.ValidationError) : bool :=
  negb (String.eqb (validator.Path e) "").

(** The actual rulesets that carry the name of an expected one. *)
Definition named (expected : slice konveyor.RuleSet) (rs : konveyor.RuleSet) : bool :=
  existsb (λ ers, String.eqb (konveyor.Name rs) (konveyor.Name ers)) (elems expected).

(** The violations and insights of a ruleset, and their incidents. *)
Definition findings (rs : konveyor.RuleSet) : list konveyor.Violation :=
  map snd (range (konveyor.Violations rs)) ++ map snd (range (konveyor.Insights rs)).

Definition incidentsOf (rs : konveyor.RuleSet) : list konveyor.Incident :=
  flat_map (λ v, elems (konveyor.Incidents v)) (findings rs).

(** Every incident of the violation has a URI with a file name. *)
Definition locatable (X : External) (v : konveyor.Violation) : Prop :=
  ∀ i, i ∈ elems (konveyor.Incidents v) → is_Some (Filename X (konveyor.URI i)).

(** The actual ruleset [rs] has what the expected ruleset [ers]
    asks for: the expected errors under their keys, the expected
    tags, unmatched and skipped rules somewhere in its lists, and
    deeply equal insights and violations. *)
Definition within (ers rs : konveyor.RuleSet) : Prop :=
  (∀ k e, entries (konveyor.Errors ers) !! k = Some e →
          index (konveyor.Errors rs) k "" = e)
  ∧ elems (konveyor.Tags ers) ⊆ elems (konveyor.Tags rs)
  ∧ deepEqualMap konveyor.deepEqualViolation
      (konveyor.Insights rs) (konveyor.Insights ers) = true
  ∧ deepEqualMap konveyor.deepEqualViolation
      (konveyor.Violations rs) (konveyor.Violations ers) = true
  ∧ elems (konveyor.Unmatched ers) ⊆ elems (konveyor.Unmatched rs)
  ∧ elems (konveyor.Skipped ers) ⊆ elems (konveyor.Skipped rs).

(** The error of the comparers for an expected string that the
    actual side lacks; [what] is [error], [tag], [unmatched rule] or
    [skipped rule]. *)
Definition notFound (what expected : string) : validator.ValidationError :=
  {| validator.Path := "";
     validator.Message := "Did not find expected " +:+ what +:+ ": " +:+ expected;
     validator.Expected := validator.ofString expected;
     validator.Actual := validator.nil |}.

(** The violation has nothing a comparison could miss: no category,
    no effort, no links, no labels, no incidents. *)
Definition blank (v : konveyor.Violation) : bool :=
  ptrEq (konveyor.Category v) None && ptrEq (konveyor.Effort v) None
  && (len (konveyor.Links v) =? 0)%nat && (len (konveyor.Labels v) =? 0)%nat
  && (len (konveyor.Incidents v) =? 0)%nat.

(** The error [ValidateFiles] builds from the errors [err] of the
    comparison of the expected violation or insight [v]. *)
Definition summed (opening : string) (v : konveyor.Violation)
    (err : slice validator.ValidationError) : validator.ValidationError :=
  {| validator.Path := "";
     validator.Message := validator.summary opening err;
     validator.Expected := validator.ofViolation v;
     validator.Actual := validator.nil |}.

(** A line that opens a code snippet. *)
Definition codeSnipLine (line : string) : bool :=
  HasPrefix (TrimSpace line) "codeSnip:".

(** A line that is taken for the continuation of a code snippet:
    indented, and without a colon. *)
Definition continuation (line : string) : bool :=
  yaml.indented line && negb (Contains (TrimSpace line) ":").

(** The test folder does not occur in the text, so that its removal
    leaves the text as it is. *)
Definition without (testDir text : string) : Prop :=
  testDir = "" ∨ Contains text testDir = false.

(** *** When an expected incident counts as found *)

(** Message, line number (the same pointer) and variables agree. *)
Definition sameDetails (i ai : konveyor.Incident) : Prop :=
  konveyor.Message i = konveyor.Message ai
  ∧ ptrEq (konveyor.LineNumber i) (konveyor.LineNumber ai) = true
  ∧ konveyor.deepEqualVariables (konveyor.Variables i) (konveyor.Variables ai) = true.

(** The path of the expected file, relative to [testDir/source],
    occurs in the name of the actual file. *)
Definition samePath (X : External) (testDir : string) (i ai : konveyor.Incident) : Prop :=
  ∃ file pathToTest afile,
    Filename X (konveyor.URI i) = Some file
    ∧ filepathRel X (filepathJoin X testDir "source") file = Some pathToTest
    ∧ Filename X (konveyor.URI ai) = Some afile
    ∧ Contains afile pathToTest = true.

(** The actual incident [ai] satisfies the search for the expected
    incident [i]. *)
Definition found (X : External) (c : validator.comparer) (i ai : konveyor.Incident) : Prop :=
  match c with
  | validator.kantraComparer k =>
      TrimSpace (konveyor.CodeSnip i) = TrimSpace (konveyor.CodeSnip ai)
      ∧ (if String.eqb (konveyor.URI i) "" || String.eqb (konveyor.URI ai) ""
         then konveyor.URI i = konveyor.URI ai
         else samePath X (validator.testDir k) i ai)
      ∧ sameDetails i ai
  | validator.tackle2HubComparer t =>
      samePath X (validator.testDir (validator.embedded t)) i ai ∧ sameDetails i ai
  end.

(** The incidents whose files a comparer may look at: for kantra
    those with a URI, for tackle-hub all. *)
Definition filed (c : validator.comparer) (i : konveyor.Incident) : Prop :=
  match c with
  | validator.kantraComparer _ => konveyor.URI i ≠ ""
  | validator.tackle2HubComparer _ => True
  end.

(** The files can be resolved: every expected file has a path
    relative to [testDir/source], and every actual URI a file name. *)
Definition resolvable (X : External) (c : validator.comparer)
    (expected actual : konveyor.Violation) : Prop :=
  (∀ i, i ∈ elems (konveyor.Incidents expected) → filed c i →
        ∃ file pathToTest,
          Filename X (konveyor.URI i) = Some file
          ∧ filepathRel X (filepathJoin X (validator.testDir (validator.receiver c))
                             "source") file = Some pathToTest)
  ∧ (∀ ai, ai ∈ elems (konveyor.Incidents actual) → filed c ai →
           is_Some (Filename X (konveyor.URI ai))).

(** What a comparer asks of the actual violation. *)
Definition accepted (X : External) (c : validator.comparer)
    (expected actual : konveyor.Violation) : Prop :=
  ptrEq (konveyor.Category expected) (konveyor.Category actual) = true
  ∧ ptrEq (konveyor.Effort expected) (konveyor.Effort actual) = true
  ∧ (∀ l, l ∈ elems (konveyor.Links expected) →
          ∃ al, al ∈ elems (konveyor.Links actual)
                ∧ konveyor.Title al = konveyor.Title l
                ∧ konveyor.Title al = konveyor.URL l)
  ∧ (∀ l, l ∈ elems (konveyor.Labels expected) → l ∈ elems (konveyor.Labels actual))
  ∧ (∀ i, i ∈ elems (konveyor.Incidents expected) →
          ∃ ai, ai ∈ elems (konveyor.Incidents actual) ∧ found X c i ai).

(** The state [s'] is the state [s] with errors added that all
    satisfy [P]. *)
Definition adds (P : validator.ValidationError → Prop)
    (s s' : slice validator.ValidationError) : Prop :=
  ∃ added, elems s' = elems s ++ added ∧ Forall P added.

End further.

(** ** More sample data *)

Module examples.

Definition link (url title : string) : konveyor.Link :=
  {| konveyor.URL := url; konveyor.Title := title |}.

(** A violation with a category at the address [a]. *)
Definition categorised (a : N) : konveyor.Violation :=
  {| konveyor.Description := "Test violation";
     konveyor.Category := Some (Ref a "mandatory");
     konveyor.Labels := None; konveyor.Incidents := None;
     konveyor.Links := None; konveyor.Effort := None |}.

(** A ruleset with one violation, [rule1]. *)
Definition withViolation (name : string) (v : konveyor.Violation) : konveyor.RuleSet :=
  {| konveyor.Name := name; konveyor.Tags := None;
     konveyor.Violations := Some {[ "rule1" := v ]}; konveyor.Insights := None;
     konveyor.Errors := None; konveyor.Unmatched := None; konveyor.Skipped := None |}.

(** What [ValidateFiles] returns, for the examples in which it
    returns. *)
Definition report (X : External) (testDir targetType : string)
    (actual expected : slice konveyor.RuleSet) : validator.ValidationResult :=
  match validator.ValidateFiles X testDir targetType actual expected with
  | Ok r => r
  | Panic => {| validator.Passed := false; validator.Errors := None |}
  end.

(** A result file of four lines, the second and third a code
    snippet. *)
Definition resultFile : string :=
  "uri: file:///opt/input/source/src/A.java" +:+ validator.newline
  +:+ "codeSnip: |" +:+ validator.newline
  +:+ "  1 x := 1" +:+ validator.newline
  +:+ "message: m".

End examples.

(** * Properties *)

(** ** Lemmas on the library functions *)

Section GoLemmas.

Lemma elems_append {A} (s : slice A) (xs : list A) :
  elems (append s xs) = elems s ++ xs.
Proof. destruct xs; simpl; [by rewrite app_nil_r | done]. Qed.

Lemma append_Some {A} (l xs : list A) : append (Some l) xs = Some (l ++ xs).
Proof. destruct xs; simpl; [by rewrite app_nil_r | done]. Qed.

Lemma prefix_empty s : String.prefix "" s = true.
Proof. by destruct s. Qed.

Lemma prefix_char c d s :
  String.prefix (String c "") (String d s) = Ascii.eqb c d.
Proof.
  simpl. destruct (ascii_dec c d) as [->|Hne].
  - by rewrite prefix_empty, Ascii.eqb_refl.
  - by apply Ascii.eqb_neq in Hne as ->.
Qed.

Lemma Contains_char_cons c d s :
  Contains (String d s) (String c "") = Ascii.eqb c d || Contains s (String c "").
Proof.
  change (Contains (String d s) (String c ""))
    with (String.prefix (String c "") (String d s) || Contains s (String c "")).
  by rewrite prefix_char.
Qed.

Lemma Contains_char_app c u r :
  Contains (u +:+ String c r) (String c "") = true.
Proof.
  induction u as [|d u IH].
  - change ("" +:+ String c r) with (String c r).
    rewrite Contains_char_cons. by rewrite Ascii.eqb_refl.
  - change (String d u +:+ String c r) with (String d (u +:+ String c r)).
    rewrite Contains_char_cons, IH. apply orb_true_r.
Qed.

(** The first occurrence of a one-byte separator. *)
Lemma cut_char_app c u r :
  Contains u (String c "") = false →
  cut (u +:+ String c r) (String c "") = Some (u, r).
Proof.
  induction u as [|d u IH]; intros Hu.
  - change ("" +:+ String c r) with (String c r).
    unfold cut. by rewrite prefix_char, Ascii.eqb_refl.
  - rewrite Contains_char_cons in Hu. apply orb_false_iff in Hu as [Hcd Hu].
    change (String d u +:+ String c r) with (String d (u +:+ String c r)).
    change (cut (String d (u +:+ String c r)) (String c ""))
      with (if String.prefix (String c "") (String d (u +:+ String c r))
            then Some ("", dropBytes 1 (String d (u +:+ String c r)))
            else match cut (u +:+ String c r) (String c "") with
                 | Some (before, after) => Some (String d before, after)
                 | None => None
                 end).
    by rewrite prefix_char, Hcd, (IH Hu).
Qed.

Lemma cut_char_none c s :
  Contains s (String c "") = false → cut s (String c "") = None.
Proof.
  induction s as [|d s IH]; intros Hs; [done|].
  rewrite Contains_char_cons in Hs. apply orb_false_iff in Hs as [Hcd Hs].
  change (cut (String d s) (String c ""))
    with (if String.prefix (String c "") (String d s)
          then Some ("", dropBytes 1 (String d s))
          else match cut s (String c "") with
               | Some (before, after) => Some (String d before, after)
               | None => None
               end).
  by rewrite prefix_char, Hcd, (IH Hs).
Qed.

End GoLemmas.

(** ** The label selector parser *)

Section LabelSelector.

Import targets.

Lemma fold_left_invariant {A B} (P : A → Prop) (f : A → B → A) (l : list B) (a : A) :
  P a → (∀ a b, P a → P (f a b)) → P (fold_left f l a).
Proof.
  intros Ha Hstep. revert a Ha.
  induction l as [|b l IH]; intros a Ha; simpl; [done|].
  apply IH, Hstep, Ha.
Qed.

Lemma not_elem_of_elems_append (x y : string) (s : slice string) :
  x ≠ y → x ∉ elems s → x ∉ elems (append s [y]).
Proof.
  intros Hxy Hs. rewrite elems_append.
  intros [H|H]%elem_of_app; [done|].
  apply list_elem_of_singleton in H. done.
Qed.

(** C5, as the code has it: for every selector string, neither
    [Included] nor [Excluded] contains the empty string (the two need
    not be disjoint), and the empty selector yields two empty slices
    that are not nil. *)
Theorem ParseLabelSelector_no_empty_label (selector : string) :
  ("" ∉ elems (Included (ParseLabelSelector selector))) ∧
  ("" ∉ elems (Excluded (ParseLabelSelector selector))) ∧
  ParseLabelSelector "" = {| Included := Some []; Excluded := Some [] |}.
Proof.
  split_and!; [| |done].
  all: unfold ParseLabelSelector; destruct (String.eqb selector ""); simpl;
    [apply not_elem_of_nil|].
  all: apply (fold_left_invariant
                (λ labels, ("" ∉ elems (Included labels)) ∧ ("" ∉ elems (Excluded labels))));
    [split; apply not_elem_of_nil|].
  all: intros labels part [Hin Hex]; simpl.
  all: destruct (String.eqb (TrimSpace part) "") eqn:Hpart; [done|].
  all: apply String.eqb_neq in Hpart.
  all: destruct (HasPrefix (TrimSpace part) "!"); simpl.
  all: try destruct (String.eqb (TrimSpace (TrimPrefix (TrimSpace part) "!")) "") eqn:Hexcl;
    simpl; try done.
  all: try apply String.eqb_neq in Hexcl.
  all: split; try done; apply not_elem_of_elems_append; done.
Qed.

(** C5, as the specification states it, fails: a label given both
    plainly and negated is in [Included] and in [Excluded]. *)
Lemma ParseLabelSelector_not_disjoint :
  "a" ∈ elems (Included (ParseLabelSelector "a||!a")) ∧
  "a" ∈ elems (Excluded (ParseLabelSelector "a||!a")).
Proof. vm_compute. split; constructor. Qed.

End LabelSelector.

(** ** The application reference *)

Section ApplicationReference.

Import targets props.

(** C6, as the code has it: an application reference goes to
    [git clone] exactly when it has no binary extension and begins
    with [http://], [https://] or [git@]. *)
Theorem prepareInput_git_iff (k : KantraTarget) (application testName workDir : string) :
  isGitReference (prepareInput k application testName workDir)
  ↔ IsBinaryFile application = false ∧ gitPrefix application = true.
Proof.
  unfold prepareInput, isGitReference, gitPrefix.
  destruct (IsBinaryFile application).
  { split; [intros (?&?&?&?&[=]) | intros [[=] _]]. }
  destruct (HasPrefix application "http://" || HasPrefix application "https://"
            || HasPrefix application "git@"); simpl.
  - split; [done | intros _].
    destruct (if Contains application "#" then _ else _) as [[gitURL gitRef] gitPath].
    eauto.
  - split; [| intros [_ [=]]].
    destruct (HasPrefix application "binary:"); intros (?&?&?&?&[=]).
Qed.

(** C6, as the specification states it, fails: a reference of the
    form [user@host:] other than [git@] is a local path, and a
    reference with a binary extension is a binary file whatever it
    begins with. *)
Lemma prepareInput_ssh_reference_is_local_path :
  prepareInput sample.target "deploy@example.com:repo.git" "t" "/w"
  = localPath "deploy@example.com:repo.git" ∧
  prepareInput sample.target "https://example.com/app.jar" "t" "/w"
  = binaryFile "https://example.com/app.jar" "/w".
Proof. split; reflexivity. Qed.

Lemma SplitN_two_cut (s sep : string) :
  SplitN s sep 2 = match cut s sep with
                   | Some (before, after) => [before; after]
                   | None => [s]
                   end.
Proof. simpl. by destruct (cut s sep) as [[? ?]|]. Qed.

(** C10: the reference is split at the first [#] into URL and
    remainder, and the remainder at the first [/] into ref and
    subpath; without [#] ref and subpath are empty. *)
Theorem prepareInput_parses_git_reference (k : KantraTarget) (testName workDir : string) :
  prepareInput k "https://h/r.git#main/sub/dir" testName workDir
  = gitClone "https://h/r.git" "main" "sub/dir" workDir
  ∧ (∀ application,
       IsBinaryFile application = false → gitPrefix application = true →
       Contains application "#" = false →
       prepareInput k application testName workDir = gitClone application "" "" workDir)
  ∧ (∀ url ref,
       IsBinaryFile (url +:+ "#" +:+ ref) = false →
       gitPrefix (url +:+ "#" +:+ ref) = true →
       Contains url "#" = false → Contains ref "/" = false →
       prepareInput k (url +:+ "#" +:+ ref) testName workDir
       = gitClone url ref "" workDir)
  ∧ (∀ url ref subpath,
       IsBinaryFile (url +:+ "#" +:+ ref +:+ "/" +:+ subpath) = false →
       gitPrefix (url +:+ "#" +:+ ref +:+ "/" +:+ subpath) = true →
       Contains url "#" = false → Contains ref "/" = false →
       prepareInput k (url +:+ "#" +:+ ref +:+ "/" +:+ subpath) testName workDir
       = gitClone url ref subpath workDir).
Proof.
  split_and!.
  - reflexivity.
  - intros application Hbin Hgit Hhash.
    unfold prepareInput. unfold gitPrefix in Hgit. by rewrite Hbin, Hgit, Hhash.
  - intros url ref Hbin Hgit Hurl Href.
    unfold prepareInput. unfold gitPrefix in Hgit. rewrite Hbin, Hgit. simpl negb. cbv iota.
    change (url +:+ "#" +:+ ref) with (url +:+ String "#" ref).
    rewrite Contains_char_app, !SplitN_two_cut, (cut_char_app _ _ _ Hurl).
    simpl. by rewrite (cut_char_none _ _ Href).
  - intros url ref subpath Hbin Hgit Hurl Href.
    unfold prepareInput. unfold gitPrefix in Hgit. rewrite Hbin, Hgit. simpl negb. cbv iota.
    change (url +:+ "#" +:+ ref +:+ "/" +:+ subpath)
      with (url +:+ String "#" (ref +:+ String "/" subpath)).
    rewrite Contains_char_app, !SplitN_two_cut, (cut_char_app _ _ _ Hurl).
    simpl. by rewrite (cut_char_app _ _ _ Href).
Qed.

End ApplicationReference.

Lemma prepareInput_parses_git_reference_witness :
  targets.prepareInput sample.target "https://h/r.git" "t" "/w"
  = targets.gitClone "https://h/r.git" "" "" "/w" ∧
  targets.prepareInput sample.target "https://h/r.git#main" "t" "/w"
  = targets.gitClone "https://h/r.git" "main" "" "/w" ∧
  targets.prepareInput sample.target "git@h:r.git#v1/app/web" "t" "/w"
  = targets.gitClone "git@h:r.git" "v1" "app/web" "/w".
Proof.
  pose proof (prepareInput_parses_git_reference sample.target "t" "/w")
    as (_ & Hplain & Href & Hsub).
  split_and!.
  - apply Hplain; reflexivity.
  - apply (Href "https://h/r.git" "main"); reflexivity.
  - apply (Hsub "git@h:r.git" "v1" "app/web"); reflexivity.
Defined.

(** ** The argument builder *)

Section ArgumentBuilder.

Import targets props.

Lemma fold_append_pair (flag : string) (values : list string) (args : slice string) :
  fold_left (λ args v, append args [flag; v]) values args
  = append args (flat_map rendered (map (λ v, (flag, Some v)) values)).
Proof.
  revert args. induction values as [|v values IH]; intros args; [done|].
  cbn [fold_left map flat_map rendered]. rewrite IH.
  destruct args; cbn [append elems]; rewrite !append_Some; by rewrite <- ?app_assoc.
Qed.

Lemma guarded_loop {A} (values : slice string) (looped : A → A) (args : A) :
  (elems values = [] → looped args = args) →
  (if (0 <? len values)%nat then looped args else args) = looped args.
Proof.
  intros Hnil. unfold len. destruct (elems values); simpl; [by rewrite Hnil | done].
Qed.

(** The argument list is the rendering of the contract. *)
Lemma buildArgs_contract (k : KantraTarget) (analysis : AnalysisConfig)
    (inputPath outputDir mavenSettings : string) :
  buildArgs k analysis inputPath outputDir mavenSettings
  = Some (flat_map rendered (contract analysis inputPath outputDir mavenSettings)).
Proof.
  unfold buildArgs, contract, optional, repeated.
  destruct (String.eqb (LabelSelector analysis) ""),
           (String.eqb (IncidentSelector analysis) ""),
           (String.eqb mavenSettings "");
    cbv zeta; cbn [negb];
    rewrite !(guarded_loop _ (λ args, fold_left _ _ args)) by (by intros ->);
    rewrite !fold_append_pair, !flat_map_app;
    (destruct (String.eqb (AnalysisMode analysis) SourceOnlyAnalysisMode);
     [| destruct (String.eqb (AnalysisMode analysis) FullAnalysisMode)]);
    rewrite !append_Some; cbn [flat_map rendered app];
    rewrite <- ?app_assoc; reflexivity.
Qed.

Lemma adjacent_rendered (flag value : string) (args : list (string * option string)) :
  (flag, Some value) ∈ args → adjacent flag value (flat_map rendered args).
Proof.
  intros (before & after & ->)%list_elem_of_split.
  exists (flat_map rendered before), (flat_map rendered after).
  by rewrite flat_map_app.
Qed.

(** A pair whose first member is no flag and whose second member is
    no flag either does not occur in a rendering. *)
Lemma not_adjacent_rendered (x y : string) (args : list (string * option string)) :
  Forall (λ arg, arg.1 ≠ x ∧ arg.1 ≠ y) args →
  ¬ adjacent x y (flat_map rendered args).
Proof.
  intros Hargs (before & after & Heq). revert before Heq.
  induction Hargs as [|[flag value] args [Hx Hy] Hargs IH]; intros before Heq; simpl in *.
  - by destruct before.
  - destruct before as [|b before]; destruct value as [v|]; simpl in Heq;
      injection Heq as Hflag Heq; try done.
    + destruct before as [|b' before]; simpl in Heq.
      * injection Heq as _ Heq.
        destruct Hargs as [|[flag' value'] args' [_ Hy'] _]; [done|].
        destruct value'; simpl in Heq; injection Heq as Hflag' _; done.
      * injection Heq as _ Heq. by apply (IH before).
    + by apply (IH before).
Qed.

Lemma contract_flags (analysis : AnalysisConfig) (inputPath outputDir : string) :
  Forall (λ arg : string * option string, arg.1 ≠ "--maven-settings" ∧ arg.1 ≠ "")
         (contract analysis inputPath outputDir "").
Proof.
  unfold contract, optional, repeated.
  repeat first
    [ apply Forall_app; split
    | apply Forall_cons; split; [by split|]
    | apply Forall_nil_2
    | apply Forall_map, Forall_true; intros ?; by split
    | match goal with |- context [if ?b then _ else _] => destruct b end ].
Qed.

(** A decimal numeral is no flag. *)
Lemma Itoa_no_flag (n : Z) : Itoa n ≠ "--maven-settings".
Proof.
  unfold Itoa. by destruct (Z.to_int n) as [[]|[]].
Qed.

Lemma elem_of_rendered (x : string) (args : list (string * option string)) :
  x ∈ flat_map rendered args → ∃ arg, arg ∈ args ∧ (arg.1 = x ∨ arg.2 = Some x).
Proof.
  rewrite list_elem_of_In, in_flat_map. intros ([flag value] & Harg & Hx).
  exists (flag, value). rewrite list_elem_of_In. split; [done|].
  destruct value as [v|]; simpl in *; intuition congruence.
Qed.

Lemma elem_of_optional (arg : string * option string) (flag value : string) :
  arg ∈ optional flag value → arg = (flag, Some value) ∧ value ≠ "".
Proof.
  unfold optional. destruct (String.eqb_spec value ""); [by intros ?%elem_of_nil|].
  by intros ->%list_elem_of_singleton.
Qed.

Lemma elem_of_repeated (arg : string * option string) (flag : string)
    (values : slice string) :
  arg ∈ repeated flag values → ∃ v, v ∈ elems values ∧ arg = (flag, Some v).
Proof.
  unfold repeated. intros (v & -> & Hv)%list_elem_of_fmap. by exists v.
Qed.

(** C9: the argument list depends on the analysis, the two paths and
    the settings path only, and it is the rendering of the argument
    contract for them; under source-only analysis it contains
    [--mode source-only]; it contains [--maven-settings] followed by
    the settings value exactly when that value is not empty; and for
    an empty settings value the builder emits no [--maven-settings]:
    the word occurs in the list only where one of the supplied values
    is that very word. *)
Theorem buildArgs_deterministic_mode_settings (k k' : KantraTarget)
    (analysis : AnalysisConfig) (inputPath outputDir mavenSettings : string) :
  buildArgs k analysis inputPath outputDir mavenSettings
  = buildArgs k' analysis inputPath outputDir mavenSettings
  ∧ buildArgs k analysis inputPath outputDir mavenSettings
    = Some (flat_map rendered (contract analysis inputPath outputDir mavenSettings))
  ∧ (AnalysisMode analysis = SourceOnlyAnalysisMode →
     adjacent "--mode" "source-only"
       (elems (buildArgs k analysis inputPath outputDir mavenSettings)))
  ∧ (adjacent "--maven-settings" mavenSettings
       (elems (buildArgs k analysis inputPath outputDir mavenSettings))
     ↔ mavenSettings ≠ "")
  ∧ (mavenSettings = "" →
     "--maven-settings" ∈ elems (buildArgs k analysis inputPath outputDir mavenSettings) →
     "--maven-settings" ∈ supplied analysis inputPath outputDir).
Proof.
  split_and!; [reflexivity | apply buildArgs_contract | | |].
  - intros Hmode. rewrite buildArgs_contract. unfold contract.
    rewrite Hmode, String.eqb_refl. cbn [elems].
    apply adjacent_rendered. rewrite !elem_of_app. do 7 right. left. constructor.
  - rewrite buildArgs_contract. cbn [elems]. split.
    + intros Hadj ->. by apply (not_adjacent_rendered _ _ _ (contract_flags _ _ _)) in Hadj.
    + intros Hne. unfold contract, optional at 3.
      apply String.eqb_neq in Hne as ->.
      apply adjacent_rendered. rewrite !elem_of_app. do 3 right. left. constructor.
  - intros ->. rewrite buildArgs_contract. cbn [elems].
    intros ([flag value] & Harg & Hflag)%elem_of_rendered.
    unfold contract in Harg. unfold supplied.
    rewrite !elem_of_app in Harg. rewrite !elem_of_app, !elem_of_cons.
    destruct Harg as
      [Harg|[Harg|[Harg|[Harg|[Harg|[Harg|[Harg|[Harg|Harg]]]]]]]].
    + repeat (apply elem_of_cons in Harg as [Harg|Harg];
              [injection Harg as -> ->; destruct Hflag as [|Hv]; [done|];
               try discriminate Hv; injection Hv as Hv|]).
      * by apply Itoa_no_flag in Hv.
      * left. by left.
      * left. right. by left.
      * by apply elem_of_nil in Harg.
    + apply elem_of_optional in Harg as [[= -> ->] _].
      destruct Hflag as [|[= <-]]; [done|]. left. do 2 right. by left.
    + apply elem_of_optional in Harg as [[= -> ->] _].
      destruct Hflag as [|[= <-]]; [done|]. left. do 3 right. by left.
    + by apply elem_of_optional in Harg as [_ ?].
    + apply elem_of_repeated in Harg as (v & Hv & [= -> ->]).
      destruct Hflag as [|[= <-]]; [done|]. right. by left.
    + apply elem_of_repeated in Harg as (v & Hv & [= -> ->]).
      destruct Hflag as [|[= <-]]; [done|]. right. right. by left.
    + apply elem_of_repeated in Harg as (v & Hv & [= -> ->]).
      destruct Hflag as [|[= <-]]; [done|]. right. right. by right.
    + destruct (String.eqb _ _); [| destruct (String.eqb _ _)];
        [apply list_elem_of_singleton in Harg | apply list_elem_of_singleton in Harg
        | by apply elem_of_nil in Harg];
        injection Harg as -> ->; by destruct Hflag.
    + repeat (apply elem_of_cons in Harg as [Harg|Harg];
              [injection Harg as -> ->; by destruct Hflag|]).
      by apply elem_of_nil in Harg.
Qed.

End ArgumentBuilder.

Lemma buildArgs_deterministic_mode_settings_witness :
  props.adjacent "--mode" "source-only"
    (elems (targets.buildArgs sample.target sample.analysis
              "/path/to/app" "/path/to/output" ""))
  ∧ "--maven-settings" ∉
    elems (targets.buildArgs sample.target sample.analysis
             "/path/to/app" "/path/to/output" "").
Proof.
  destruct (buildArgs_deterministic_mode_settings
              sample.target sample.target sample.analysis
              "/path/to/app" "/path/to/output" "")
    as (_ & _ & Hmode & _ & Hsettings).
  split; [by apply Hmode|].
  intros Hin%Hsettings; [|done].
  revert Hin. unfold props.supplied. cbn [app elems sample.analysis targets.Target
    targets.Source targets.Rules targets.LabelSelector targets.IncidentSelector].
  intros Hin. repeat (apply elem_of_cons in Hin as [Hin|Hin]; [done|]).
  by apply elem_of_nil in Hin.
Defined.

(** ** The validation engine *)

Section Engine.

Import validator props.

Context (X : External).

Lemma forEach_app {A S} (body : S → A → result S) (l1 l2 : list A) (s : S) :
  forEach body (l1 ++ l2) s = forEach body l1 s ≫= forEach body l2.
Proof.
  revert s. induction l1 as [|x l1 IH]; intros s; [reflexivity|].
  simpl. destruct (body s x) as [s'|]; [apply IH | reflexivity].
Qed.

Lemma forEach_ext {A S} (body body' : S → A → result S) (l : list A) (s : S) :
  (∀ s x, x ∈ l → body s x = body' s x) → forEach body l s = forEach body' l s.
Proof.
  revert s. induction l as [|x l IH]; intros s Hext; [done|].
  simpl. rewrite Hext by constructor.
  destruct (body' s x) as [s'|]; simpl; [|done].
  apply IH. intros ? ? ?. apply Hext. by constructor.
Qed.

(** A loop whose body panics on the elements with [P], whatever the
    state, and otherwise leaves the state as it is. *)
Lemma forEach_guard {A S} (P : A → bool) (body : S → A → result S) (l : list A) (s : S) :
  (∀ s x, body s x = if P x then Panic else Ok s) →
  forEach body l s = if existsb P l then Panic else Ok s.
Proof.
  intros Hbody. induction l as [|x l IH]; [done|].
  simpl. rewrite Hbody. destruct (P x); simpl; [done | apply IH].
Qed.

(** With the nil comparer, the comparison of a matched pair either
    panics or adds nothing. *)
Lemma compareRuleSets_nil (ers rs : konveyor.RuleSet) (errors : slice ValidationError) :
  compareRuleSets X None ers rs errors
  = if needsComparer ers rs then Panic else Ok errors.
Proof.
  unfold compareRuleSets, compareFindings, needsComparer.
  repeat match goal with
         | |- context [negb (mapsEqual ?eq ?m1 ?m2)] =>
             destruct (mapsEqual eq m1 m2); simpl
         | |- context [negb (deepEqualSlice ?eq ?s1 ?s2)] =>
             destruct (deepEqualSlice eq s1 s2); simpl
         | |- context [negb (deepEqualMap ?eq ?m1 ?m2)] =>
             destruct (deepEqualMap eq m1 m2); simpl
         | |- context [forEach _ (elems ?s) _] => destruct (elems s); simpl; try done
         | |- context [forEach _ (range ?m) _] =>
             destruct (range m) as [|[? ?] ?]; simpl; try done
         end; done.
Qed.

Lemma getComparer_unknown (targetType testDir : string) :
  targetType ∉ knownTargets → getComparer targetType testDir = None.
Proof.
  intros Hunknown. unfold getComparer.
  repeat match goal with
         | |- context [String.eqb targetType ?s] =>
             destruct (String.eqb_spec targetType s) as [->|_];
             [exfalso; apply Hunknown; unfold knownTargets; set_solver|]
         end.
  done.
Qed.

(** With the nil comparer, [ValidateFiles] panics exactly when some
    matched pair needs the comparer, and otherwise reports one error
    for each expected ruleset. *)
Lemma ValidateFiles_nil (testDir targetType : string)
    (actual expected : slice konveyor.RuleSet) :
  getComparer targetType testDir = None →
  ValidateFiles X testDir targetType actual expected
  = if existsb (λ ers, existsb (λ rs, String.eqb (konveyor.Name rs) (konveyor.Name ers)
                                       && needsComparer ers rs) (elems actual))
               (elems expected)
    then Panic
    else Ok {| Passed := (length (elems expected) =? 0)%nat;
               Errors := Some (map (λ ers, rulesetError (konveyor.Name ers))
                                   (elems expected)) |}.
Proof.
  intros Hnil. unfold ValidateFiles. rewrite Hnil. cbv zeta.
  assert (∀ errors : list ValidationError,
    forEach
      (λ errors ers,
         errors ←
           forEach
             (λ errors rs,
                if negb (String.eqb (konveyor.Name rs) (konveyor.Name ers))
                then Ok errors
                else compareRuleSets X None ers rs errors)
             (elems actual) errors;
         Ok (append errors [ {| Path := "ruleset/" +:+ konveyor.Name ers;
                                Message := "";
                                Expected := nil;
                                Actual := nil |} ]))
      (elems expected) (Some errors)
    = if existsb (λ ers, existsb (λ rs, String.eqb (konveyor.Name rs) (konveyor.Name ers)
                                         && needsComparer ers rs) (elems actual))
                 (elems expected)
      then Panic
      else Ok (Some (errors ++ map (λ ers, rulesetError (konveyor.Name ers))
                                   (elems expected)))) as Hloop.
  { induction (elems expected) as [|ers l IH]; intros errors; simpl.
    - by rewrite app_nil_r.
    - rewrite (forEach_guard
                 (λ rs, String.eqb (konveyor.Name rs) (konveyor.Name ers)
                        && needsComparer ers rs)).
      2:{ intros s rs. rewrite compareRuleSets_nil.
          by destruct (String.eqb (konveyor.Name rs) (konveyor.Name ers)). }
      destruct (existsb _ (elems actual)); simpl; [done|].
      rewrite IH. by rewrite <- app_assoc. }
  rewrite Hloop. destruct (existsb _ (elems expected)); simpl; [done|].
  unfold len. simpl. by rewrite length_map.
Qed.

Lemma forEach_last_step {A S} (Q : S → Prop) (body : S → A → result S)
    (l : list A) (s s' : S) :
  l ≠ [] → (∀ s x s', body s x = Ok s' → Q s') →
  forEach body l s = Ok s' → Q s'.
Proof.
  intros Hl Hbody. destruct (exists_last Hl) as (l' & x & ->).
  rewrite forEach_app. destruct (forEach body l' s) as [s1|]; [|done].
  simpl. destruct (body s1 x) as [s2|] eqn:Hx; [|done].
  intros [= <-]. by apply (Hbody s1 x).
Qed.

(** Whatever the comparer, a result for a non-empty expected list
    carries an error, and so does not pass. *)
Lemma ValidateFiles_expected_fails (testDir targetType : string)
    (actual expected : slice konveyor.RuleSet) (r : ValidationResult) :
  elems expected ≠ [] →
  ValidateFiles X testDir targetType actual expected = Ok r → Passed r = false.
Proof.
  intros Hexpected. unfold ValidateFiles. cbv zeta.
  match goal with
  | |- context [forEach ?body (elems expected) ?s] =>
      destruct (forEach body (elems expected) s) as [errors|] eqn:Hloop; [|done]
  end.
  intros [= <-]. simpl.
  apply (forEach_last_step (λ errors, (len errors =? 0)%nat = false)) in Hloop; [done..|].
  intros s ers s'.
  match goal with
  | |- context [forEach ?body (elems actual) s] =>
      destruct (forEach body (elems actual) s) as [s1|]; [|done]
  end.
  simpl. intros [= <-]. unfold len. simpl. rewrite length_app. simpl.
  apply Nat.eqb_neq. lia.
Qed.

(** Whatever the comparer and the actual rulesets, a result passes
    exactly when nothing was expected. *)
Lemma ValidateFiles_verdict (testDir targetType : string)
    (actual expected : slice konveyor.RuleSet) (r : ValidationResult) :
  ValidateFiles X testDir targetType actual expected = Ok r →
  Passed r = (length (elems expected) =? 0)%nat.
Proof.
  destruct (elems expected) as [|ers l] eqn:Hexpected.
  - unfold ValidateFiles. rewrite Hexpected. simpl. by intros [= <-].
  - intros Hr. apply ValidateFiles_expected_fails in Hr; [done|]. by rewrite Hexpected.
Qed.

(** C1: validating a list of one ruleset against itself does not
    pass.  The ruleset agrees with itself in every field, and the
    only error is the one appended for every expected ruleset. *)
Theorem Validate_same_list_fails :
  Validate X (Some [bare "r"]) (Some [bare "r"])
  = Ok {| Passed := false;
          Errors := Some [ {| Path := "ruleset/r"; Message := "";
                              Expected := nil; Actual := nil |} ] |}.
Proof. unfold Validate. by rewrite ValidateFiles_nil. Qed.

(** C7: against an empty actual list, an expected list of one
    ruleset named [r] fails, with one error, whose path is
    [ruleset/r]. *)
Theorem Validate_missing_ruleset (actual : slice konveyor.RuleSet) (rs : konveyor.RuleSet) :
  elems actual = [] → konveyor.Name rs = "r" →
  Validate X actual (Some [rs])
  = Ok {| Passed := false;
          Errors := Some [ {| Path := "ruleset/r"; Message := "";
                              Expected := nil; Actual := nil |} ] |}.
Proof.
  intros Hactual Hname. unfold Validate.
  rewrite ValidateFiles_nil by done. rewrite Hactual. simpl.
  unfold rulesetError. by rewrite Hname.
Qed.

(** C2, as the code has it: a target type outside the five known
    names yields the nil comparer, and [ValidateFiles] then panics
    exactly when, for some expected ruleset and some actual ruleset
    of the same name, a compared field fails its equality check while
    its expected side is not empty. *)
Theorem ValidateFiles_unknown_target (testDir targetType : string)
    (actual expected : slice konveyor.RuleSet) :
  targetType ∉ knownTargets →
  getComparer targetType testDir = None ∧
  (ValidateFiles X testDir targetType actual expected = Panic
   ↔ ∃ ers rs, ers ∈ elems expected ∧ rs ∈ elems actual ∧
               konveyor.Name rs = konveyor.Name ers ∧ needsComparer ers rs = true).
Proof.
  intros Hnil%(getComparer_unknown _ testDir). split; [done|].
  rewrite ValidateFiles_nil by done.
  destruct (existsb _ (elems expected)) eqn:Hex.
  - split; [intros _ | done].
    apply existsb_exists in Hex as (ers & Hers & Hex).
    apply existsb_exists in Hex as (rs & Hrs & Hpair).
    apply andb_true_iff in Hpair as [Hname%String.eqb_eq Hneeds].
    exists ers, rs. by rewrite <- !list_elem_of_In in *.
  - split; [done|]. intros (ers & rs & Hers & Hrs & Hname & Hneeds).
    rewrite <- not_true_iff_false in Hex. destruct Hex.
    apply existsb_exists. exists ers. split; [by apply list_elem_of_In|].
    apply existsb_exists. exists rs. split; [by apply list_elem_of_In|].
    by rewrite Hname, String.eqb_refl.
Qed.

End Engine.

Lemma Validate_missing_ruleset_witness :
  validator.Validate reference.external (Some []) (Some [props.bare "r"])
  = Ok {| validator.Passed := false;
          validator.Errors :=
            Some [ {| validator.Path := "ruleset/r"; validator.Message := "";
                      validator.Expected := validator.nil;
                      validator.Actual := validator.nil |} ] |}.
Proof. apply Validate_missing_ruleset; reflexivity. Defined.

(** C2, as the specification states it, fails: the actual ruleset has
    a tag and the expected one has none, so the pair differs in its
    tags, and [ValidateFiles] with the empty target type returns. *)
Lemma ValidateFiles_nil_comparer_returns_on_difference :
  let ers := props.bare "r" in
  let rs := sample.tagged "r" (Some ["t"]) in
  deepEqualSlice String.eqb (konveyor.Tags rs) (konveyor.Tags ers) = false ∧
  validator.ValidateFiles reference.external "" "" (Some [rs]) (Some [ers])
  = Ok {| validator.Passed := false;
          validator.Errors := Some [props.rulesetError "r"] |}.
Proof. split; reflexivity. Qed.

Lemma ValidateFiles_unknown_target_witness :
  validator.getComparer "" "/test" = None ∧
  (validator.ValidateFiles reference.external "/test" "" (Some [props.bare "r"])
     (Some [sample.tagged "r" (Some ["t"])]) = Panic
   ↔ ∃ ers rs,
       ers ∈ [sample.tagged "r" (Some ["t"])] ∧
       rs ∈ [props.bare "r"] ∧
       konveyor.Name rs = konveyor.Name ers ∧ props.needsComparer ers rs = true).
Proof.
  apply (ValidateFiles_unknown_target reference.external "/test" ""
           (Some [props.bare "r"])).
  unfold props.knownTargets. intros H. repeat (apply elem_of_cons in H as [H|H]; [done|]).
  by apply elem_of_nil in H.
Defined.

(** ** The comparers *)

Section Comparers.

Import validator props.

Context (X : External).

Lemma fold_append_unless {A B} (step : slice A → B → slice A) (found : B → bool)
    (f : B → A) (l : list B) (s : list A) :
  (∀ s x, step s x = if found x then s else append s [f x]) →
  fold_left step l (Some s)
  = Some (s ++ flat_map (λ x, if found x then [] else [f x]) l).
Proof.
  intros Hstep. revert s. induction l as [|x l IH]; intros s; simpl.
  - by rewrite app_nil_r.
  - rewrite Hstep. destruct (found x); simpl; rewrite IH; [done | by rewrite <- app_assoc].
Qed.

(** The errors of the field checks, in the order of the checks. *)
Lemma compareFields_errors (expected actual : konveyor.Violation) :
  compareFields X expected actual
  = Some
      ((if ptrEq (konveyor.Category expected) (konveyor.Category actual)
        then [] else [categoryError X expected])
       ++ (if ptrEq (konveyor.Effort expected) (konveyor.Effort actual)
           then [] else [effortError X expected])
       ++ flat_map (λ l, if linkFound l (konveyor.Links actual)
                         then [] else [linkError X expected l])
                   (elems (konveyor.Links expected))
       ++ flat_map (λ l, if findExpectedString l (konveyor.Labels actual)
                         then [] else [labelError expected l])
                   (elems (konveyor.Labels expected))).
Proof.
  unfold compareFields.
  destruct (ptrEq (konveyor.Category expected) (konveyor.Category actual)),
           (ptrEq (konveyor.Effort expected) (konveyor.Effort actual));
    cbn [negb append elems app].
  all: rewrite (fold_append_unless _ (λ l, linkFound l (konveyor.Links actual))
                  (linkError X expected))
    by (intros ? l; by destruct (linkFound l _)).
  all: rewrite (fold_append_unless _ (λ l, findExpectedString l (konveyor.Labels actual))
                  (labelError expected)) by done.
  all: by rewrite <- ?app_assoc.
Qed.

(** *** The search through the actual incidents *)

(** No turn leaves the loop: the search panics if a turn panics, and
    otherwise finds what some turn matches. *)
Lemma search_without_leave (body : konveyor.Incident → result turn)
    (actual : list konveyor.Incident) (found : bool) :
  Forall (λ ai, body ai ≠ Ok leave) actual →
  searchIncidents body actual found
  = if existsb (λ ai, match body ai with Panic => true | _ => false end) actual
    then Panic
    else Ok (found || existsb (λ ai, match body ai with Ok match_ => true | _ => false end)
                              actual).
Proof.
  intros Hleave. revert found.
  induction Hleave as [|ai actual Hai _ IH]; intros found; simpl.
  - by rewrite orb_false_r.
  - destruct (body ai) as [[| |]|]; simpl; try done.
    rewrite IH. destruct (existsb _ actual); [done|]. by rewrite orb_true_r.
Qed.

(** No turn matches or panics: nothing is found. *)
Lemma search_without_match (body : konveyor.Incident → result turn)
    (actual : list konveyor.Incident) (found : bool) :
  Forall (λ ai, body ai = Ok skip ∨ body ai = Ok leave) actual →
  searchIncidents body actual found = Ok found.
Proof.
  intros Hturns. induction Hturns as [|ai actual [Hai|Hai] _ IH]; simpl;
    rewrite ?Hai; done.
Qed.

Lemma compareRest_not_leave (i ai : konveyor.Incident) : compareRest i ai ≠ leave.
Proof.
  unfold compareRest.
  repeat match goal with |- context [if ?b then _ else _] => destruct b end; done.
Qed.

(** Whether the path test leaves the loop or panics on the expected
    file is decided by the expected incident alone. *)
Lemma comparePaths_turns (testDir : string) (i : konveyor.Incident) :
  (∀ ai, comparePaths X testDir i ai ≠ Ok leave) ∨
  (∀ ai, comparePaths X testDir i ai = Ok leave).
Proof.
  unfold comparePaths.
  destruct (Filename X (konveyor.URI i)) as [file|]; simpl; [|by left].
  destruct (filepathRel X _ file) as [pathToTest|]; [left | by right].
  intros ai. destruct (Filename X (konveyor.URI ai)) as [afile|]; simpl; [|done].
  destruct (Contains afile pathToTest); simpl; [|done].
  intros [= H]. by apply compareRest_not_leave in H.
Qed.

Lemma kantra_turns (k : kantra) (i : konveyor.Incident) :
  (∀ ai, kantra_turn X k i ai ≠ Ok leave) ∨
  (∀ ai, kantra_turn X k i ai = Ok skip ∨ kantra_turn X k i ai = Ok leave).
Proof.
  unfold kantra_turn.
  destruct (String.eqb_spec (konveyor.URI i) "") as [Hi|Hi].
  - left. intros ai. destruct (negb _); [done|]. simpl.
    destruct (negb _); [done|]. intros [= H]. by apply compareRest_not_leave in H.
  - destruct (comparePaths_turns (testDir k) i) as [Hpaths|Hpaths].
    + left. intros ai. destruct (negb _); [done|]. simpl.
      destruct (String.eqb (konveyor.URI ai) ""); [|apply Hpaths].
      destruct (negb _); [done|]. intros [= H]. by apply compareRest_not_leave in H.
    + right. intros ai. destruct (negb _); [by left|]. simpl.
      destruct (String.eqb_spec (konveyor.URI ai) "") as [Hai|Hai]; [|right; apply Hpaths].
      destruct (String.eqb_spec (konveyor.URI i) (konveyor.URI ai)); [congruence|].
      by left.
Qed.

Lemma tackle2Hub_turns (t : tackle2Hub) (i : konveyor.Incident) :
  (∀ ai, tackle2Hub_turn X t i ai ≠ Ok leave) ∨
  (∀ ai, tackle2Hub_turn X t i ai = Ok skip ∨ tackle2Hub_turn X t i ai = Ok leave).
Proof.
  unfold tackle2Hub_turn.
  destruct (comparePaths_turns (testDir (embedded t)) i) as [H|H]; [by left | right].
  intros ai. right. apply H.
Qed.

(** The search does not depend on the order of the actual incidents,
    for a body of either kind. *)
Lemma search_permutation (body : konveyor.Incident → result turn)
    (actual actual' : list konveyor.Incident) (found : bool) :
  (∀ ai, body ai ≠ Ok leave) ∨ (∀ ai, body ai = Ok skip ∨ body ai = Ok leave) →
  Permutation actual actual' →
  searchIncidents body actual found = searchIncidents body actual' found.
Proof.
  intros [Hbody|Hbody] Hperm.
  - rewrite !search_without_leave by (apply Forall_forall; intros; apply Hbody).
    assert (∀ f : konveyor.Incident → bool, existsb f actual = existsb f actual') as Hex.
    { intros f. apply eq_true_iff_eq. rewrite !existsb_exists.
      split; intros (ai & Hin & Hf); exists ai; split; try done.
      - by rewrite <- Hperm.
      - by rewrite Hperm. }
    by rewrite !Hex.
  - by rewrite !search_without_match by (apply Forall_forall; intros; apply Hbody).
Qed.

(** C8: the comparison of a violation does not depend on the order
    of the actual incidents: for either comparer, permuting them
    changes neither the errors nor the verdict. *)
Theorem compareViolation_incident_order (c : option comparer)
    (expected actual : konveyor.Violation) (incidents : slice konveyor.Incident) :
  Permutation (elems (konveyor.Incidents actual)) (elems incidents) →
  compareViolation X c expected (withIncidents actual incidents)
  = compareViolation X c expected actual.
Proof.
  intros Hperm. unfold compareViolation.
  destruct c as [[k|t]|]; [| |done]; cbn [orPanic mbind result_bind bind].
  - unfold kantra_compareViolation.
    change (compareFields X expected (withIncidents actual incidents))
      with (compareFields X expected actual).
    rewrite (forEach_ext _
               (λ missingIncidents i,
                  found ← searchIncidents (kantra_turn X k i)
                            (elems (konveyor.Incidents actual)) false;
                  Ok (if negb found then append missingIncidents [i]
                      else missingIncidents))).
    2:{ intros missing i _. cbn [withIncidents konveyor.Incidents].
        by rewrite (search_permutation _ _ _ _ (kantra_turns k i) Hperm). }
    match goal with
    | |- context [forEach ?body ?l None] =>
        destruct (forEach body l None) as [missing|]; [|done]
    end.
    simpl. unfold missingError, len. cbn [withIncidents konveyor.Incidents].
    by rewrite (Permutation_length Hperm).
  - unfold tackle2Hub_compareViolation.
    change (compareFields X expected (withIncidents actual incidents))
      with (compareFields X expected actual).
    rewrite (forEach_ext _
               (λ validationError i,
                  found ← searchIncidents (tackle2Hub_turn X t i)
                            (elems (konveyor.Incidents actual)) false;
                  Ok (if negb found
                      then append validationError [incidentError X expected i]
                      else validationError))); [done|].
    intros errors i _. cbn [withIncidents konveyor.Incidents].
    by rewrite (search_permutation _ _ _ _ (tackle2Hub_turns t i) Hperm).
Qed.

Lemma forEach_preserves {A S} (P : S → Prop) (body : S → A → result S)
    (l : list A) (s s' : S) :
  P s → (∀ s x s', P s → body s x = Ok s' → P s') →
  forEach body l s = Ok s' → P s'.
Proof.
  intros Hs Hbody. revert s Hs.
  induction l as [|x l IH]; intros s Hs; simpl; [by intros [= <-]|].
  destruct (body s x) as [s1|] eqn:Hx; [|done]. simpl.
  apply IH. by apply (Hbody s x).
Qed.

Lemma linkFound_without_title (l : konveyor.Link) (actual : slice konveyor.Link) :
  (∀ al, al ∈ elems actual → konveyor.Title al ≠ konveyor.Title l) →
  linkFound l actual = false.
Proof.
  intros Htitle. unfold linkFound. rewrite <- not_true_iff_false.
  intros (al & Hal%list_elem_of_In & Hfound)%existsb_exists.
  apply andb_true_iff in Hfound as [Heq%String.eqb_eq _].
  by apply (Htitle al).
Qed.

Lemma compareFields_link_error (expected actual : konveyor.Violation) (l : konveyor.Link) :
  l ∈ elems (konveyor.Links expected) → linkFound l (konveyor.Links actual) = false →
  linkError X expected l ∈ elems (compareFields X expected actual).
Proof.
  intros Hl Hfound. rewrite compareFields_errors. cbn [elems].
  rewrite !elem_of_app. right. right. left.
  apply list_elem_of_In, in_flat_map. exists l.
  split; [by apply list_elem_of_In|]. rewrite Hfound. by left.
Qed.

(** C3, as the code has it: an expected link whose title no actual
    link carries is reported, by either comparer. *)
Theorem compareViolation_link_title_needed (c : comparer)
    (expected actual : konveyor.Violation) (l : konveyor.Link)
    (errors : slice ValidationError) (ok : bool) :
  compareViolation X (Some c) expected actual = Ok (errors, ok) →
  l ∈ elems (konveyor.Links expected) →
  (∀ al, al ∈ elems (konveyor.Links actual) → konveyor.Title al ≠ konveyor.Title l) →
  linkError X expected l ∈ elems errors.
Proof.
  intros Hcompare Hl Htitle.
  pose proof (compareFields_link_error expected actual l Hl
                (linkFound_without_title _ _ Htitle)) as Hfields.
  unfold compareViolation in Hcompare.
  destruct c as [k|t]; cbn [orPanic mbind result_bind bind] in Hcompare.
  - unfold kantra_compareViolation in Hcompare.
    match type of Hcompare with
    | context [forEach ?body ?l None] =>
        destruct (forEach body l None) as [missing|]; [|done]
    end.
    cbn [mbind result_bind bind] in Hcompare. injection Hcompare as <- _.
    destruct (0 <? len missing)%nat; [|done].
    rewrite ?elems_append. cbn [elems]. rewrite elem_of_app. by left.
  - unfold tackle2Hub_compareViolation in Hcompare.
    match type of Hcompare with
    | context [forEach ?body ?l ?s] =>
        destruct (forEach body l s) as [errors'|] eqn:Hloop; [|done]
    end.
    cbn [mbind result_bind bind] in Hcompare. injection Hcompare as <- _.
    apply (forEach_preserves (λ s, linkError X expected l ∈ elems s)) in Hloop; [done..|].
    intros s i s' Hs.
    match goal with
    | |- context [searchIncidents ?body ?l ?b] =>
        destruct (searchIncidents body l b) as [found|]; [|done]
    end.
    cbn [mbind result_bind bind]. intros [= <-]. destruct found; [done|]. cbn [negb].
    rewrite ?elems_append. cbn [elems]. rewrite elem_of_app. by left.
Qed.

End Comparers.

(** ** Code snippets under the two comparers *)

Section CodeSnippets.

Import validator props.

Context (X : External).

Lemma ptrEq_refl {A} (p : pointer A) : ptrEq p p = true.
Proof. destruct p as [r|]; simpl; [apply N.eqb_refl | done]. Qed.

Lemma deepEqualVariables_refl (m : gomap konveyor.value) :
  konveyor.deepEqualVariables m m = true.
Proof.
  destruct m as [g|]; simpl; [|done].
  rewrite Nat.eqb_refl. simpl. apply forallb_forall.
  intros [k v] Hkv%list_elem_of_In%elem_of_map_to_list.
  rewrite Hkv. by apply bool_decide_eq_true.
Qed.

(** The closing comparisons do not look at the code snippet. *)
Lemma compareRest_same (i ai : konveyor.Incident) :
  konveyor.Message ai = konveyor.Message i →
  konveyor.LineNumber ai = konveyor.LineNumber i →
  konveyor.Variables ai = konveyor.Variables i →
  compareRest i ai = match_.
Proof.
  intros Hm Hl Hv. unfold compareRest.
  by rewrite Hm, Hl, Hv, String.eqb_refl, ptrEq_refl, deepEqualVariables_refl.
Qed.

Lemma compareRest_cases (i ai : konveyor.Incident) :
  compareRest i ai = skip ∨ compareRest i ai = match_.
Proof.
  unfold compareRest.
  repeat match goal with |- context [if ?b then _ else _] => destruct b end; auto.
Qed.

Lemma comparePaths_total (testDir : string) (i ai : konveyor.Incident) :
  underSource X testDir i → underSource X testDir ai →
  comparePaths X testDir i ai = Ok skip ∨ comparePaths X testDir i ai = Ok match_.
Proof.
  intros (file & pathToTest & Hfile & Hrel & _) (afile & _ & Hafile & _).
  unfold comparePaths. rewrite Hfile. simpl. rewrite Hrel, Hafile. simpl.
  destruct (Contains afile pathToTest); simpl; [|by left].
  destruct (compareRest_cases i ai) as [-> | ->]; auto.
Qed.

Lemma comparePaths_same_file (testDir : string) (i ai : konveyor.Incident) :
  underSource X testDir i → konveyor.URI ai = konveyor.URI i →
  comparePaths X testDir i ai = Ok (compareRest i ai).
Proof.
  intros (file & pathToTest & Hfile & Hrel & Hsub) Huri.
  unfold comparePaths. rewrite Huri, Hfile. simpl. rewrite Hrel. simpl.
  by rewrite Hsub.
Qed.

Lemma kantra_turn_total (k : kantra) (i ai : konveyor.Incident) :
  underSource X (testDir k) i → underSource X (testDir k) ai →
  kantra_turn X k i ai = Ok skip ∨ kantra_turn X k i ai = Ok match_.
Proof.
  intros Hi Hai. unfold kantra_turn.
  destruct (negb _); [by left|].
  destruct (_ || _); [|by apply comparePaths_total].
  destruct (negb _); [by left|].
  destruct (compareRest_cases i ai) as [-> | ->]; auto.
Qed.

Lemma kantra_turn_self (k : kantra) (i : konveyor.Incident) :
  underSource X (testDir k) i → kantra_turn X k i i = Ok match_.
Proof.
  intros Hi. unfold kantra_turn. rewrite !String.eqb_refl. cbn [negb].
  rewrite orb_diag.
  destruct (String.eqb (konveyor.URI i) "").
  - by rewrite compareRest_same.
  - rewrite comparePaths_same_file by done. by rewrite compareRest_same.
Qed.

Lemma search_true (body : konveyor.Incident → result turn)
    (actual : list konveyor.Incident) :
  Forall (λ ai, body ai = Ok skip ∨ body ai = Ok match_) actual →
  searchIncidents body actual true = Ok true.
Proof.
  intros Hturns. induction Hturns as [|ai actual [Hai|Hai] _ IH]; simpl;
    rewrite ?Hai; done.
Qed.

Lemma search_finds (body : konveyor.Incident → result turn)
    (actual : list konveyor.Incident) (ai : konveyor.Incident) (found : bool) :
  Forall (λ ai, body ai = Ok skip ∨ body ai = Ok match_) actual →
  ai ∈ actual → body ai = Ok match_ →
  searchIncidents body actual found = Ok true.
Proof.
  intros Hturns Hin Hai. revert found.
  induction Hturns as [|aj actual Haj Hturns IH]; intros found.
  - by apply elem_of_nil in Hin.
  - apply elem_of_cons in Hin as [<-|Hin]; simpl.
    + rewrite Hai. simpl. by apply search_true.
    + destruct Haj as [-> | ->]; simpl; [by apply IH | by apply search_true].
Qed.

Lemma search_misses (body : konveyor.Incident → result turn)
    (actual : list konveyor.Incident) (found : bool) :
  Forall (λ ai, body ai = Ok skip) actual →
  searchIncidents body actual found = Ok found.
Proof.
  intros Hturns. apply search_without_match.
  eapply Forall_impl; [done|]. by left.
Qed.

Lemma forEach_unchanged {A S} (body : S → A → result S) (l : list A) (s : S) :
  (∀ s x, x ∈ l → body s x = Ok s) → forEach body l s = Ok s.
Proof.
  induction l as [|x l IH]; intros Hbody; [done|].
  simpl. rewrite Hbody by constructor. simpl.
  apply IH. intros ? ? ?. apply Hbody. by constructor.
Qed.

Lemma flat_map_all_found {A B} (found : A → bool) (f : A → B) (l : list A) :
  (∀ x, x ∈ l → found x = true) →
  flat_map (λ x, if found x then [] else [f x]) l = [].
Proof.
  induction l as [|x l IH]; intros Hfound; [done|].
  simpl. rewrite Hfound by constructor. simpl.
  apply IH. intros ? ?. apply Hfound. by constructor.
Qed.

Lemma findExpectedString_elem (l : string) (labels : slice string) :
  l ∈ elems labels → findExpectedString l labels = true.
Proof.
  intros Hl. unfold findExpectedString. apply existsb_exists.
  exists l. split; [by apply list_elem_of_In | apply String.eqb_refl].
Qed.

(** Against itself with other incidents, a violation yields errors
    for links only. *)
Lemma compareFields_same (expected : konveyor.Violation)
    (incidents : slice konveyor.Incident) :
  compareFields X expected (withIncidents expected incidents)
  = Some (flat_map (λ l, if linkFound l (konveyor.Links expected)
                         then [] else [linkError X expected l])
                   (elems (konveyor.Links expected))).
Proof.
  rewrite compareFields_errors. cbn [withIncidents konveyor.Category konveyor.Effort
                                     konveyor.Links konveyor.Labels].
  rewrite !ptrEq_refl. cbn [app].
  rewrite (flat_map_all_found (λ l, findExpectedString l (konveyor.Labels expected)))
    by (intros; by apply findExpectedString_elem).
  by rewrite app_nil_r.
Qed.

Lemma len_nonEmpty {A} (l : list A) : negb (len (Some l) =? 0)%nat = nonEmpty l.
Proof. by destruct l. Qed.

(** The field checks yield errors on the category, the effort, a
    link or a label of the expected violation, and no others. *)
Lemma compareFields_kinds (expected actual : konveyor.Violation) :
  Forall (λ err, err = categoryError X expected ∨ err = effortError X expected ∨
                 (∃ l, l ∈ elems (konveyor.Links expected) ∧
                       err = linkError X expected l) ∨
                 (∃ l, l ∈ elems (konveyor.Labels expected) ∧
                       err = labelError expected l))
         (elems (compareFields X expected actual)).
Proof.
  rewrite compareFields_errors. cbn [elems]. rewrite !Forall_app. split_and!.
  - destruct (ptrEq _ _); [constructor|]. apply Forall_singleton. by left.
  - destruct (ptrEq _ _); [constructor|]. apply Forall_singleton. right. by left.
  - apply Forall_forall. intros err (l & Hl & Herr)%list_elem_of_In%in_flat_map.
    destruct (linkFound l _); [done|]. destruct Herr as [<-|[]].
    do 2 right. left. exists l. split; [by apply list_elem_of_In | done].
  - apply Forall_forall. intros err (l & Hl & Herr)%list_elem_of_In%in_flat_map.
    destruct (findExpectedString l _); [done|]. destruct Herr as [<-|[]].
    do 3 right. exists l. split; [by apply list_elem_of_In | done].
Qed.

(** With the category and effort pointers, the links and the labels
    of the expected violation, the field checks yield errors on
    links only. *)
Lemma compareFields_shared (expected actual : konveyor.Violation) :
  ptrEq (konveyor.Category expected) (konveyor.Category actual) = true →
  ptrEq (konveyor.Effort expected) (konveyor.Effort actual) = true →
  konveyor.Links actual = konveyor.Links expected →
  konveyor.Labels actual = konveyor.Labels expected →
  Forall (λ err, ∃ l, l ∈ elems (konveyor.Links expected) ∧ err = linkError X expected l)
         (elems (compareFields X expected actual)).
Proof.
  intros Hcategory Heffort Hlinks Hlabels.
  rewrite compareFields_errors, Hcategory, Heffort, Hlabels. cbn [elems app].
  rewrite (flat_map_all_found (λ l, findExpectedString l (konveyor.Labels expected)))
    by (intros; by apply findExpectedString_elem).
  rewrite app_nil_r.
  apply Forall_forall. intros err (l & Hl & Herr)%list_elem_of_In%in_flat_map.
  exists l. split; [by apply list_elem_of_In|].
  destruct (linkFound l _); [done|]. by destruct Herr as [<-|[]].
Qed.

(** With the category and effort pointers and the labels of the
    expected violation, and every expected link found, the field
    checks yield no error. *)
Lemma compareFields_none (expected actual : konveyor.Violation) :
  ptrEq (konveyor.Category expected) (konveyor.Category actual) = true →
  ptrEq (konveyor.Effort expected) (konveyor.Effort actual) = true →
  Forall (λ l, linkFound l (konveyor.Links actual) = true)
         (elems (konveyor.Links expected)) →
  konveyor.Labels actual = konveyor.Labels expected →
  elems (compareFields X expected actual) = [].
Proof.
  intros Hcategory Heffort Hlinks Hlabels.
  rewrite compareFields_errors, Hcategory, Heffort, Hlabels. cbn [elems app].
  rewrite (flat_map_all_found (λ l, findExpectedString l (konveyor.Labels expected)))
    by (intros; by apply findExpectedString_elem).
  rewrite app_nil_r. apply flat_map_all_found. by apply Forall_forall.
Qed.

Lemma compareFields_Some (expected actual : konveyor.Violation) :
  compareFields X expected actual = Some (elems (compareFields X expected actual)).
Proof. by rewrite compareFields_errors. Qed.

(** C4, as the code has it.  The actual violation has the incidents
    of the expected one, the very same values, line-number pointers
    included, except for another code snippet in the incident [i];
    its category, its effort, its links and its labels are
    arbitrary.  Every incident lies under [testDir/source]; the two
    snippets of [i] differ beyond surrounding white space; and no
    other incident matches [i].  Then the tackle-hub comparer reports
    the errors of the checks of category, effort, links and labels,
    and nothing on the incidents; the kantra comparer reports those
    same errors and then [i], and only [i], as missing.  Those errors
    are on the category, the effort, a link or a label; on links
    alone when the actual violation has the category and effort
    pointers, the links and the labels of the expected one; and
    there is none when, with those pointers and labels, every
    expected link has an actual link whose title is both its title
    and its URL. *)
Theorem compareViolation_code_snippet (testDir : string)
    (expected actual : konveyor.Violation)
    (before after : list konveyor.Incident) (i : konveyor.Incident) (codeSnip : string) :
  elems (konveyor.Incidents expected) = before ++ i :: after →
  elems (konveyor.Incidents actual) = before ++ withCodeSnip i codeSnip :: after →
  Forall (underSource X testDir) (before ++ i :: after) →
  TrimSpace (konveyor.CodeSnip i) ≠ TrimSpace codeSnip →
  Forall (λ ai, kantra_turn X {| validator.testDir := testDir |} i ai ≠ Ok match_)
         (before ++ after) →
  let fieldErrors := elems (compareFields X expected actual) in
  compareViolation X (getComparer "tackle-hub" testDir) expected actual
  = Ok (Some fieldErrors, nonEmpty fieldErrors) ∧
  compareViolation X (getComparer "kantra" testDir) expected actual
  = Ok (Some (fieldErrors ++ [missingError expected actual (Some [i])]), true) ∧
  Forall (λ err, err = categoryError X expected ∨ err = effortError X expected ∨
                 (∃ l, l ∈ elems (konveyor.Links expected) ∧
                       err = linkError X expected l) ∨
                 (∃ l, l ∈ elems (konveyor.Labels expected) ∧
                       err = labelError expected l))
         fieldErrors ∧
  (ptrEq (konveyor.Category expected) (konveyor.Category actual) = true →
   ptrEq (konveyor.Effort expected) (konveyor.Effort actual) = true →
   konveyor.Links actual = konveyor.Links expected →
   konveyor.Labels actual = konveyor.Labels expected →
   Forall (λ err, ∃ l, l ∈ elems (konveyor.Links expected) ∧
                       err = linkError X expected l)
          fieldErrors) ∧
  (ptrEq (konveyor.Category expected) (konveyor.Category actual) = true →
   ptrEq (konveyor.Effort expected) (konveyor.Effort actual) = true →
   Forall (λ l, linkFound l (konveyor.Links actual) = true)
          (elems (konveyor.Links expected)) →
   konveyor.Labels actual = konveyor.Labels expected →
   fieldErrors = []).
Proof.
  intros Hexpected Hactual Hunder Hsnip Hother fieldErrors.
  set (k := {| validator.testDir := testDir |}).
  set (i' := withCodeSnip i codeSnip) in *.
  assert (Forall (underSource X testDir) (before ++ i' :: after)) as Hunder'.
  { apply Forall_app in Hunder as [Hb Hia]. apply Forall_cons in Hia as [Hi Ha].
    apply Forall_app. split; [done|]. by apply Forall_cons. }
  assert (Hi : underSource X testDir i).
  { apply Forall_app in Hunder as [_ Hia]. by apply Forall_cons in Hia as [Hi _]. }
  split_and!; [| | apply compareFields_kinds | apply compareFields_shared
               | apply compareFields_none].
  - change (getComparer "tackle-hub" testDir)
      with (Some (tackle2HubComparer {| embedded := k |})).
    unfold compareViolation. cbn [orPanic mbind result_bind bind].
    unfold tackle2Hub_compareViolation. rewrite compareFields_Some. fold fieldErrors.
    rewrite forEach_unchanged;
      [cbn [mbind result_bind bind]; by rewrite len_nonEmpty|].
    intros s j Hj. rewrite Hactual.
    rewrite Hexpected in Hj.
    assert (∃ aj, aj ∈ before ++ i' :: after ∧
                  tackle2Hub_turn X {| embedded := k |} j aj = Ok match_) as (aj & Haj & Hm).
    { unfold tackle2Hub_turn.
      apply elem_of_app in Hj as [Hj|[->|Hj]%elem_of_cons].
      - exists j. split; [apply elem_of_app; by left|].
        rewrite comparePaths_same_file, compareRest_same; try done.
        eapply Forall_forall in Hunder; [done|]. apply elem_of_app. by left.
      - exists i'. split; [apply elem_of_app; right; by constructor|].
        by rewrite comparePaths_same_file, compareRest_same.
      - exists j. split; [apply elem_of_app; right; by constructor|].
        rewrite comparePaths_same_file, compareRest_same; try done.
        eapply Forall_forall in Hunder; [done|].
        apply elem_of_app. right. by constructor. }
    rewrite (search_finds _ _ aj) ; [done | | done..].
    apply Forall_forall. intros a Ha. unfold tackle2Hub_turn.
    apply comparePaths_total.
    + by eapply Forall_forall in Hunder.
    + by eapply Forall_forall in Hunder'.
  - change (getComparer "kantra" testDir) with (Some (kantraComparer k)).
    unfold compareViolation. cbn [orPanic mbind result_bind bind].
    unfold kantra_compareViolation. rewrite compareFields_Some. fold fieldErrors.
    rewrite Hactual.
    assert (∀ j, j ∈ before ++ after → ∀ s,
              (found ← searchIncidents (kantra_turn X k j) (before ++ i' :: after) false;
               Ok (if negb found then append s [j] else s)) = Ok s) as Hfound.
    { intros j Hj s.
      rewrite (search_finds _ _ j); [done | | |].
      - apply Forall_forall. intros a Ha. apply kantra_turn_total.
        + eapply Forall_forall in Hunder; [done|].
          apply elem_of_app in Hj as [Hj|Hj]; apply elem_of_app;
            [by left | right; by constructor].
        + by eapply Forall_forall in Hunder'.
      - apply elem_of_app in Hj as [Hj|Hj]; apply elem_of_app;
          [by left | right; by constructor].
      - apply kantra_turn_self. eapply Forall_forall in Hunder; [done|].
        apply elem_of_app in Hj as [Hj|Hj]; apply elem_of_app;
          [by left | right; by constructor]. }
    rewrite Hexpected, forEach_app.
    rewrite forEach_unchanged
      by (intros s j Hj; apply Hfound, elem_of_app; by left).
    cbn [mbind result_bind bind forEach].
    rewrite search_misses.
    2:{ apply Forall_forall. intros a Ha.
        apply elem_of_app in Ha as [Ha|[->|Ha]%elem_of_cons].
        - destruct (kantra_turn_total k i a) as [H|H]; try done.
          + eapply Forall_forall in Hunder'; [done|]. apply elem_of_app. by left.
          + eapply Forall_forall in Hother; [done|]. apply elem_of_app. by left.
        - unfold kantra_turn. cbn [i' withCodeSnip konveyor.CodeSnip].
          by apply String.eqb_neq in Hsnip as ->.
        - destruct (kantra_turn_total k i a) as [H|H]; try done.
          + eapply Forall_forall in Hunder'; [done|].
            apply elem_of_app. right. by constructor.
          + eapply Forall_forall in Hother; [done|]. apply elem_of_app. by right. }
    cbn [mbind result_bind bind negb append elems app].
    rewrite forEach_unchanged
      by (intros s j Hj; apply Hfound, elem_of_app; by right).
    cbn [mbind result_bind bind].
    change (0 <? len (Some [i]))%nat with true. cbn iota.
    rewrite len_nonEmpty. by destruct fieldErrors.
Qed.

End CodeSnippets.

(** ** The properties on sample data *)

Lemma compareViolation_incident_order_witness :
  let a := sample.incident "file:///test/source/a.java" "x" in
  let b := sample.incident "file:///test/source/b.java" "y" in
  validator.compareViolation reference.external (validator.getComparer "kantra" "/test")
    (sample.violation None (Some [a; b]))
    (props.withIncidents (sample.violation None (Some [a; b])) (Some [b; a]))
  = validator.compareViolation reference.external (validator.getComparer "kantra" "/test")
      (sample.violation None (Some [a; b])) (sample.violation None (Some [a; b])).
Proof. intros a b. apply compareViolation_incident_order. apply perm_swap. Defined.

(** C3, as the specification states it, fails: the actual link has the
    title of the expected one and another URL, and both comparers
    report the expected link. *)
Lemma compareViolation_same_title_link_reported :
  let l := {| konveyor.URL := "https://example.com/a"; konveyor.Title := "guide" |} in
  let al := {| konveyor.URL := "https://example.com/b"; konveyor.Title := "guide" |} in
  let expected := sample.violation (Some [l]) None in
  let actual := sample.violation (Some [al]) None in
  konveyor.Title al = konveyor.Title l ∧
  validator.compareViolation reference.external (validator.getComparer "kantra" "/test")
    expected actual
  = Ok (Some [validator.linkError reference.external expected l], true) ∧
  validator.compareViolation reference.external (validator.getComparer "tackle-hub" "/test")
    expected actual
  = Ok (Some [validator.linkError reference.external expected l], true).
Proof. split_and!; reflexivity. Qed.

Lemma compareViolation_link_title_needed_witness :
  let l := {| konveyor.URL := "https://example.com/a"; konveyor.Title := "guide" |} in
  let al := {| konveyor.URL := "https://example.com/a"; konveyor.Title := "manual" |} in
  let expected := sample.violation (Some [l]) None in
  validator.linkError reference.external expected l
  ∈ elems (Some [validator.linkError reference.external expected l]).
Proof.
  intros l al expected.
  apply (compareViolation_link_title_needed reference.external
           (validator.tackle2HubComparer
              {| validator.embedded := {| validator.testDir := "/test" |} |})
           expected (sample.violation (Some [al]) None) l _ true).
  - reflexivity.
  - constructor.
  - intros al' Hal. apply list_elem_of_singleton in Hal as ->. discriminate.
Defined.

(** C4, as the specification states it, fails: the code snippets of
    the expected and the actual incident differ in leading white
    space only, and the kantra comparer reports no incident missing. *)
Lemma kantra_ignores_space_around_code_snippet :
  let i := sample.incident "file:///test/source/a.java" "x := 1" in
  let expected := sample.violation None (Some [i]) in
  let actual := props.withIncidents expected (Some [props.withCodeSnip i "  x := 1"]) in
  konveyor.CodeSnip i ≠ "  x := 1" ∧
  validator.compareViolation reference.external (validator.getComparer "kantra" "/test")
    expected actual
  = Ok (Some [], false).
Proof. split; [discriminate | reflexivity]. Qed.

Lemma compareViolation_code_snippet_witness :
  let a := sample.incident "file:///test/source/a.java" "x := 1" in
  let b := sample.incident "file:///test/source/b.java" "" in
  let expected := sample.violation None (Some [a; b]) in
  let actual := sample.violation None (Some [props.withCodeSnip a "x := 2"; b]) in
  validator.compareViolation reference.external
    (validator.getComparer "tackle-hub" "/test") expected actual
  = Ok (Some [], false) ∧
  validator.compareViolation reference.external
    (validator.getComparer "kantra" "/test") expected actual
  = Ok (Some [validator.missingError expected actual (Some [a])], true).
Proof.
  intros a b expected actual.
  destruct (compareViolation_code_snippet reference.external "/test" expected actual
              [] [b] a "x := 2") as (Hhub & Hkantra & _).
  - reflexivity.
  - reflexivity.
  - repeat constructor; eexists _, _; split_and!; reflexivity.
  - discriminate.
  - repeat constructor. discriminate.
  - split; [exact Hhub | exact Hkantra].
Defined.

(** ** The cases of the test files, on the model *)

(** [label_selector_test.go]: mixed included and excluded. *)
Example ParseLabelSelector_mixed :
  targets.ParseLabelSelector "konveyor.io/target=quarkus || !konveyor.io/source=java8"
  = {| targets.Included := Some ["konveyor.io/target=quarkus"];
       targets.Excluded := Some ["konveyor.io/source=java8"] |}.
Proof. reflexivity. Qed.

(** [label_selector_test.go]: white space around the exclusion. *)
Example ParseLabelSelector_space_around_exclusion :
  targets.ParseLabelSelector "  !  konveyor.io/target=windows  "
  = {| targets.Included := Some [];
       targets.Excluded := Some ["konveyor.io/target=windows"] |}.
Proof. reflexivity. Qed.

(** [kantra_test.go]: basic source-only analysis, without settings. *)
Example buildArgs_basic_source_only :
  targets.buildArgs sample.target sample.analysis "/path/to/app" "/path/to/output" ""
  = Some ["analyze"; "--context-lines"; "10"; "--input"; "/path/to/app";
          "--output"; "/path/to/output"; "--mode"; "source-only";
          "--run-local=false"; "--overwrite"].
Proof. reflexivity. Qed.

(** [validator_test.go], [TestValidate_ExactMatch]: the test expects
    the two equal rulesets to pass; the result carries the error of
    the expected ruleset and fails. *)
Example exact_match_fails :
  validator.ValidateFiles reference.external "/test" "kantra"
    (Some [sample.exactMatch 1]) (Some [sample.exactMatch 4])
  = Ok {| validator.Passed := false;
          validator.Errors := Some [props.rulesetError "test-ruleset"] |}.
Proof. reflexivity. Qed.

(** [validator_test.go], [TestValidateFiles_WithTargetType]: the test
    expects the tackle-hub comparison to pass; the file of the
    incident is not below [/test/source], so the incident is reported,
    next to the error of the expected ruleset. *)
Example with_target_type_fails :
  ∃ r, validator.ValidateFiles reference.external "/test" "tackle-hub"
         (Some [sample.withTargetType "code snippet"]) (Some [sample.withTargetType ""])
       = Ok r ∧
       validator.Passed r = false ∧
       map validator.Path (elems (validator.Errors r)) = [""; "ruleset/test-ruleset"].
Proof. eexists. split_and!; reflexivity. Qed.

(** * Further properties *)

(** ** Splitting and joining *)

Section Splitting.

Lemma length_dropBytes (n : nat) (s : string) :
  String.length (dropBytes n s) = (String.length s - n)%nat.
Proof.
  revert s. induction n as [|n IH]; intros s; simpl; [lia|].
  destruct s as [|c s]; simpl; [done | apply IH].
Qed.

Lemma prefix_app_dropBytes (p s : string) :
  String.prefix p s = true → s = p +:+ dropBytes (String.length p) s.
Proof.
  revert s. induction p as [|c p IH]; intros s Hp; [done|].
  destruct s as [|d s]; [done|]. simpl in Hp.
  destruct (ascii_dec c d) as [->|]; [|done].
  change (String d s = String d (p +:+ dropBytes (String.length p) s)).
  f_equal. by apply IH.
Qed.

(** What [cut] returns are the texts around one occurrence of the
    separator. *)
Lemma cut_Some (s sep before after : string) :
  cut s sep = Some (before, after) → s = before +:+ sep +:+ after.
Proof.
  revert before. induction s as [|c s IH]; intros before.
  - unfold cut. destruct (String.prefix sep "") eqn:Hp; [|done].
    intros [= <- <-]. by apply prefix_app_dropBytes.
  - change (cut (String c s) sep)
      with (if String.prefix sep (String c s)
            then Some ("", dropBytes (String.length sep) (String c s))
            else match cut s sep with
                 | Some (before, after) => Some (String c before, after)
                 | None => None
                 end).
    destruct (String.prefix sep (String c s)) eqn:Hp.
    + intros [= <- <-]. by apply prefix_app_dropBytes.
    + destruct (cut s sep) as [[b a]|]; [|done].
      intros [= <- <-]. change (String c s = String c (b +:+ sep +:+ a)).
      f_equal. by apply IH.
Qed.

Lemma length_app_string (s t : string) :
  String.length (s +:+ t) = (String.length s + String.length t)%nat.
Proof.
  induction s as [|c s IH]; [done|].
  change (String.length (String c (s +:+ t)) = S (String.length s + String.length t)).
  simpl. by rewrite IH.
Qed.

Lemma cut_shorter (s sep before after : string) :
  sep ≠ "" → cut s sep = Some (before, after) →
  (String.length after < String.length s)%nat.
Proof.
  intros Hsep ->%cut_Some. rewrite !length_app_string.
  destruct sep; [done|]. simpl. lia.
Qed.

(** More parts than a string has bytes are never used. *)
Lemma SplitN_enough (s sep : string) (n : nat) :
  sep ≠ "" → (String.length s < n)%nat → SplitN s sep n = Split s sep.
Proof.
  intros Hsep. unfold Split.
  assert (∀ n s, (String.length s < n)%nat → SplitN s sep n = SplitN s sep (S n)) as Hstep.
  { clear n s. induction n as [|[|n] IH]; intros s Hn; [lia| |].
    - destruct s; [|simpl in Hn; lia]. destruct sep; [done|]. reflexivity.
    - change (SplitN s sep (S (S n)))
        with (match cut s sep with
              | Some (before, after) => before :: SplitN after sep (S n)
              | None => [s]
              end).
      change (SplitN s sep (S (S (S n))))
        with (match cut s sep with
              | Some (before, after) => before :: SplitN after sep (S (S n))
              | None => [s]
              end).
      destruct (cut s sep) as [[b a]|] eqn:Hcut; [|done].
      f_equal. apply IH. apply (cut_shorter _ _ _ _ Hsep) in Hcut. lia. }
  intros Hn. induction Hn as [|n Hn IH]; [done|].
  rewrite <- Hstep; [done | lia].
Qed.

Lemma Split_cut (s sep : string) :
  sep ≠ "" →
  Split s sep = match cut s sep with
                | Some (before, after) => before :: Split after sep
                | None => [s]
                end.
Proof.
  intros Hsep. unfold Split at 1.
  destruct s as [|c s].
  - destruct sep; [done|]. reflexivity.
  - change (SplitN (String c s) sep (S (String.length (String c s))))
      with (match cut (String c s) sep with
            | Some (before, after) => before :: SplitN after sep (S (String.length s))
            | None => [String c s]
            end).
    destruct (cut (String c s) sep) as [[b a]|] eqn:Hcut; [|done].
    f_equal. apply SplitN_enough; [done|].
    apply (cut_shorter _ _ _ _ Hsep) in Hcut. simpl in Hcut. lia.
Qed.

End Splitting.

(** ** White space *)

Section WhiteSpace.

Lemma list_ascii_of_string_app (s t : string) :
  list_ascii_of_string (s +:+ t) = list_ascii_of_string s ++ list_ascii_of_string t.
Proof.
  induction s as [|c s IH]; [done|].
  change (c :: list_ascii_of_string (s +:+ t)
          = c :: (list_ascii_of_string s ++ list_ascii_of_string t)).
  by rewrite IH.
Qed.

Lemma string_of_list_ascii_app (l1 l2 : list ascii) :
  string_of_list_ascii (l1 ++ l2) = string_of_list_ascii l1 +:+ string_of_list_ascii l2.
Proof.
  induction l1 as [|c l1 IH]; [done|].
  change (String c (string_of_list_ascii (l1 ++ l2))
          = String c (string_of_list_ascii l1 +:+ string_of_list_ascii l2)).
  by rewrite IH.
Qed.

Lemma revString_app (s t : string) : revString (s +:+ t) = revString t +:+ revString s.
Proof.
  unfold revString. by rewrite list_ascii_of_string_app, rev_app_distr, string_of_list_ascii_app.
Qed.

Lemma revString_involutive (s : string) : revString (revString s) = s.
Proof.
  unfold revString.
  by rewrite list_ascii_of_string_of_list_ascii, rev_involutive, string_of_list_ascii_of_string.
Qed.

Lemma length_revString (s : string) : String.length (revString s) = String.length s.
Proof.
  unfold revString.
  assert (∀ l, String.length (string_of_list_ascii l) = length l) as Hlen.
  { induction l as [|c l IH]; simpl; [done | by rewrite IH]. }
  assert (∀ s, length (list_ascii_of_string s) = String.length s) as Hlen'.
  { clear s. induction s as [|c s IH]; simpl; [done | by rewrite IH]. }
  by rewrite Hlen, length_rev, Hlen'.
Qed.

Lemma prefix_app (p s t : string) :
  String.prefix p s = true → String.prefix p (s +:+ t) = true.
Proof.
  revert s. induction p as [|c p IH]; intros s Hp; [apply prefix_empty|].
  destruct s as [|d s]; [done|]. simpl in Hp.
  change (String.prefix (String c p) (String d (s +:+ t)) = true). simpl.
  destruct (ascii_dec c d); [by apply IH | done].
Qed.

Lemma stripRune_None (runes : list string) (s : string) :
  stripRune runes s = None ↔ Forall (λ r, String.prefix r s = false) runes.
Proof.
  induction runes as [|r runes IH]; simpl.
  - split; [constructor | done].
  - destruct (String.prefix r s) eqn:Hr.
    + split; [done|]. intros H. apply Forall_cons in H as [H _]. congruence.
    + rewrite IH. split; [by constructor | by intros [_ H]%Forall_cons].
Qed.

Lemma stripRune_Some (runes : list string) (s s' : string) :
  stripRune runes s = Some s' → ∃ r, r ∈ runes ∧ s = r +:+ s'.
Proof.
  induction runes as [|r runes IH]; simpl; [done|].
  destruct (String.prefix r s) eqn:Hr.
  - intros [= <-]. exists r. split; [constructor | by apply prefix_app_dropBytes].
  - intros (r' & Hr' & Hs)%IH. exists r'. split; [by constructor | done].
Qed.

(** With fuel for every byte, nothing is left to strip. *)
Lemma trimLeft_done (runes : list string) (fuel : nat) (s : string) :
  Forall (λ r, r ≠ "") runes → (String.length s ≤ fuel)%nat →
  stripRune runes (trimLeft fuel runes s) = None.
Proof.
  intros Hrunes. revert s. induction fuel as [|fuel IH]; intros s Hfuel; simpl.
  - destruct s; [|simpl in Hfuel; lia].
    apply stripRune_None. eapply Forall_impl; [done|]. by intros [|? ?].
  - destruct (stripRune runes s) as [s'|] eqn:Hs; [|done].
    apply IH. apply stripRune_Some in Hs as (r & Hr & ->).
    rewrite length_app_string in Hfuel.
    eapply Forall_forall in Hrunes; [|done]. destruct r; [done|]. simpl in Hfuel. lia.
Qed.

Lemma trimLeft_fixed (runes : list string) (fuel : nat) (s : string) :
  stripRune runes s = None → trimLeft fuel runes s = s.
Proof. intros Hs. destruct fuel; simpl; [done | by rewrite Hs]. Qed.

Lemma trimLeft_suffix (runes : list string) (fuel : nat) (s : string) :
  ∃ p, s = p +:+ trimLeft fuel runes s.
Proof.
  revert s. induction fuel as [|fuel IH]; intros s; simpl; [by exists ""|].
  destruct (stripRune runes s) as [s'|] eqn:Hs; [|by exists ""].
  apply stripRune_Some in Hs as (r & _ & ->).
  destruct (IH s') as [p Hp]. exists (r +:+ p).
  rewrite Hp at 1. clear. induction r as [|c r IHr]; [done|].
  change (String c (r +:+ p +:+ trimLeft fuel runes s')
          = String c ((r +:+ p) +:+ trimLeft fuel runes s')).
  by rewrite IHr.
Qed.

Lemma spaceRunes_not_empty : Forall (λ r, r ≠ "") spaceRunes.
Proof.
  apply Forall_forall. intros r Hr%list_elem_of_In.
  assert (forallb (λ r, negb (String.eqb r "")) spaceRunes = true) as Hall by reflexivity.
  rewrite forallb_forall in Hall. apply Hall in Hr.
  intros ->. done.
Qed.

Lemma reversed_spaceRunes_not_empty : Forall (λ r, r ≠ "") (map revString spaceRunes).
Proof.
  apply Forall_forall. intros r Hr%list_elem_of_In.
  assert (forallb (λ r, negb (String.eqb r "")) (map revString spaceRunes) = true)
    as Hall by reflexivity.
  rewrite forallb_forall in Hall. apply Hall in Hr.
  intros ->. done.
Qed.

(** Trimming a trimmed string changes nothing. *)
Lemma TrimSpace_idempotent (s : string) : TrimSpace (TrimSpace s) = TrimSpace s.
Proof.
  unfold TrimSpace at 2.
  set (s1 := trimLeft (String.length s) spaceRunes s).
  set (u := trimLeft (String.length s1) (map revString spaceRunes) (revString s1)).
  assert (stripRune spaceRunes s1 = None) as Hs1
    by (by apply trimLeft_done; [apply spaceRunes_not_empty|]).
  assert (stripRune (map revString spaceRunes) u = None) as Hu.
  { apply trimLeft_done; [apply reversed_spaceRunes_not_empty|].
    by rewrite length_revString. }
  assert (stripRune spaceRunes (revString u) = None) as Hleft.
  { destruct (trimLeft_suffix (map revString spaceRunes) (String.length s1) (revString s1))
      as [p Hp].
    fold u in Hp. apply (f_equal revString) in Hp.
    rewrite revString_involutive, revString_app in Hp.
    apply stripRune_None. rewrite stripRune_None in Hs1.
    eapply Forall_impl; [exact Hs1|]. intros r Hr. simpl in Hr.
    destruct (String.prefix r (revString u)) eqn:Hru; [|done].
    apply (prefix_app _ _ (revString p)) in Hru. congruence. }
  unfold TrimSpace.
  rewrite (trimLeft_fixed _ _ _ Hleft), revString_involutive.
  by rewrite (trimLeft_fixed _ _ _ Hu).
Qed.

End WhiteSpace.

(** ** The label selector parser, term by term *)

Section SelectorTerms.

Import targets further.

Lemma fold_terms (terms : list string) (included excluded : list string) :
  fold_left
    (λ labels part,
       let part := TrimSpace part in
       if String.eqb part "" then labels
       else if HasPrefix part "!" then
         let excluded := TrimPrefix part "!" in
         let excluded := TrimSpace excluded in
         if negb (String.eqb excluded "") then
           {| Included := Included labels;
              Excluded := append (Excluded labels) [excluded] |}
         else labels
       else
         {| Included := append (Included labels) [part];
            Excluded := Excluded labels |})
    terms {| Included := Some included; Excluded := Some excluded |}
  = {| Included := Some (included ++ includedTerms terms);
       Excluded := Some (excluded ++ excludedTerms terms) |}.
Proof.
  revert included excluded. unfold includedTerms, excludedTerms.
  induction terms as [|part terms IH]; intros included excluded.
  - simpl. by rewrite !app_nil_r.
  - cbn [fold_left map List.filter].
    destruct (String.eqb (TrimSpace part) "") eqn:Hpart.
    + apply String.eqb_eq in Hpart. rewrite Hpart. cbn. apply IH.
    + cbn [negb andb]. destruct (HasPrefix (TrimSpace part) "!") eqn:Hbang.
      * cbn [negb map List.filter].
        destruct (String.eqb (TrimSpace (TrimPrefix (TrimSpace part) "!")) "");
          cbn [negb Included Excluded append elems]; rewrite IH; [done|].
        by rewrite <- app_assoc.
      * cbn [negb Included Excluded append elems]. rewrite IH. by rewrite <- app_assoc.
Qed.

(** The labels of a selector, read off its terms. *)
Lemma ParseLabelSelector_by_terms (selector : string) :
  ParseLabelSelector selector
  = {| Included := Some (includedTerms (Split selector "||"));
       Excluded := Some (excludedTerms (Split selector "||")) |}.
Proof.
  unfold ParseLabelSelector.
  destruct (String.eqb_spec selector "") as [->|_]; [reflexivity|].
  cbv zeta. by rewrite fold_terms.
Qed.

(** X1: the labels are the terms between the [||], in their
    order: the included labels are the trimmed terms that are not
    empty and do not begin with [!]; the excluded labels are what is
    left of the trimmed terms that begin with [!] once the [!] and the
    white space after it are removed, unless nothing is left.  Neither
    collection is nil. *)
Theorem ParseLabelSelector_in_order (selector : string) :
  elems (Included (ParseLabelSelector selector)) = includedTerms (Split selector "||")
  ∧ elems (Excluded (ParseLabelSelector selector)) = excludedTerms (Split selector "||")
  ∧ Included (ParseLabelSelector selector) ≠ None
  ∧ Excluded (ParseLabelSelector selector) ≠ None.
Proof.
  unfold ParseLabelSelector.
  destruct (String.eqb_spec selector "") as [->|_]; [by split_and!|].
  cbv zeta. rewrite fold_terms. by split_and!.
Qed.

(** X2: every label is trimmed and not empty, and no included label
    begins with [!]. *)
Theorem ParseLabelSelector_labels_trimmed (selector l : string) :
  l ∈ elems (Included (ParseLabelSelector selector))
  ∨ l ∈ elems (Excluded (ParseLabelSelector selector)) →
  TrimSpace l = l ∧ l ≠ "" ∧
  (l ∈ elems (Included (ParseLabelSelector selector)) → HasPrefix l "!" = false).
Proof.
  rewrite ParseLabelSelector_by_terms. cbn [Included Excluded elems].
  unfold includedTerms, excludedTerms. intros Hl. split_and!.
  - destruct Hl as [Hl|Hl]; apply list_elem_of_In, filter_In in Hl as [Hl _];
      apply in_map_iff in Hl as (part & <- & _); apply TrimSpace_idempotent.
  - destruct Hl as [Hl|Hl]; apply list_elem_of_In, filter_In in Hl as [_ Hl].
    + apply andb_true_iff in Hl as [Hl _]. apply negb_true_iff in Hl.
      by apply String.eqb_neq.
    + apply negb_true_iff in Hl. by apply String.eqb_neq.
  - intros Hin. apply list_elem_of_In, filter_In in Hin as [_ Hin].
    apply andb_true_iff in Hin as [_ Hin]. by apply negb_true_iff.
Qed.

End SelectorTerms.

Section SelectorComposition.

Import targets further.

Lemma prefix_cons (a b : ascii) (p s : string) :
  String.prefix (String a p) (String b s) = Ascii.eqb a b && String.prefix p s.
Proof.
  change (String.prefix (String a p) (String b s))
    with (if ascii_dec a b then String.prefix p s else false).
  destruct (ascii_dec a b) as [->|Hne].
  - by rewrite Ascii.eqb_refl.
  - by apply Ascii.eqb_neq in Hne as ->.
Qed.

Lemma cut_bars (term rest : string) :
  Contains term "|" = false → cut (term +:+ "||" +:+ rest) "||" = Some (term, rest).
Proof.
  induction term as [|c term IH]; intros Hterm.
  { change ("" +:+ "||" +:+ rest) with (String "|" (String "|" rest)).
    unfold cut. by rewrite !prefix_cons, prefix_empty. }
  rewrite Contains_char_cons in Hterm. apply orb_false_iff in Hterm as [Hc Hterm].
  change (String c term +:+ "||" +:+ rest) with (String c (term +:+ "||" +:+ rest)).
  change (cut (String c (term +:+ "||" +:+ rest)) "||")
    with (if String.prefix "||" (String c (term +:+ "||" +:+ rest))
          then Some ("", dropBytes 2 (String c (term +:+ "||" +:+ rest)))
          else match cut (term +:+ "||" +:+ rest) "||" with
               | Some (before, after) => Some (String c before, after)
               | None => None
               end).
  assert (String.prefix "||" (String c (term +:+ "||" +:+ rest)) = false) as ->.
  { by rewrite prefix_cons, Hc. }
  by rewrite (IH Hterm).
Qed.

Lemma cut_no_bar (term : string) : Contains term "|" = false → cut term "||" = None.
Proof.
  induction term as [|c term IH]; intros Hterm; [reflexivity|].
  rewrite Contains_char_cons in Hterm. apply orb_false_iff in Hterm as [Hc Hterm].
  change (cut (String c term) "||")
    with (if String.prefix "||" (String c term)
          then Some ("", dropBytes 2 (String c term))
          else match cut term "||" with
               | Some (before, after) => Some (String c before, after)
               | None => None
               end).
  assert (String.prefix "||" (String c term) = false) as ->.
  { by rewrite prefix_cons, Hc. }
  by rewrite (IH Hterm).
Qed.

(** X3: a selector is parsed term by term: the labels of [term || rest]
    are the labels of [term] followed by the labels of [rest]. *)
Theorem ParseLabelSelector_or (term rest : string) :
  Contains term "|" = false →
  elems (Included (ParseLabelSelector (term +:+ "||" +:+ rest)))
  = elems (Included (ParseLabelSelector term))
    ++ elems (Included (ParseLabelSelector rest))
  ∧ elems (Excluded (ParseLabelSelector (term +:+ "||" +:+ rest)))
    = elems (Excluded (ParseLabelSelector term))
      ++ elems (Excluded (ParseLabelSelector rest)).
Proof.
  intros Hterm. rewrite !ParseLabelSelector_by_terms. cbn [Included Excluded elems].
  rewrite (Split_cut (term +:+ _)), (cut_bars _ _ Hterm) by done.
  rewrite (Split_cut term), (cut_no_bar _ Hterm) by done.
  unfold includedTerms, excludedTerms.
  change (term :: Split rest "||") with ([term] ++ Split rest "||").
  by rewrite !map_app, !List.filter_app, !map_app, !List.filter_app.
Qed.

End SelectorComposition.

Lemma ParseLabelSelector_labels_trimmed_witness :
  TrimSpace "b=2" = "b=2" ∧ "b=2" ≠ "" ∧
  ("b=2" ∈ elems (targets.Included (targets.ParseLabelSelector " a=1 ||  !  b=2 ")) →
   HasPrefix "b=2" "!" = false).
Proof.
  apply (ParseLabelSelector_labels_trimmed " a=1 ||  !  b=2 " "b=2").
  right. vm_compute. constructor.
Defined.

Lemma ParseLabelSelector_or_witness :
  elems (targets.Included (targets.ParseLabelSelector ("a=1 " +:+ "||" +:+ " !b=2 || c=3")))
  = elems (targets.Included (targets.ParseLabelSelector "a=1 "))
    ++ elems (targets.Included (targets.ParseLabelSelector " !b=2 || c=3"))
  ∧ elems (targets.Excluded (targets.ParseLabelSelector ("a=1 " +:+ "||" +:+ " !b=2 || c=3")))
    = elems (targets.Excluded (targets.ParseLabelSelector "a=1 "))
      ++ elems (targets.Excluded (targets.ParseLabelSelector " !b=2 || c=3")).
Proof. apply ParseLabelSelector_or. reflexivity. Defined.

(** ** Binary artifacts *)

Section BinaryFiles.

Import targets.

Lemma extScan_app (l1 l2 : list ascii) (acc : string) :
  (∀ acc, extScan l2 acc = "") → extScan (l1 ++ l2) acc = extScan l1 acc.
Proof.
  intros Hl2. revert acc. induction l1 as [|c l1 IH]; intros acc; simpl; [apply Hl2|].
  destruct (Ascii.eqb c "/"); [done|]. destruct (Ascii.eqb c "."); [done|]. apply IH.
Qed.

Lemma Ext_app (prefix path : string) :
  (∀ acc, extScan (rev (list_ascii_of_string prefix)) acc = "") →
  Ext (prefix +:+ path) = Ext path.
Proof.
  intros Hprefix. unfold Ext.
  rewrite list_ascii_of_string_app, rev_app_distr. by apply extScan_app.
Qed.

(** X4: the directories of a path do not count. *)
Theorem IsBinaryFile_final_element (dir name : string) :
  IsBinaryFile (dir +:+ "/" +:+ name) = IsBinaryFile name.
Proof.
  unfold IsBinaryFile.
  replace (dir +:+ "/" +:+ name) with ((dir +:+ "/") +:+ name).
  2:{ clear. induction dir as [|c dir IH]; [done|].
      change (String c ((dir +:+ "/") +:+ name) = String c (dir +:+ "/" +:+ name)).
      by rewrite IH. }
  rewrite Ext_app; [done|]. intros acc.
  rewrite list_ascii_of_string_app, rev_app_distr. reflexivity.
Qed.

(** What is scanned is a suffix of the path. *)
Lemma extScan_suffix (reversed : list ascii) (acc : string) :
  extScan reversed acc = "" ∨
  ∃ rest, string_of_list_ascii (rev reversed) +:+ acc = rest +:+ extScan reversed acc.
Proof.
  revert acc. induction reversed as [|c reversed IH]; intros acc; simpl; [by left|].
  destruct (Ascii.eqb c "/"); [by left|].
  destruct (Ascii.eqb c ".").
  - right. exists (string_of_list_ascii (rev reversed)).
    rewrite string_of_list_ascii_app. simpl.
    generalize (string_of_list_ascii (rev reversed)). clear.
    induction s as [|d s IHs]; [done|].
    change (String d ((s +:+ String c "") +:+ acc) = String d (s +:+ String c acc)).
    by rewrite IHs.
  - destruct (IH (String c acc)) as [H|[rest H]]; [by left|]. right. exists rest.
    rewrite <- H, string_of_list_ascii_app. simpl.
    generalize (string_of_list_ascii (rev reversed)). clear.
    induction s as [|d s IHs]; [done|].
    change (String d ((s +:+ String c "") +:+ acc) = String d (s +:+ String c acc)).
    by rewrite IHs.
Qed.

Lemma app_empty_r (s : string) : s +:+ "" = s.
Proof.
  induction s as [|c s IH]; [done|]. change (String c (s +:+ "") = String c s). by rewrite IH.
Qed.

Lemma Ext_suffix (path : string) : ∃ stem, path = stem +:+ Ext path.
Proof.
  unfold Ext.
  destruct (extScan_suffix (rev (list_ascii_of_string path)) "") as [->|[rest H]].
  - exists path. by rewrite app_empty_r.
  - exists rest. rewrite <- H.
    by rewrite rev_involutive, string_of_list_ascii_of_string, app_empty_r.
Qed.

Lemma lowerByte_dot (c : ascii) : lowerByte c = "."%char → c = "."%char.
Proof. destruct c as [[] [] [] [] [] [] [] []]; vm_compute; congruence. Qed.

Lemma lowerByte_letter (c : ascii) :
  lowerByte c ≠ "."%char → lowerByte c ≠ "/"%char →
  Ascii.eqb c "/" = false ∧ Ascii.eqb c "." = false.
Proof.
  intros Hdot Hslash. split; apply Ascii.eqb_neq; intros ->; [by apply Hslash | by apply Hdot].
Qed.

(** An extension of a dot and three letters is the extension of
    every path that ends in it. *)
Lemma Ext_three_letters (stem : string) (c0 c1 c2 c3 : ascii) :
  c0 = "."%char →
  Ascii.eqb c1 "/" = false ∧ Ascii.eqb c1 "." = false →
  Ascii.eqb c2 "/" = false ∧ Ascii.eqb c2 "." = false →
  Ascii.eqb c3 "/" = false ∧ Ascii.eqb c3 "." = false →
  Ext (stem +:+ String c0 (String c1 (String c2 (String c3 ""))))
  = String c0 (String c1 (String c2 (String c3 ""))).
Proof.
  intros -> [H1 H1'] [H2 H2'] [H3 H3']. unfold Ext.
  rewrite list_ascii_of_string_app, rev_app_distr. simpl.
  by rewrite H3, H3', H2, H2', H1, H1'.
Qed.

(** X5: a path is a binary artifact exactly when it ends in [.jar],
    [.war] or [.ear], in any mix of upper and lower case. *)
Theorem IsBinaryFile_iff (path : string) :
  IsBinaryFile path = true
  ↔ ∃ stem ext, path = stem +:+ ext ∧ ToLower ext ∈ [".jar"; ".war"; ".ear"].
Proof.
  unfold IsBinaryFile. split.
  - intros Hext. destruct (Ext_suffix path) as [stem Hstem].
    exists stem, (Ext path). split; [done|].
    rewrite !orb_true_iff, !String.eqb_eq in Hext.
    destruct Hext as [[-> | ->] | ->]; set_solver.
  - intros (stem & ext & -> & Hext).
    assert (Ext (stem +:+ ext) = ext) as ->.
    { destruct ext as [|c0 [|c1 [|c2 [|c3 [|c4 ext]]]]];
        try (repeat (apply elem_of_cons in Hext as [Hext|Hext]; [done|]);
             by apply elem_of_nil in Hext).
      apply Ext_three_letters.
      all: repeat (apply elem_of_cons in Hext as [Hext|Hext];
                   [injection Hext as H0 H1 H2 H3;
                    first [by apply lowerByte_dot
                          | apply lowerByte_letter; rewrite ?H1, ?H2, ?H3; done]|]).
      all: by apply elem_of_nil in Hext. }
    rewrite !orb_true_iff, !String.eqb_eq.
    repeat (apply elem_of_cons in Hext as [Hext|Hext]; [auto|]).
    by apply elem_of_nil in Hext.
Qed.

End BinaryFiles.

(** ** The application reference, further *)

Section ApplicationReferenceParts.

Import targets props.

Lemma cut_char_inv (c : ascii) (s : string) :
  match cut s (String c "") with
  | Some (before, _) => Contains before (String c "") = false
  | None => Contains s (String c "") = false
  end.
Proof.
  induction s as [|d s IH]; [done|].
  change (cut (String d s) (String c ""))
    with (if String.prefix (String c "") (String d s)
          then Some ("", dropBytes 1 (String d s))
          else match cut s (String c "") with
               | Some (before, after) => Some (String d before, after)
               | None => None
               end).
  rewrite prefix_char. destruct (Ascii.eqb c d) eqn:Hcd; [done|].
  destruct (cut s (String c "")) as [[before after]|];
    by rewrite Contains_char_cons, Hcd, IH.
Qed.

(** X6: the legacy [binary:] prefix is removed from a reference only if
    the file named after it has no binary extension; with one, the
    reference goes to [prepareBinary] whole, prefix included. *)
Theorem prepareInput_binary_prefix (k : KantraTarget) (file testName workDir : string) :
  prepareInput k ("binary:" +:+ file) testName workDir
  = if IsBinaryFile file then binaryFile ("binary:" +:+ file) workDir else localPath file.
Proof.
  unfold prepareInput.
  assert (IsBinaryFile ("binary:" +:+ file) = IsBinaryFile file) as ->.
  { unfold IsBinaryFile. rewrite Ext_app; [done|]. reflexivity. }
  destruct (IsBinaryFile file); [done|].
  change ("binary:" +:+ file) with (String "b" ("inary:" +:+ file)).
  unfold HasPrefix. rewrite !prefix_cons. simpl.
  change ("" +:+ file) with file. by rewrite prefix_empty.
Qed.

(** X7: what goes to [git clone]: a URL without [#] and a ref without
    [/], cloned below the given directory, from which, with the
    subpath, the reference can be put together again. *)
Theorem prepareInput_git_parts (k : KantraTarget)
    (application testName workDir gitURL gitRef gitPath dir : string) :
  prepareInput k application testName workDir = gitClone gitURL gitRef gitPath dir →
  dir = workDir ∧
  Contains gitURL "#" = false ∧ Contains gitRef "/" = false ∧
  (application = gitURL ∧ gitRef = "" ∧ gitPath = ""
   ∨ application = gitURL +:+ "#" +:+ gitRef ∧ gitPath = ""
   ∨ application = gitURL +:+ "#" +:+ gitRef +:+ "/" +:+ gitPath).
Proof.
  unfold prepareInput. destruct (IsBinaryFile application); [done|].
  destruct (negb _); [by destruct (HasPrefix application "binary:")|].
  destruct (Contains application "#") eqn:Hhash.
  - rewrite SplitN_two_cut.
    pose proof (cut_char_inv "#" application) as Hurl.
    destruct (cut application "#") as [[url rest]|] eqn:Hcut; [|congruence].
    apply cut_Some in Hcut as ->. cbn [nth length Nat.ltb Nat.leb].
    rewrite SplitN_two_cut.
    pose proof (cut_char_inv "/" rest) as Href.
    destruct (cut rest "/") as [[ref sub]|] eqn:Hcut.
    + apply cut_Some in Hcut as ->. cbn [nth length Nat.ltb Nat.leb].
      intros [= <- <- <- <-]. split_and!; try done. by right; right.
    + cbn [nth length Nat.ltb Nat.leb].
      intros [= <- <- <- <-]. split_and!; try done. by right; left.
  - intros [= <- <- <- <-]. split_and!; try done. by left.
Qed.

End ApplicationReferenceParts.

Lemma prepareInput_git_parts_witness :
  "/w" = "/w" ∧
  Contains "https://h/r.git" "#" = false ∧ Contains "main" "/" = false ∧
  ("https://h/r.git#main/sub/dir" = "https://h/r.git" ∧ "main" = "" ∧ "sub/dir" = ""
   ∨ "https://h/r.git#main/sub/dir" = "https://h/r.git" +:+ "#" +:+ "main" ∧ "sub/dir" = ""
   ∨ "https://h/r.git#main/sub/dir"
     = "https://h/r.git" +:+ "#" +:+ "main" +:+ "/" +:+ "sub/dir").
Proof.
  apply (prepareInput_git_parts sample.target "https://h/r.git#main/sub/dir" "t" "/w").
  reflexivity.
Defined.

(** ** The argument builder, further *)

Section ArgumentBuilderFurther.

Import targets props further.

(** X8: what the command line passes on.  The context lines, the
    input path and the output folder follow their flags; so do a
    label selector and an incident selector that are not empty, and
    every target, source and rule of the analysis; full analysis is
    passed as [--mode full]. *)
Theorem buildArgs_passes (k : KantraTarget) (analysis : AnalysisConfig)
    (inputPath outputDir mavenSettings : string) :
  let args := elems (buildArgs k analysis inputPath outputDir mavenSettings) in
  adjacent "--context-lines" (Itoa (ContextLines analysis)) args
  ∧ adjacent "--input" inputPath args
  ∧ adjacent "--output" outputDir args
  ∧ (LabelSelector analysis ≠ "" → adjacent "--label-selector" (LabelSelector analysis) args)
  ∧ (IncidentSelector analysis ≠ "" →
     adjacent "--incident-selector" (IncidentSelector analysis) args)
  ∧ (∀ t, t ∈ elems (Target analysis) → adjacent "-t" t args)
  ∧ (∀ s, s ∈ elems (Source analysis) → adjacent "-s" s args)
  ∧ (∀ r, r ∈ elems (Rules analysis) → adjacent "--rules" r args)
  ∧ (AnalysisMode analysis = FullAnalysisMode → adjacent "--mode" "full" args).
Proof.
  intros args. unfold args. rewrite buildArgs_contract. cbn [elems]. unfold contract.
  split_and!.
  - apply adjacent_rendered. set_solver.
  - apply adjacent_rendered. set_solver.
  - apply adjacent_rendered. set_solver.
  - intros Hne%String.eqb_neq. apply adjacent_rendered. unfold optional at 1.
    rewrite Hne. set_solver.
  - intros Hne%String.eqb_neq. apply adjacent_rendered. unfold optional at 2.
    rewrite Hne. set_solver.
  - intros t Ht. apply adjacent_rendered. rewrite !elem_of_app. do 4 right. left.
    unfold repeated. by apply (list_elem_of_fmap_2 (λ v, ("-t", Some v))).
  - intros s Hs. apply adjacent_rendered. rewrite !elem_of_app. do 5 right. left.
    unfold repeated. by apply (list_elem_of_fmap_2 (λ v, ("-s", Some v))).
  - intros r Hr. apply adjacent_rendered. rewrite !elem_of_app. do 6 right. left.
    unfold repeated. by apply (list_elem_of_fmap_2 (λ v, ("--rules", Some v))).
  - intros Hmode. apply adjacent_rendered. rewrite Hmode. cbn [String.eqb].
    change (String.eqb FullAnalysisMode SourceOnlyAnalysisMode) with false.
    rewrite String.eqb_refl. rewrite !elem_of_app. do 7 right. left. constructor.
Qed.

Lemma length_rendered_repeated (flag : string) (values : slice string) :
  length (flat_map rendered (repeated flag values)) = (2 * len values)%nat.
Proof.
  unfold repeated, len. induction (elems values) as [|v l IH]; [done|].
  cbn [map flat_map rendered app length]. rewrite IH. lia.
Qed.

(** X9: the frame of the command line.  The argument list opens
    with [analyze], the context lines, the input and the output, and
    closes with [--run-local=false] and [--overwrite]; what lies
    between has two arguments for every target, source and rule, for
    each selector and settings path that is not empty, and for a
    known analysis mode. *)
Theorem buildArgs_frame (k : KantraTarget) (analysis : AnalysisConfig)
    (inputPath outputDir mavenSettings : string) :
  ∃ options,
    buildArgs k analysis inputPath outputDir mavenSettings
    = Some (["analyze"; "--context-lines"; Itoa (ContextLines analysis);
             "--input"; inputPath; "--output"; outputDir]
            ++ options ++ ["--run-local=false"; "--overwrite"])
    ∧ length options
      = (2 * (length (List.filter (λ v, negb (String.eqb v ""))
                        [LabelSelector analysis; IncidentSelector analysis; mavenSettings])
              + len (Target analysis) + len (Source analysis) + len (Rules analysis)
              + (if String.eqb (AnalysisMode analysis) SourceOnlyAnalysisMode
                    || String.eqb (AnalysisMode analysis) FullAnalysisMode
                 then 1 else 0)))%nat.
Proof.
  rewrite buildArgs_contract. unfold contract.
  rewrite !flat_map_app. cbn [flat_map rendered app].
  eexists. split.
  - do 8 f_equal. rewrite !app_assoc. reflexivity.
  - rewrite !length_app, !length_rendered_repeated. unfold optional.
    cbn [List.filter].
    destruct (String.eqb (LabelSelector analysis) ""),
             (String.eqb (IncidentSelector analysis) ""),
             (String.eqb mavenSettings ""),
             (String.eqb (AnalysisMode analysis) SourceOnlyAnalysisMode),
             (String.eqb (AnalysisMode analysis) FullAnalysisMode);
      cbn [negb orb flat_map rendered app length]; lia.
Qed.

End ArgumentBuilderFurther.

(** ** The validation engine, further *)

Section EngineErrors.

Import validator props further.

Context (X : External).

Lemma adds_refl (P : ValidationError → Prop) (s : slice ValidationError) : adds P s s.
Proof. exists []. by rewrite app_nil_r. Qed.

Lemma adds_trans (P : ValidationError → Prop) (s1 s2 s3 : slice ValidationError) :
  adds P s1 s2 → adds P s2 s3 → adds P s1 s3.
Proof.
  intros (a1 & H1 & Ha1) (a2 & H2 & Ha2). exists (a1 ++ a2).
  split; [by rewrite H2, H1, app_assoc | by apply Forall_app].
Qed.

Lemma adds_append (P : ValidationError → Prop) (s : slice ValidationError)
    (e : ValidationError) :
  P e → adds P s (append s [e]).
Proof. intros He. exists [e]. split; [apply elems_append | by constructor]. Qed.

Lemma forEach_adds {A} (P : ValidationError → Prop)
    (body : slice ValidationError → A → result (slice ValidationError))
    (l : list A) (s s' : slice ValidationError) :
  (∀ s x s', body s x = Ok s' → adds P s s') →
  forEach body l s = Ok s' → adds P s s'.
Proof.
  intros Hbody. revert s. induction l as [|x l IH]; intros s; simpl.
  - intros [= <-]. apply adds_refl.
  - destruct (body s x) as [s1|] eqn:Hx; [|done]. simpl. intros Hl.
    eapply adds_trans; [by eapply Hbody | by apply IH].
Qed.

Lemma appendIfOk_adds (P : ValidationError → Prop) (errors s' : slice ValidationError)
    (r : option ValidationError * bool) :
  (∀ e, r.1 = Some e → P e) → appendIfOk errors r = Ok s' → adds P errors s'.
Proof.
  destruct r as [err [|]]; simpl; intros Herr.
  - destruct err as [e|]; simpl; [|done]. intros [= <-]. apply adds_append. by apply Herr.
  - intros [= <-]. apply adds_refl.
Qed.

Lemma bind_adds (P : ValidationError → Prop) (m : result (slice ValidationError))
    (f : slice ValidationError → result (slice ValidationError))
    (s s' : slice ValidationError) :
  (∀ s1, m = Ok s1 → adds P s s1) → (∀ s1 s', f s1 = Ok s' → adds P s1 s') →
  m ≫= f = Ok s' → adds P s s'.
Proof.
  intros Hm Hf. destruct m as [s1|]; [|done]. cbn [mbind result_bind bind]. intros Hs'.
  eapply adds_trans; [by apply Hm | by apply Hf].
Qed.

Lemma listed_adds (k : kantra)
    (f : kantra → string → slice string → option ValidationError * bool)
    (x : string) (a : slice string) (s s' : slice ValidationError) :
  f = kantra_compareTag ∨ f = kantra_compareUnmatched ∨ f = kantra_compareSkipped →
  appendIfOk s (f k x a) = Ok s' → adds (λ e, Path e = "") s s'.
Proof.
  intros Hf. apply appendIfOk_adds. intros e.
  destruct Hf as [-> | [-> | ->]];
    unfold kantra_compareTag, kantra_compareUnmatched, kantra_compareSkipped;
    destruct (findExpectedString x a); simpl; intros [= <-]; done.
Qed.

Lemma compareFindings_adds (c : option comparer) (opening : string)
    (expected actual : gomap konveyor.Violation) (s s' : slice ValidationError) :
  compareFindings X c opening expected actual s = Ok s' → adds (λ e, Path e = "") s s'.
Proof.
  unfold compareFindings. apply forEach_adds. clear s s'. intros s [k v] s'.
  destruct (compareViolation X c v _) as [[err [|]]|]; simpl; [| |done].
  - intros [= <-]. by apply adds_append.
  - intros [= <-]. apply adds_refl.
Qed.

(** The comparison of a matched pair adds errors without a path
    only. *)
Lemma compareRuleSets_adds (c : option comparer) (ers rs : konveyor.RuleSet)
    (errors errors' : slice ValidationError) :
  compareRuleSets X c ers rs errors = Ok errors' →
  adds (λ e, Path e = "") errors errors'.
Proof.
  destruct c as [c|].
  2:{ rewrite compareRuleSets_nil. destruct (needsComparer ers rs); [done|].
      intros [= <-]. apply adds_refl. }
  unfold compareRuleSets.
  repeat (apply bind_adds; [intros ? | clear errors errors'; intros errors errors']).
  all: destruct (negb _); [|intros [= <-]; apply adds_refl].
  all: try apply compareFindings_adds.
  all: apply forEach_adds; clear; intros s x s';
    cbn [compareErrors compareTag compareUnmatched compareSkipped
         orPanic mbind result_bind bind].
  - destruct x as [k eerr]. apply appendIfOk_adds. intros e. unfold kantra_compareErrors.
    destruct (negb _); simpl; intros [= <-]; done.
  - apply listed_adds. auto.
  - apply listed_adds. auto.
  - apply listed_adds. auto.
Qed.

Lemma filter_hasPath_adds (s s' : slice ValidationError) :
  adds (λ e, Path e = "") s s' →
  List.filter hasPath (elems s') = List.filter hasPath (elems s).
Proof.
  intros (added & -> & Hadded). rewrite List.filter_app.
  replace (List.filter hasPath added) with ([] : list ValidationError); [by rewrite app_nil_r|].
  induction Hadded as [|e added He _ IH]; [done|].
  simpl. unfold hasPath at 1. by rewrite He.
Qed.

Lemma forEach_trace {A B} (f : B → bool) (g : A → B)
    (body : slice B → A → result (slice B)) (l : list A) (s s' : slice B) :
  (∀ s x s', body s x = Ok s' →
     List.filter f (elems s') = List.filter f (elems s) ++ [g x]) →
  forEach body l s = Ok s' →
  List.filter f (elems s') = List.filter f (elems s) ++ map g l.
Proof.
  intros Hbody. revert s. induction l as [|x l IH]; intros s; simpl.
  - intros [= <-]. by rewrite app_nil_r.
  - destruct (body s x) as [s1|] eqn:Hx; [|done]. cbn [mbind result_bind bind].
    intros Hl%IH. rewrite Hl, (Hbody _ _ _ Hx), <- app_assoc. done.
Qed.

(** X10: whatever the comparer and the actual rulesets, the errors that
    name a path are those of the expected rulesets, one for each, in
    their order. *)
Lemma ValidateFiles_paths (testDir targetType : string)
    (actual expected : slice konveyor.RuleSet) (r : ValidationResult) :
  ValidateFiles X testDir targetType actual expected = Ok r →
  List.filter hasPath (elems (Errors r))
  = map (λ ers, rulesetError (konveyor.Name ers)) (elems expected).
Proof.
  unfold ValidateFiles. cbv zeta.
  match goal with
  | |- context [forEach ?body (elems expected) ?s0] =>
      destruct (forEach body (elems expected) s0) as [errors|] eqn:Hl; [|done]
  end.
  cbn [mbind result_bind bind]. intros [= <-]. cbn [Errors].
  apply forEach_trace
    with (f := hasPath) (g := λ ers, rulesetError (konveyor.Name ers)) in Hl; [done|].
  clear. intros s ers s'.
  match goal with
  | |- context [forEach ?body (elems actual) s] =>
      destruct (forEach body (elems actual) s) as [s1|] eqn:Hinner; [|done]
  end.
  cbn [mbind result_bind bind]. intros [= <-].
  cbn [elems]. rewrite List.filter_app. cbn [List.filter hasPath Path].
  apply forEach_adds with (P := λ e, Path e = "") in Hinner.
  - by rewrite (filter_hasPath_adds _ _ Hinner).
  - intros s2 rs s3. destruct (negb _); [|apply compareRuleSets_adds].
    intros [= <-]. apply adds_refl.
Qed.

End EngineErrors.

Section EngineScope.

Import validator props further.

Context (X : External).

Lemma forEach_filter {A S} (keep : A → bool) (body : S → A → result S)
    (l : list A) (s : S) :
  (∀ s x, keep x = false → body s x = Ok s) →
  forEach body (List.filter keep l) s = forEach body l s.
Proof.
  intros Hbody. revert s. induction l as [|x l IH]; intros s; [done|].
  cbn [List.filter]. destruct (keep x) eqn:Hx; cbn [forEach].
  - destruct (body s x); [apply IH | done].
  - rewrite (Hbody _ _ Hx). apply IH.
Qed.

Lemma named_false (expected : slice konveyor.RuleSet) (ers rs : konveyor.RuleSet) :
  ers ∈ elems expected → named expected rs = false →
  String.eqb (konveyor.Name rs) (konveyor.Name ers) = false.
Proof.
  intros Hers Hrs. destruct (String.eqb _ _) eqn:Heq; [|done].
  rewrite <- Hrs. symmetry. apply existsb_exists. exists ers.
  split; [by apply list_elem_of_In | done].
Qed.

(** X11: actual rulesets that carry the name of no expected ruleset
    do not reach the comparison: the outcome is that of the actual
    list without them. *)
Theorem ValidateFiles_unexpected_rulesets (testDir targetType : string)
    (actual expected : slice konveyor.RuleSet) :
  ValidateFiles X testDir targetType actual expected
  = ValidateFiles X testDir targetType
      (Some (List.filter (named expected) (elems actual))) expected.
Proof.
  unfold ValidateFiles. cbv zeta. f_equal. apply forEach_ext.
  intros s ers Hers. f_equal. cbn [elems]. symmetry. apply forEach_filter.
  intros s' rs Hrs. by rewrite (named_false _ _ _ Hers Hrs).
Qed.

End EngineScope.

Section EngineReturns.

Import validator props further.

Context (X : External).

Lemma bind_returns {A B} (m : result A) (f : A → result B) :
  (∃ a, m = Ok a) → (∀ a, ∃ b, f a = Ok b) → ∃ b, m ≫= f = Ok b.
Proof. intros [a ->] Hf. apply Hf. Qed.

Lemma forEach_returns {A S} (body : S → A → result S) (l : list A) (s : S) :
  (∀ s x, x ∈ l → ∃ s', body s x = Ok s') → ∃ s', forEach body l s = Ok s'.
Proof.
  revert s. induction l as [|x l IH]; intros s Hbody; [by exists s|].
  cbn [forEach]. destruct (Hbody s x) as [s1 ->]; [constructor|].
  apply IH. intros ? ? ?. apply Hbody. by constructor.
Qed.

Lemma search_returns (body : konveyor.Incident → result turn)
    (actual : list konveyor.Incident) (found : bool) :
  (∀ ai, ai ∈ actual → ∃ t, body ai = Ok t) →
  ∃ found', searchIncidents body actual found = Ok found'.
Proof.
  revert found. induction actual as [|ai actual IH]; intros found Hbody; [by exists found|].
  cbn [searchIncidents]. destruct (Hbody ai) as [t ->]; [constructor|].
  cbn [mbind result_bind bind].
  destruct t; [apply IH | by eexists | apply IH];
    intros ? ?; apply Hbody; by constructor.
Qed.

Lemma comparePaths_returns (testDir : string) (i ai : konveyor.Incident) :
  is_Some (Filename X (konveyor.URI i)) → is_Some (Filename X (konveyor.URI ai)) →
  ∃ t, comparePaths X testDir i ai = Ok t.
Proof.
  intros [file Hfile] [afile Hafile]. unfold comparePaths.
  rewrite Hfile. cbn [orPanic mbind result_bind bind].
  destruct (filepathRel X _ file); [|by eexists].
  rewrite Hafile. cbn [orPanic mbind result_bind bind].
  destruct (negb _); by eexists.
Qed.

Lemma kantra_turn_returns (k : kantra) (i ai : konveyor.Incident) :
  is_Some (Filename X (konveyor.URI i)) → is_Some (Filename X (konveyor.URI ai)) →
  ∃ t, kantra_turn X k i ai = Ok t.
Proof.
  intros Hi Hai. unfold kantra_turn.
  destruct (negb _); [by eexists|].
  destruct (_ || _); [destruct (negb _); by eexists|].
  by apply comparePaths_returns.
Qed.

Lemma compareViolation_returns (c : comparer) (expected actual : konveyor.Violation) :
  locatable X expected → locatable X actual →
  ∃ r, compareViolation X (Some c) expected actual = Ok r.
Proof.
  intros Hexpected Hactual. unfold compareViolation.
  cbn [orPanic mbind result_bind bind].
  destruct c as [k|t]; unfold kantra_compareViolation, tackle2Hub_compareViolation;
    cbv zeta; (apply bind_returns; [|intros ?; by eexists]);
    apply forEach_returns; intros s i Hi;
    (apply bind_returns; [|intros ?; by eexists]);
    apply search_returns; intros ai Hai.
  - apply kantra_turn_returns; [by apply Hexpected | by apply Hactual].
  - apply comparePaths_returns; [by apply Hexpected | by apply Hactual].
Qed.

Lemma index_range {V} (m : gomap V) (k : string) (zero : V) :
  index m k zero = zero ∨ (k, index m k zero) ∈ range m.
Proof.
  unfold index, range. destruct (entries m !! k) as [v|] eqn:Hk; [right | by left].
  by apply elem_of_map_to_list.
Qed.

Lemma locatable_zero : locatable X konveyor.zeroViolation.
Proof. intros i Hi. by apply elem_of_nil in Hi. Qed.

Lemma compareFindings_returns (c : comparer) (opening : string)
    (expected actual : gomap konveyor.Violation) (errors : slice ValidationError) :
  (∀ k v, (k, v) ∈ range expected → locatable X v) →
  (∀ k v, (k, v) ∈ range actual → locatable X v) →
  ∃ errors', compareFindings X (Some c) opening expected actual errors = Ok errors'.
Proof.
  intros Hexpected Hactual. unfold compareFindings.
  apply forEach_returns. intros s [k v] Hkv.
  destruct (compareViolation_returns c v (index actual k konveyor.zeroViolation))
    as [[err ok] ->].
  - by apply (Hexpected k).
  - destruct (index_range actual k konveyor.zeroViolation) as [-> | Hin];
      [apply locatable_zero | by apply (Hactual k)].
  - cbn [mbind result_bind bind]. destruct ok; by eexists.
Qed.

Lemma listed_returns (k : kantra)
    (f : kantra → string → slice string → option ValidationError * bool)
    (x : string) (a : slice string) (s : slice ValidationError) :
  f = kantra_compareTag ∨ f = kantra_compareUnmatched ∨ f = kantra_compareSkipped →
  ∃ s', appendIfOk s (f k x a) = Ok s'.
Proof.
  intros [-> | [-> | ->]];
    unfold kantra_compareTag, kantra_compareUnmatched, kantra_compareSkipped;
    destruct (findExpectedString x a); by eexists.
Qed.

Lemma findings_locatable (rs : konveyor.RuleSet) :
  (∀ i, i ∈ incidentsOf rs → is_Some (Filename X (konveyor.URI i))) →
  (∀ k v, (k, v) ∈ range (konveyor.Violations rs) → locatable X v)
  ∧ (∀ k v, (k, v) ∈ range (konveyor.Insights rs) → locatable X v).
Proof.
  intros Hrs. split; intros k v Hkv i Hi; apply Hrs; unfold incidentsOf, findings;
    apply list_elem_of_In, in_flat_map; exists v;
    (split; [|by apply list_elem_of_In]); apply list_elem_of_In, elem_of_app;
    [left | right]; apply (list_elem_of_fmap_2 snd _ (k, v) Hkv).
Qed.

Lemma compareRuleSets_returns (c : comparer) (ers rs : konveyor.RuleSet)
    (errors : slice ValidationError) :
  (∀ i, i ∈ incidentsOf ers → is_Some (Filename X (konveyor.URI i))) →
  (∀ i, i ∈ incidentsOf rs → is_Some (Filename X (konveyor.URI i))) →
  ∃ errors', compareRuleSets X (Some c) ers rs errors = Ok errors'.
Proof.
  intros [Hev Hei]%findings_locatable [Hav Hai]%findings_locatable.
  unfold compareRuleSets.
  repeat (apply bind_returns; [|clear errors; intros errors]).
  all: destruct (negb _); [|by eexists].
  all: try by apply compareFindings_returns.
  all: apply forEach_returns; intros s x _;
    cbn [compareErrors compareTag compareUnmatched compareSkipped
         orPanic mbind result_bind bind].
  - destruct x as [k eerr]. unfold kantra_compareErrors. destruct (negb _); by eexists.
  - apply listed_returns. auto.
  - apply listed_returns. auto.
  - apply listed_returns. auto.
Qed.

Lemma getComparer_known (targetType testDir : string) :
  targetType ∈ knownTargets → is_Some (getComparer targetType testDir).
Proof.
  unfold knownTargets. rewrite !elem_of_cons, elem_of_nil.
  intros [-> | [-> | [-> | [-> | [-> | []]]]]]; by eexists.
Qed.

(** X12: with one of the five known target types, [ValidateFiles]
    returns a result (it does not panic) when the URI of every
    incident, expected or actual, has a file name. *)
Theorem ValidateFiles_returns (testDir targetType : string)
    (actual expected : slice konveyor.RuleSet) :
  targetType ∈ knownTargets →
  (∀ rs i, rs ∈ elems expected ++ elems actual → i ∈ incidentsOf rs →
     is_Some (Filename X (konveyor.URI i))) →
  ∃ r, ValidateFiles X testDir targetType actual expected = Ok r.
Proof.
  intros [c Hc]%(getComparer_known _ testDir) Hfiles.
  unfold ValidateFiles. rewrite Hc. cbv zeta.
  apply bind_returns; [|intros ?; by eexists].
  apply forEach_returns. intros s ers Hers.
  apply bind_returns; [|intros ?; by eexists].
  apply forEach_returns. intros s' rs Hrs.
  destruct (negb _); [by eexists|].
  apply compareRuleSets_returns; intros i; apply Hfiles; apply elem_of_app; auto.
Qed.

End EngineReturns.

Section EngineContainment.

Import validator props further.

Context (X : External).

Lemma forEach_append {A B} (g : A → B) (l : list A) (acc : list B) :
  forEach (λ s x, Ok (append s [g x])) l (Some acc) = Ok (Some (acc ++ map g l)).
Proof.
  revert acc. induction l as [|x l IH]; intros acc; cbn [forEach map].
  - by rewrite app_nil_r.
  - cbn [bind append elems]. rewrite IH. by rewrite <- app_assoc.
Qed.

Lemma if_same {A} (b : bool) (x : A) : (if b then x else x) = x.
Proof. by destruct b. Qed.

Lemma compareRuleSets_within (c : comparer) (ers rs : konveyor.RuleSet)
    (errors : slice ValidationError) :
  within ers rs → compareRuleSets X (Some c) ers rs errors = Ok errors.
Proof.
  intros (Herrors & Htags & Hinsights & Hviolations & Hunmatched & Hskipped).
  unfold compareRuleSets. rewrite Hinsights, Hviolations. cbn [negb].
  assert (∀ (f : kantra → string → slice string → option ValidationError * bool)
            (expected actual : slice string) (s : slice ValidationError),
    f = kantra_compareTag ∨ f = kantra_compareUnmatched ∨ f = kantra_compareSkipped →
    elems expected ⊆ elems actual →
    forEach (λ errors x, appendIfOk errors (f (receiver c) x actual)) (elems expected) s
    = Ok s) as Hlist.
  { intros f expected actual s Hf Hsub. apply forEach_unchanged. intros s' x Hx.
    apply Hsub, findExpectedString_elem in Hx.
    destruct Hf as [-> | [-> | ->]];
      unfold kantra_compareTag, kantra_compareUnmatched, kantra_compareSkipped;
      by rewrite Hx. }
  cbn [compareErrors compareTag compareUnmatched compareSkipped
       orPanic mbind result_bind bind].
  rewrite forEach_unchanged.
  2:{ intros s [k e] Hke%elem_of_map_to_list. unfold kantra_compareErrors.
      by rewrite (Herrors _ _ Hke), String.eqb_refl. }
  repeat (rewrite ?(Hlist kantra_compareTag), ?(Hlist kantra_compareUnmatched),
            ?(Hlist kantra_compareSkipped) by auto;
          rewrite if_same; cbn [mbind result_bind bind]).
  done.
Qed.

(** X13: the comparison is one-sided.  With a known target type,
    when every actual ruleset has what the expected ruleset of its
    name asks for, the errors are those that name the expected
    rulesets, whatever else the actual rulesets hold. *)
Theorem ValidateFiles_within (testDir targetType : string)
    (actual expected : slice konveyor.RuleSet) :
  targetType ∈ knownTargets →
  (∀ ers rs, ers ∈ elems expected → rs ∈ elems actual →
     konveyor.Name rs = konveyor.Name ers → within ers rs) →
  ValidateFiles X testDir targetType actual expected
  = Ok {| Passed := (len expected =? 0)%nat;
          Errors := Some (map (λ ers, rulesetError (konveyor.Name ers))
                              (elems expected)) |}.
Proof.
  intros [c Hc]%(getComparer_known _ testDir) Hwithin.
  unfold ValidateFiles. rewrite Hc. cbv zeta.
  rewrite (forEach_ext _ (λ s ers, Ok (append s [rulesetError (konveyor.Name ers)]))).
  2:{ intros s ers Hers. rewrite forEach_unchanged; [done|].
      intros s' rs Hrs. destruct (String.eqb_spec (konveyor.Name rs) (konveyor.Name ers));
        [|done].
      cbn [negb]. apply compareRuleSets_within. by apply Hwithin. }
  rewrite forEach_append. cbn [mbind result_bind bind app].
  unfold len. cbn [elems]. by rewrite length_map.
Qed.

End EngineContainment.

Section EngineReports.

Import validator props further.

Context (X : External).

Lemma bind_inv {A B} (m : result A) (f : A → result B) (b : B) :
  m ≫= f = Ok b → ∃ a, m = Ok a ∧ f a = Ok b.
Proof. destruct m as [a|]; [|done]. intros Hb. by exists a. Qed.

Lemma adds_subseteq (P : ValidationError → Prop) (s s' : slice ValidationError) :
  adds P s s' → elems s ⊆ elems s'.
Proof. intros (added & -> & _) e He. apply elem_of_app. by left. Qed.

Lemma forEach_grows {A} (body : slice ValidationError → A → result (slice ValidationError))
    (l : list A) (s s' : slice ValidationError) :
  (∀ s y s', body s y = Ok s' → elems s ⊆ elems s') →
  forEach body l s = Ok s' → elems s ⊆ elems s'.
Proof.
  intros Hbody. revert s. induction l as [|y l IH]; intros s; cbn [forEach].
  - by intros [= <-].
  - intros (s1 & Hy & Hl)%bind_inv. etrans; [by eapply Hbody | by apply IH].
Qed.

(** A loop that only adds errors keeps what the turn for [x] adds. *)
Lemma forEach_visits {A} (body : slice ValidationError → A → result (slice ValidationError))
    (l : list A) (x : A) (s s' : slice ValidationError) :
  (∀ s y s', body s y = Ok s' → elems s ⊆ elems s') →
  x ∈ l → forEach body l s = Ok s' →
  ∃ s1 s2, body s1 x = Ok s2 ∧ elems s2 ⊆ elems s'.
Proof.
  intros Hbody Hx. revert s. induction l as [|y l IH]; intros s; [by apply elem_of_nil in Hx|].
  cbn [forEach]. intros (s1 & Hy & Hl)%bind_inv.
  apply elem_of_cons in Hx as [<-|Hx].
  - exists s, s1. split; [done|]. by eapply forEach_grows.
  - by apply (IH Hx s1).
Qed.

Lemma deepEqualList_eq (l1 l2 : list string) :
  deepEqualList String.eqb l1 l2 = true → l1 = l2.
Proof.
  revert l2. induction l1 as [|x l1 IH]; intros [|y l2]; cbn [deepEqualList]; try done.
  intros [Hxy Hl]%andb_true_iff. apply String.eqb_eq in Hxy as ->. by rewrite (IH _ Hl).
Qed.

Lemma deepEqualSlice_elems (s1 s2 : slice string) :
  deepEqualSlice String.eqb s1 s2 = true → elems s1 = elems s2.
Proof. destruct s1, s2; cbn; try done. apply deepEqualList_eq. Qed.

Lemma mapsEqual_index (m1 m2 : gomap string) (k e : string) :
  mapsEqual String.eqb m1 m2 = true → entries m1 !! k = Some e → index m2 k "" = e.
Proof.
  unfold mapsEqual, index. intros [_ Hall]%andb_true_iff Hk.
  rewrite forallb_forall in Hall.
  apply elem_of_map_to_list, list_elem_of_In, Hall in Hk.
  destruct (entries m2 !! k) as [e'|]; [|done]. symmetry. by apply String.eqb_eq.
Qed.

(** The loops over the expected tags, unmatched and skipped rules. *)
Lemma strings_reported
    (compare : option comparer → string → slice string
               → result (option ValidationError * bool))
    (what : string) (c : option comparer) (expected actual : slice string)
    (s s' : slice ValidationError) :
  compare = compareTag ∧ what = "tag"
  ∨ compare = compareUnmatched ∧ what = "unmatched rule"
  ∨ compare = compareSkipped ∧ what = "skipped rule" →
  (if negb (deepEqualSlice String.eqb actual expected) then
     forEach (λ errors x, r ← compare c x actual; appendIfOk errors r)
             (elems expected) s
   else Ok s) = Ok s' →
  elems s ⊆ elems s'
  ∧ ∀ x, x ∈ elems expected → x ∉ elems actual → notFound what x ∈ elems s'.
Proof.
  intros Hcompare.
  assert (∀ s x s', (r ← compare c x actual; appendIfOk s r) = Ok s' →
            elems s ⊆ elems s'
            ∧ (findExpectedString x actual = false → notFound what x ∈ elems s'))
    as Hbody.
  { clear s s'. intros s x s'. destruct c as [c|].
    2:{ by destruct Hcompare as [[-> _] | [[-> _] | [-> _]]]. }
    destruct Hcompare as [[-> ->] | [[-> ->] | [-> ->]]];
      cbn [compareTag compareUnmatched compareSkipped orPanic mbind result_bind bind];
      unfold kantra_compareTag, kantra_compareUnmatched, kantra_compareSkipped;
      (destruct (findExpectedString x actual); cbn [appendIfOk orPanic mbind result_bind bind];
       intros [= <-]; [done|]);
      rewrite ?elems_append; cbn [elems]; (split; [set_solver|]); intros _;
      apply elem_of_app; right; apply list_elem_of_singleton; reflexivity. }
  destruct (deepEqualSlice String.eqb actual expected) eqn:Heq; cbn [negb].
  - intros [= <-]. split; [done|]. intros x Hx Hnx.
    apply deepEqualSlice_elems in Heq. by rewrite Heq in Hnx.
  - intros Hloop. split.
    + eapply forEach_grows; [|done]. intros ? ? ? H. by apply Hbody in H as [? _].
    + intros x Hx Hnx.
      eapply forEach_visits in Hloop as (s1 & s2 & Hstep & Hs2); [|..|done].
      2:{ intros ? ? ? H. by apply Hbody in H as [? _]. }
      apply Hs2. apply Hbody in Hstep as [_ Hstep]. apply Hstep.
      unfold findExpectedString. apply not_true_is_false. intros Hfound.
      apply existsb_exists in Hfound as (a & Ha & Heqb).
      apply String.eqb_eq in Heqb as <-. by apply Hnx, list_elem_of_In.
Qed.

Lemma errors_reported (c : option comparer) (expected actual : gomap string)
    (s s' : slice ValidationError) :
  (if negb (mapsEqual String.eqb expected actual) then
     forEach
       (λ errors (entry : string * string),
          let '(k, eerr) := entry in
          r ← compareErrors c eerr (index actual k ""); appendIfOk errors r)
       (range expected) s
   else Ok s) = Ok s' →
  elems s ⊆ elems s'
  ∧ ∀ k e, entries expected !! k = Some e → index actual k "" ≠ e →
           notFound "error" e ∈ elems s'.
Proof.
  assert (∀ s k e s', (r ← compareErrors c e (index actual k ""); appendIfOk s r) = Ok s' →
            elems s ⊆ elems s'
            ∧ (index actual k "" ≠ e → notFound "error" e ∈ elems s'))
    as Hbody.
  { clear s s'. intros s k e s'. destruct c as [c|]; [|done].
    cbn [compareErrors orPanic mbind result_bind bind]. unfold kantra_compareErrors.
    destruct (String.eqb_spec e (index actual k "")) as [->|Hne];
      cbn [negb appendIfOk orPanic mbind result_bind bind]; intros [= <-]; [done|].
    rewrite ?elems_append; cbn [elems]. split; [set_solver|]. intros _.
    apply elem_of_app. right. apply list_elem_of_singleton. reflexivity. }
  destruct (mapsEqual String.eqb expected actual) eqn:Heq; cbn [negb].
  - intros [= <-]. split; [done|]. intros k e Hk Hne.
    by apply (mapsEqual_index _ _ _ _ Heq) in Hk.
  - intros Hloop. split.
    + eapply forEach_grows; [|done]. intros ? [? ?] ? H. by apply Hbody in H as [? _].
    + intros k e Hk Hne.
      eapply (forEach_visits _ _ (k, e)) in Hloop as (s1 & s2 & Hstep & Hs2).
      * apply Hs2. apply Hbody in Hstep as [_ Hstep]. by apply Hstep.
      * intros ? [? ?] ? H. by apply Hbody in H as [? _].
      * by apply elem_of_map_to_list.
Qed.

Lemma findings_grow (c : option comparer) (opening : string)
    (expected actual : gomap konveyor.Violation) (b : bool) (s s' : slice ValidationError) :
  (if b then compareFindings X c opening expected actual s else Ok s) = Ok s' →
  elems s ⊆ elems s'.
Proof.
  destruct b; [|by intros [= <-]].
  intros H%compareFindings_adds. by eapply adds_subseteq.
Qed.

(** What the comparison of a matched pair reports: every expected
    error, tag, unmatched rule and skipped rule that the actual
    ruleset lacks. *)
Lemma compareRuleSets_reports (c : option comparer) (ers rs : konveyor.RuleSet)
    (s s' : slice ValidationError) :
  compareRuleSets X c ers rs s = Ok s' →
  elems s ⊆ elems s'
  ∧ (∀ k e, entries (konveyor.Errors ers) !! k = Some e →
            index (konveyor.Errors rs) k "" ≠ e → notFound "error" e ∈ elems s')
  ∧ (∀ t, t ∈ elems (konveyor.Tags ers) → t ∉ elems (konveyor.Tags rs) →
          notFound "tag" t ∈ elems s')
  ∧ (∀ u, u ∈ elems (konveyor.Unmatched ers) → u ∉ elems (konveyor.Unmatched rs) →
          notFound "unmatched rule" u ∈ elems s')
  ∧ (∀ u, u ∈ elems (konveyor.Skipped ers) → u ∉ elems (konveyor.Skipped rs) →
          notFound "skipped rule" u ∈ elems s').
Proof.
  unfold compareRuleSets.
  intros (s1 & [H1 He]%errors_reported & H)%bind_inv.
  apply bind_inv in H as (s2 & [H2 Ht]%(strings_reported compareTag "tag") & H); [|auto].
  apply bind_inv in H as (s3 & H3%findings_grow & H).
  apply bind_inv in H as (s4 & H4%findings_grow & H).
  apply bind_inv in H
    as (s5 & [H5 Hu]%(strings_reported compareUnmatched "unmatched rule") & H); [|auto].
  apply (strings_reported compareSkipped "skipped rule") in H as [H6 Hs]; [|auto].
  split_and!; [set_solver | intros k e Hk Hne | intros t Hin Hout
               | intros u Hin Hout | intros u Hin Hout].
  - specialize (He k e Hk Hne). set_solver.
  - specialize (Ht t Hin Hout). set_solver.
  - specialize (Hu u Hin Hout). set_solver.
  - by apply Hs.
Qed.

(** X14: what a same-named actual ruleset lacks is reported.  For
    an expected and an actual ruleset of one name, a result of
    [ValidateFiles] holds an error for every expected error text
    that differs from the text the actual ruleset has under the same
    key, a key the actual ruleset lacks counting as the empty text,
    and for every expected tag, unmatched rule and skipped rule that
    is not in the actual list. *)
Theorem ValidateFiles_reports_missing (testDir targetType : string)
    (actual expected : slice konveyor.RuleSet) (r : ValidationResult)
    (ers rs : konveyor.RuleSet) :
  ValidateFiles X testDir targetType actual expected = Ok r →
  ers ∈ elems expected → rs ∈ elems actual →
  konveyor.Name rs = konveyor.Name ers →
  (∀ k e, entries (konveyor.Errors ers) !! k = Some e →
          index (konveyor.Errors rs) k "" ≠ e →
          notFound "error" e ∈ elems (Errors r))
  ∧ (∀ t, t ∈ elems (konveyor.Tags ers) → t ∉ elems (konveyor.Tags rs) →
          notFound "tag" t ∈ elems (Errors r))
  ∧ (∀ u, u ∈ elems (konveyor.Unmatched ers) → u ∉ elems (konveyor.Unmatched rs) →
          notFound "unmatched rule" u ∈ elems (Errors r))
  ∧ (∀ u, u ∈ elems (konveyor.Skipped ers) → u ∉ elems (konveyor.Skipped rs) →
          notFound "skipped rule" u ∈ elems (Errors r)).
Proof.
  unfold ValidateFiles. cbv zeta. intros (errors & Hloop & [= <-])%bind_inv Hers Hrs Hname.
  cbn [Errors].
  assert (∀ ers s s',
    forEach (λ errors rs,
               if negb (String.eqb (konveyor.Name rs) (konveyor.Name ers)) then Ok errors
               else compareRuleSets X (getComparer targetType testDir) ers rs errors)
            (elems actual) s = Ok s' → elems s ⊆ elems s') as Hinner.
  { intros ers' s s'. apply forEach_grows. clear. intros s rs s'.
    destruct (negb _); [by intros [= <-]|]. by intros [? _]%compareRuleSets_reports. }
  eapply (forEach_visits _ _ ers) in Hloop as (s1 & s2 & Hstep & Hs2); [|..|done].
  2:{ intros s ers' s' (s3 & H3%Hinner & [= <-])%bind_inv.
      rewrite ?elems_append; cbn [elems]. set_solver. }
  apply bind_inv in Hstep as (s3 & Hstep & [= <-]).
  eapply (forEach_visits _ _ rs) in Hstep as (s4 & s5 & Hpair & Hs5); [|..|done].
  2:{ clear. intros s rs s'.
      destruct (negb _); [by intros [= <-]|]. by intros [? _]%compareRuleSets_reports. }
  rewrite Hname, String.eqb_refl in Hpair. cbn [negb] in Hpair.
  apply compareRuleSets_reports in Hpair as (_ & He & Ht & Hu & Hs).
  rewrite ?elems_append in Hs2; cbn [elems] in Hs2.
  split_and!; [intros k e Hk Hne; specialize (He k e Hk Hne)
              | intros t Hin Hout; specialize (Ht t Hin Hout)
              | intros u Hin Hout; specialize (Hu u Hin Hout)
              | intros u Hin Hout; specialize (Hs u Hin Hout)];
    set_solver.
Qed.

End EngineReports.

Section AbsentFindings.

Import validator props further.

Context (X : External).

Lemma forEach_append_all {A B} (f : A → B) (l : list A) (s : slice B) :
  forEach (λ s x, found ← Ok false; Ok (if negb found then append s [f x] else s)) l s
  = Ok (append s (map f l)).
Proof.
  revert s. induction l as [|x l IH]; intros s; cbn [forEach map]; [done|].
  cbn [mbind result_bind bind negb]. rewrite IH.
  destruct l; cbn [map append elems]; [done|]. by rewrite <- app_assoc.
Qed.

Lemma flat_map_none_found {A B} (f : A → B) (l : list A) :
  flat_map (λ x, if false then [] else [f x]) l = map f l.
Proof. induction l as [|x l IH]; [done|]. cbn. by rewrite IH. Qed.

(** Against the zero value, which stands for a violation that the
    actual map lacks, a comparison returns, with an error unless the
    expected violation is blank. *)
Lemma compareViolation_zero (c : comparer) (expected : konveyor.Violation) :
  ∃ errs, compareViolation X (Some c) expected konveyor.zeroViolation
          = Ok (errs, negb (blank expected)).
Proof.
  unfold compareViolation. cbn [orPanic mbind result_bind bind].
  destruct c as [k|t]; unfold kantra_compareViolation, tackle2Hub_compareViolation;
    cbv zeta; rewrite compareFields_errors;
    cbn [konveyor.zeroViolation konveyor.Category konveyor.Effort konveyor.Links
         konveyor.Labels konveyor.Incidents elems searchIncidents];
    unfold linkFound, findExpectedString; cbn [elems existsb];
    rewrite !flat_map_none_found.
  - rewrite (forEach_append_all (λ i, i)). cbn [mbind result_bind bind].
    eexists. do 2 f_equal. unfold blank, len. rewrite map_id.
    destruct (ptrEq (konveyor.Category expected) None),
             (ptrEq (konveyor.Effort expected) None),
             (elems (konveyor.Links expected)),
             (elems (konveyor.Labels expected)),
             (elems (konveyor.Incidents expected)); reflexivity.
  - rewrite (forEach_append_all (incidentError X expected)).
    cbn [mbind result_bind bind].
    eexists. do 2 f_equal. unfold blank, len.
    destruct (ptrEq (konveyor.Category expected) None),
             (ptrEq (konveyor.Effort expected) None),
             (elems (konveyor.Links expected)),
             (elems (konveyor.Labels expected)),
             (elems (konveyor.Incidents expected)); reflexivity.
Qed.

Lemma deepEqualMap_keys {V} (eq : V → V → bool) (m1 m2 : gomap V) (k : string) :
  deepEqualMap eq m1 m2 = true → is_Some (entries m2 !! k) → is_Some (entries m1 !! k).
Proof.
  destruct m1 as [g1|], m2 as [g2|]; cbn [deepEqualMap entries]; try done.
  intros [Hsize%Nat.eqb_eq Hall]%andb_true_iff Hk.
  rewrite forallb_forall in Hall.
  assert (dom g1 ⊆ dom g2) as Hsub.
  { intros k' [v1 Hv1]%elem_of_dom.
    apply elem_of_map_to_list, list_elem_of_In, Hall in Hv1.
    apply elem_of_dom. by destruct (g2 !! k'). }
  apply set_subseteq_size_eq in Hsub; [|rewrite !size_dom; lia].
  apply elem_of_dom. rewrite Hsub. by apply elem_of_dom.
Qed.

Lemma summary_opening (opening : string) (err : slice ValidationError) :
  HasPrefix (summary opening err) opening = true.
Proof.
  unfold summary, HasPrefix.
  apply (fold_left_invariant (λ m, String.prefix opening m = true)).
  - apply prefix_app. clear. induction opening as [|c p IH]; [done|].
    simpl. by destruct (ascii_dec c c).
  - intros m e Hm. by apply prefix_app.
Qed.

(** The loop over the expected findings only adds errors, and adds
    the summed error for every finding whose comparison reports. *)
Lemma compareFindings_reports (c : option comparer) (opening : string)
    (expected actual : gomap konveyor.Violation) (s s' : slice ValidationError)
    (k : string) (v : konveyor.Violation) :
  compareFindings X c opening expected actual s = Ok s' →
  entries expected !! k = Some v →
  ∃ err ok, compareViolation X c v (index actual k konveyor.zeroViolation) = Ok (err, ok)
            ∧ (ok = true → summed opening v err ∈ elems s').
Proof.
  unfold compareFindings. intros Hloop Hk.
  eapply (forEach_visits _ _ (k, v)) in Hloop as (s1 & s2 & Hstep & Hs2).
  - apply bind_inv in Hstep as ([err ok] & Hcompare & Hstep). exists err, ok.
    split; [done|]. intros ->. injection Hstep as <-. apply Hs2.
    rewrite ?elems_append. cbn [elems]. apply elem_of_app. right. by constructor.
  - clear. intros s [k v] s' ([err ok] & _ & Hstep)%bind_inv.
    destruct ok; injection Hstep as <-; [|done].
    rewrite ?elems_append. cbn [elems]. set_solver.
  - by apply elem_of_map_to_list.
Qed.

Lemma compareRuleSets_findings (c : option comparer) (ers rs : konveyor.RuleSet)
    (s s' : slice ValidationError) (k : string) (v : konveyor.Violation) :
  compareRuleSets X c ers rs s = Ok s' →
  (deepEqualMap konveyor.deepEqualViolation (konveyor.Insights rs) (konveyor.Insights ers)
   = false →
   entries (konveyor.Insights ers) !! k = Some v →
   ∃ err ok, compareViolation X c v (index (konveyor.Insights rs) k konveyor.zeroViolation)
             = Ok (err, ok)
             ∧ (ok = true → summed "Did not find Insights" v err ∈ elems s'))
  ∧ (deepEqualMap konveyor.deepEqualViolation
       (konveyor.Violations rs) (konveyor.Violations ers) = false →
     entries (konveyor.Violations ers) !! k = Some v →
     ∃ err ok, compareViolation X c v
                 (index (konveyor.Violations rs) k konveyor.zeroViolation) = Ok (err, ok)
               ∧ (ok = true → summed "Did not find violations" v err ∈ elems s')).
Proof.
  unfold compareRuleSets.
  intros (s1 & _ & H)%bind_inv.
  apply bind_inv in H as (s2 & _ & H).
  apply bind_inv in H as (s3 & H3 & H).
  apply bind_inv in H as (s4 & H4 & H).
  apply bind_inv in H
    as (s5 & [H5 _]%(strings_reported compareUnmatched "unmatched rule") & H); [|auto].
  apply (strings_reported compareSkipped "skipped rule") in H as [H6 _]; [|auto].
  split; intros Hne Hk.
  - rewrite Hne in H3. cbn [negb] in H3. apply findings_grow in H4.
    destruct (compareFindings_reports _ _ _ _ _ _ _ _ H3 Hk) as (err & ok & Hcompare & Hin).
    exists err, ok. split; [done|]. intros Hok. specialize (Hin Hok). set_solver.
  - rewrite Hne in H4. cbn [negb] in H4.
    destruct (compareFindings_reports _ _ _ _ _ _ _ _ H4 Hk) as (err & ok & Hcompare & Hin).
    exists err, ok. split; [done|]. intros Hok. specialize (Hin Hok). set_solver.
Qed.

Lemma absent_reported (c : option comparer) (opening : string)
    (expected actual : gomap konveyor.Violation) (k : string) (v : konveyor.Violation)
    (errors : list ValidationError) :
  blank v = false →
  entries expected !! k = Some v → entries actual !! k = None →
  (deepEqualMap konveyor.deepEqualViolation actual expected = false →
   ∃ err ok, compareViolation X c v (index actual k konveyor.zeroViolation) = Ok (err, ok)
             ∧ (ok = true → summed opening v err ∈ errors)) →
  ∃ e, e ∈ errors ∧ Expected e = ofViolation v ∧ HasPrefix (Message e) opening = true.
Proof.
  intros Hblank Hk Hnone Hreports.
  destruct Hreports as (err & ok & Hcompare & Hin).
  { apply not_true_is_false. intros Heq.
    apply (deepEqualMap_keys _ _ _ k) in Heq as [? ?]; [congruence | by eexists]. }
  unfold index in Hcompare. rewrite Hnone in Hcompare. destruct c as [c|]; [|done].
  destruct (compareViolation_zero c v) as [errs Hzero].
  rewrite Hzero, Hblank in Hcompare. injection Hcompare as <- <-.
  exists (summed opening v errs). split_and!; [by apply Hin | done |].
  apply summary_opening.
Qed.

(** X15: a violation or an insight that a same-named actual
    ruleset lacks is reported, unless it is blank.  For an expected
    and an actual ruleset of one name, and an expected violation
    (insight) with a category, an effort, a link, a label or an
    incident whose key the actual violations (insights) do not have, a
    result of [ValidateFiles] holds an error that carries the expected
    violation and opens with [Did not find violations]
    ([Did not find Insights]). *)
Theorem ValidateFiles_reports_absent (testDir targetType : string)
    (actual expected : slice konveyor.RuleSet) (r : ValidationResult)
    (ers rs : konveyor.RuleSet) (k : string) (v : konveyor.Violation) :
  ValidateFiles X testDir targetType actual expected = Ok r →
  ers ∈ elems expected → rs ∈ elems actual →
  konveyor.Name rs = konveyor.Name ers →
  blank v = false →
  (entries (konveyor.Violations ers) !! k = Some v →
   entries (konveyor.Violations rs) !! k = None →
   ∃ e, e ∈ elems (Errors r) ∧ Expected e = ofViolation v
        ∧ HasPrefix (Message e) "Did not find violations" = true)
  ∧ (entries (konveyor.Insights ers) !! k = Some v →
     entries (konveyor.Insights rs) !! k = None →
     ∃ e, e ∈ elems (Errors r) ∧ Expected e = ofViolation v
          ∧ HasPrefix (Message e) "Did not find Insights" = true).
Proof.
  unfold ValidateFiles. cbv zeta.
  intros (errors & Hloop & [= <-])%bind_inv Hers Hrs Hname Hblank. cbn [Errors].
  assert (∀ ers s s',
    forEach (λ errors rs,
               if negb (String.eqb (konveyor.Name rs) (konveyor.Name ers)) then Ok errors
               else compareRuleSets X (getComparer targetType testDir) ers rs errors)
            (elems actual) s = Ok s' → elems s ⊆ elems s') as Hinner.
  { intros ers' s s'. apply forEach_grows. clear. intros s rs s'.
    destruct (negb _); [by intros [= <-]|]. by intros [? _]%compareRuleSets_reports. }
  eapply (forEach_visits _ _ ers) in Hloop as (s1 & s2 & Hstep & Hs2); [|..|done].
  2:{ intros s ers' s' (s3 & H3%Hinner & [= <-])%bind_inv.
      rewrite ?elems_append; cbn [elems]. set_solver. }
  apply bind_inv in Hstep as (s3 & Hstep & [= <-]).
  eapply (forEach_visits _ _ rs) in Hstep as (s4 & s5 & Hpair & Hs5); [|..|done].
  2:{ clear. intros s rs s'.
      destruct (negb _); [by intros [= <-]|]. by intros [? _]%compareRuleSets_reports. }
  rewrite Hname, String.eqb_refl in Hpair. cbn [negb] in Hpair.
  rewrite ?elems_append in Hs2; cbn [elems] in Hs2.
  apply (compareRuleSets_findings _ _ _ _ _ k v) in Hpair as [Hinsights Hviolations].
  split; intros Hk Hnone.
  - destruct (absent_reported (getComparer targetType testDir) "Did not find violations" _ _ k v (elems s5) Hblank Hk Hnone)
      as (e & He & Hexp & Hmsg).
    { intros Hne. by apply Hviolations. }
    exists e. split_and!; [set_solver | done..].
  - destruct (absent_reported (getComparer targetType testDir) "Did not find Insights" _ _ k v (elems s5) Hblank Hk Hnone)
      as (e & He & Hexp & Hmsg).
    { intros Hne. by apply Hinsights. }
    exists e. split_and!; [set_solver | done..].
Qed.

End AbsentFindings.

Section EngineTargets.

Import validator props further.

Context (X : External).

Lemma compareRuleSets_receiver (c c' : comparer) (ers rs : konveyor.RuleSet)
    (errors : slice ValidationError) :
  receiver c = receiver c' →
  range (konveyor.Insights ers) = [] → range (konveyor.Violations ers) = [] →
  compareRuleSets X (Some c) ers rs errors = compareRuleSets X (Some c') ers rs errors.
Proof.
  intros Hreceiver Hinsights Hviolations. unfold compareRuleSets, compareFindings.
  rewrite Hinsights, Hviolations.
  cbn [compareErrors compareTag compareUnmatched compareSkipped
       orPanic mbind result_bind bind forEach].
  by rewrite Hreceiver.
Qed.

(** X16: the targets that share a comparison.  [ValidateFiles]
    gives one outcome for the targets kantra, tackle-ui, kai-rpc and
    vscode; and the outcome for tackle-hub is the same again when no
    expected ruleset holds a violation or an insight, since errors,
    tags, unmatched and skipped rules are compared by the methods that
    tackle-hub takes over from kantra. *)
Theorem ValidateFiles_targets (testDir targetType : string)
    (actual expected : slice konveyor.RuleSet) :
  targetType ∈ knownTargets →
  (targetType ≠ "tackle-hub" →
   ValidateFiles X testDir targetType actual expected
   = ValidateFiles X testDir "kantra" actual expected)
  ∧ ((∀ ers, ers ∈ elems expected →
        range (konveyor.Insights ers) = [] ∧ range (konveyor.Violations ers) = []) →
     ValidateFiles X testDir targetType actual expected
     = ValidateFiles X testDir "kantra" actual expected).
Proof.
  unfold knownTargets. rewrite !elem_of_cons, elem_of_nil.
  intros [-> | [-> | [-> | [-> | [-> | []]]]]]; (split; [done|]); try done.
  intros Hfindings. unfold ValidateFiles. cbv zeta. f_equal.
  apply forEach_ext. intros s ers Hers. f_equal.
  apply forEach_ext. intros s' rs _. destruct (negb _); [done|].
  destruct (Hfindings ers Hers) as [Hinsights Hviolations].
  by apply compareRuleSets_receiver.
Qed.

End EngineTargets.

(** ** The comparers, further *)

Section ComparersFurther.

Import validator props further.

Context (X : External).

Lemma existsb_eq {A} (f g : A → bool) (l l' : list A) :
  (∀ x, x ∈ l → f x = true → ∃ y, y ∈ l' ∧ g y = true) →
  (∀ y, y ∈ l' → g y = true → ∃ x, x ∈ l ∧ f x = true) →
  existsb f l = existsb g l'.
Proof.
  intros Hfg Hgf. apply eq_true_iff_eq. rewrite !existsb_exists. split.
  - intros (x & Hx%list_elem_of_In & Hf). destruct (Hfg x Hx Hf) as (y & Hy & Hg).
    exists y. by split; [apply list_elem_of_In|].
  - intros (y & Hy%list_elem_of_In & Hg). destruct (Hgf y Hy Hg) as (x & Hx & Hf).
    exists x. by split; [apply list_elem_of_In|].
Qed.

Lemma linkFound_titles (l : konveyor.Link) (actual actual' : slice konveyor.Link) :
  (∀ t, t ∈ map konveyor.Title (elems actual') ↔ t ∈ map konveyor.Title (elems actual)) →
  linkFound l actual' = linkFound l actual.
Proof.
  intros Htitles. unfold linkFound.
  apply existsb_eq; intros al Hal Hfound;
    apply (list_elem_of_fmap_2 konveyor.Title) in Hal;
    apply Htitles in Hal; apply list_elem_of_fmap in Hal as (al' & Heq & Hal');
    exists al'; (split; [done|]); by rewrite <- Heq.
Qed.

Lemma findExpectedString_members (l : string) (actual actual' : slice string) :
  (∀ a, a ∈ elems actual' ↔ a ∈ elems actual) →
  findExpectedString l actual' = findExpectedString l actual.
Proof.
  intros Hmembers. unfold findExpectedString.
  apply existsb_eq; intros a Ha Hfound; exists a; (split; [by apply Hmembers | done]).
Qed.

Lemma compareFields_reads (expected actual actual' : konveyor.Violation) :
  konveyor.Category actual' = konveyor.Category actual →
  konveyor.Effort actual' = konveyor.Effort actual →
  (∀ t, t ∈ map konveyor.Title (elems (konveyor.Links actual'))
        ↔ t ∈ map konveyor.Title (elems (konveyor.Links actual))) →
  (∀ a, a ∈ elems (konveyor.Labels actual') ↔ a ∈ elems (konveyor.Labels actual)) →
  compareFields X expected actual' = compareFields X expected actual.
Proof.
  intros Hcategory Heffort Hlinks Hlabels. rewrite !compareFields_errors.
  rewrite Hcategory, Heffort. do 3 f_equal. f_equal.
  - apply flat_map_ext. intros l. by rewrite (linkFound_titles _ _ _ Hlinks).
  - apply flat_map_ext. intros l. by rewrite (findExpectedString_members _ _ _ Hlabels).
Qed.

(** X17: what a comparison reads of the actual violation.  The
    outcome depends on the actual violation through its category,
    its effort, the titles of its links, the members of its label
    list and its incidents only: the URLs of the actual links and the
    description are not read, and neither the order nor the
    multiplicity of links and labels counts. *)
Theorem compareViolation_reads (c : option comparer)
    (expected actual actual' : konveyor.Violation) :
  konveyor.Category actual' = konveyor.Category actual →
  konveyor.Effort actual' = konveyor.Effort actual →
  konveyor.Incidents actual' = konveyor.Incidents actual →
  (∀ t, t ∈ map konveyor.Title (elems (konveyor.Links actual'))
        ↔ t ∈ map konveyor.Title (elems (konveyor.Links actual))) →
  (∀ a, a ∈ elems (konveyor.Labels actual') ↔ a ∈ elems (konveyor.Labels actual)) →
  compareViolation X c expected actual' = compareViolation X c expected actual.
Proof.
  intros Hcategory Heffort Hincidents Hlinks Hlabels.
  pose proof (compareFields_reads expected _ _ Hcategory Heffort Hlinks Hlabels) as Hfields.
  unfold compareViolation. destruct c as [[k|t]|]; [| |done];
    cbn [orPanic mbind result_bind bind];
    unfold kantra_compareViolation, tackle2Hub_compareViolation, missingError;
    by rewrite Hfields, Hincidents.
Qed.

End ComparersFurther.

Section SelfComparison.

Import validator props further.

Context (X : External).

Lemma withIncidents_same (v : konveyor.Violation) :
  withIncidents v (konveyor.Incidents v) = v.
Proof. by destruct v. Qed.

(** Among the links of one list, a link is found exactly when its
    URL is its title. *)
Lemma linkFound_own (l : konveyor.Link) (links : slice konveyor.Link) :
  l ∈ elems links →
  linkFound l links = String.eqb (konveyor.URL l) (konveyor.Title l).
Proof.
  intros Hl. unfold linkFound.
  destruct (String.eqb_spec (konveyor.URL l) (konveyor.Title l)) as [Heq|Hne].
  - apply existsb_exists. exists l. split; [by apply list_elem_of_In|].
    by rewrite Heq, String.eqb_refl.
  - apply not_true_is_false. intros (al & _ & [Ht Hu]%andb_true_iff)%existsb_exists.
    apply String.eqb_eq in Ht, Hu. congruence.
Qed.

Lemma flat_map_filter {A B} (found : A → bool) (f : A → B) (l : list A) :
  flat_map (λ x, if found x then [] else [f x]) l
  = map f (List.filter (λ x, negb (found x)) l).
Proof.
  induction l as [|x l IH]; [done|]. cbn [flat_map List.filter].
  destruct (found x); cbn [negb app map]; by rewrite IH.
Qed.

Lemma filter_ext_elem {A} (f g : A → bool) (l : list A) :
  (∀ x, x ∈ l → f x = g x) → List.filter f l = List.filter g l.
Proof.
  induction l as [|x l IH]; intros Hfg; [done|]. cbn [List.filter].
  rewrite (Hfg x) by constructor. rewrite IH; [done|].
  intros ? ?. apply Hfg. by constructor.
Qed.

(** X18: a violation against itself.  When the file of every
    incident lies under [testDir/source], either comparer finds every
    incident, and reports exactly the links whose URL is not their
    title. *)
Theorem compareViolation_self (c : comparer) (v : konveyor.Violation) :
  Forall (underSource X (testDir (receiver c))) (elems (konveyor.Incidents v)) →
  let reported :=
    List.filter (λ l, negb (String.eqb (konveyor.URL l) (konveyor.Title l)))
                (elems (konveyor.Links v)) in
  compareViolation X (Some c) v v
  = Ok (Some (map (linkError X v) reported), nonEmpty reported).
Proof.
  intros Hunder reported.
  assert (compareFields X v v = Some (map (linkError X v) reported)) as Hfields.
  { rewrite <- (withIncidents_same v) at 2. rewrite compareFields_same, flat_map_filter.
    do 2 f_equal. apply filter_ext_elem. intros l Hl. by rewrite linkFound_own. }
  rewrite Forall_forall in Hunder.
  unfold compareViolation. cbn [orPanic mbind result_bind bind].
  destruct c as [k|t]; cbn [receiver] in Hunder;
    unfold kantra_compareViolation, tackle2Hub_compareViolation; cbv zeta;
    rewrite Hfields; rewrite forEach_unchanged.
  - cbn [mbind result_bind bind]. change (0 <? len None)%nat with false. cbn iota.
    unfold len. cbn [elems]. rewrite length_map. by destruct reported.
  - intros s i Hi. rewrite (search_finds _ _ i); [done | | done |].
    + apply Forall_forall. intros ai Hai. apply kantra_turn_total; by apply Hunder.
    + apply kantra_turn_self. by apply Hunder.
  - cbn [mbind result_bind bind]. unfold len. cbn [elems]. rewrite length_map.
    by destruct reported.
  - intros s i Hi. rewrite (search_finds _ _ i); [done | | done |].
    + apply Forall_forall. intros ai Hai. apply comparePaths_total; by apply Hunder.
    + unfold tackle2Hub_turn. rewrite comparePaths_same_file by (by try apply Hunder).
      by rewrite compareRest_same.
Qed.

End SelfComparison.

Section ComparerVerdicts.

Import validator props further.

Context (X : External).

Lemma len_zero {A} (s : slice A) : negb (len s =? 0)%nat = nonEmpty (elems s).
Proof. unfold len. by destruct (elems s). Qed.

(** The errors of a comparison open with those of the field checks,
    and the flag tells whether there is an error. *)
Lemma compareViolation_fields (c : comparer) (expected actual : konveyor.Violation)
    (errs : slice ValidationError) (ok : bool) :
  compareViolation X (Some c) expected actual = Ok (errs, ok) →
  (∃ more, elems errs = elems (compareFields X expected actual) ++ more)
  ∧ ok = nonEmpty (elems errs).
Proof.
  unfold compareViolation. cbn [orPanic mbind result_bind bind].
  destruct c as [k|t]; unfold kantra_compareViolation, tackle2Hub_compareViolation;
    cbv zeta; intros (s & Hloop & [= <- <-])%bind_inv; (split; [|apply len_zero]).
  - destruct (0 <? len s)%nat; [|exists []; by rewrite app_nil_r].
    rewrite compareFields_errors. cbn [append elems]. by eexists.
  - apply forEach_adds with (P := λ _, True) in Hloop as (more & -> & _); [by eexists|].
    clear. intros s i s' (found & _ & [= <-])%bind_inv.
    destruct (negb found); [by apply adds_append | apply adds_refl].
Qed.

(** X19: category and effort are compared by address.  When the
    two category pointers (or the two effort pointers) are not the
    same pointer, the comparison reports the category (the effort),
    whatever the two pointers point to. *)
Theorem compareViolation_pointer_identity (c : comparer)
    (expected actual : konveyor.Violation) (errs : slice ValidationError) (ok : bool) :
  compareViolation X (Some c) expected actual = Ok (errs, ok) →
  (ptrEq (konveyor.Category expected) (konveyor.Category actual) = false →
   categoryError X expected ∈ elems errs ∧ ok = true)
  ∧ (ptrEq (konveyor.Effort expected) (konveyor.Effort actual) = false →
     effortError X expected ∈ elems errs ∧ ok = true).
Proof.
  intros [[more Herrs] ->]%compareViolation_fields.
  rewrite Herrs, compareFields_errors. cbn [elems].
  split; intros ->.
  - split; [set_solver | done].
  - split; [set_solver|]. by destruct (ptrEq _ _).
Qed.

(** *** The two comparers on one pair *)

Lemma search_matched (body : konveyor.Incident → result turn)
    (actual : list konveyor.Incident) :
  searchIncidents body actual false = Ok true →
  ∃ ai, ai ∈ actual ∧ body ai = Ok match_.
Proof.
  induction actual as [|ai actual IH]; cbn [searchIncidents]; [done|].
  intros (t & Ht & Hrest)%bind_inv. destruct t.
  - destruct (IH Hrest) as (aj & Haj & Hm). exists aj. split; [by constructor | done].
  - done.
  - exists ai. split; [constructor | done].
Qed.

Lemma kantra_turn_match (k : kantra) (i ai : konveyor.Incident) :
  konveyor.URI i ≠ "" → kantra_turn X k i ai = Ok match_ →
  comparePaths X (testDir k) i ai = Ok match_.
Proof.
  intros Hi. unfold kantra_turn. destruct (negb _); [done|].
  apply String.eqb_neq in Hi as Hi'. rewrite Hi'. cbn [orb].
  destruct (String.eqb_spec (konveyor.URI ai) "") as [Hai|_]; [|done].
  rewrite Hai, Hi'. done.
Qed.

(** An expected incident with a URI that the kantra comparer finds
    is found by the tackle-hub comparer, unless its search panics. *)
Lemma search_hub (k : kantra) (i : konveyor.Incident)
    (actual : list konveyor.Incident) (found : bool) :
  konveyor.URI i ≠ "" →
  searchIncidents (kantra_turn X k i) actual false = Ok true →
  searchIncidents (tackle2Hub_turn X {| embedded := k |} i) actual false = Ok found →
  found = true.
Proof.
  intros Hi (ai & Hai & Hm%kantra_turn_match)%search_matched; [|done].
  unfold tackle2Hub_turn. cbn [embedded].
  destruct (comparePaths_turns X (testDir k) i) as [Hleave|Hleave];
    [|by rewrite Hleave in Hm].
  rewrite search_without_leave by (apply Forall_forall; intros; apply Hleave).
  destruct (existsb _ actual); [done|]. intros [= <-]. cbn [orb].
  apply existsb_exists. exists ai. split; [by apply list_elem_of_In | by rewrite Hm].
Qed.

Lemma forEach_longer {A B} (search : A → result bool) (f : A → B)
    (l : list A) (s s' : slice B) :
  forEach (λ s x, found ← search x; Ok (if negb found then append s [f x] else s)) l s
  = Ok s' →
  (len s ≤ len s')%nat.
Proof.
  revert s. induction l as [|x l IH]; intros s; cbn [forEach]; [by intros [= <-]|].
  intros (s1 & (found & _ & [= <-])%bind_inv & Hl%IH)%bind_inv.
  destruct (negb found); [|done].
  unfold len in *. rewrite ?elems_append in Hl. cbn [elems] in Hl.
  rewrite length_app in Hl. lia.
Qed.

Lemma forEach_all_found {A B} (search : A → result bool) (f : A → B)
    (l : list A) (s s' : slice B) :
  forEach (λ s x, found ← search x; Ok (if negb found then append s [f x] else s)) l s
  = Ok s' →
  len s' = len s → ∀ x, x ∈ l → search x = Ok true.
Proof.
  revert s. induction l as [|x l IH]; intros s; cbn [forEach].
  - intros _ _ y Hy. by apply elem_of_nil in Hy.
  - intros (s1 & (found & Hfound & [= <-])%bind_inv & Hl)%bind_inv Hs' y Hy.
    destruct found; cbn [negb] in Hl.
    + apply elem_of_cons in Hy as [->|Hy]; [done | by eapply IH].
    + exfalso. apply forEach_longer in Hl.
      unfold len in *. rewrite ?elems_append in Hl. cbn [elems] in Hl.
      rewrite length_app in Hl. cbn in Hl. lia.
Qed.

Lemma forEach_keeps {A S} (P : S → Prop) (body : S → A → result S)
    (l : list A) (s s' : S) :
  P s → (∀ s x s', x ∈ l → P s → body s x = Ok s' → P s') →
  forEach body l s = Ok s' → P s'.
Proof.
  revert s. induction l as [|x l IH]; intros s Hs Hbody; cbn [forEach];
    [by intros [= <-]|].
  intros (s1 & Hx & Hl)%bind_inv. apply (IH s1); [|intros ? ? ? ?|done].
  - apply (Hbody s x); [constructor | done..].
  - apply Hbody. by constructor.
Qed.

(** X20: on incidents that name a file, the tackle-hub comparer
    accepts what the kantra comparer accepts.  When every expected
    incident has a URI and the kantra comparer reports no error, the
    tackle-hub comparer for the same test folder, if it returns,
    reports none either. *)
Theorem tackle2Hub_accepts_what_kantra_accepts (k : kantra)
    (expected actual : konveyor.Violation) (errs errs' : slice ValidationError)
    (ok' : bool) :
  (∀ i, i ∈ elems (konveyor.Incidents expected) → konveyor.URI i ≠ "") →
  compareViolation X (Some (kantraComparer k)) expected actual = Ok (errs, false) →
  compareViolation X (Some (tackle2HubComparer {| embedded := k |})) expected actual
  = Ok (errs', ok') →
  len errs' = 0%nat ∧ ok' = false.
Proof.
  intros Huri Hkantra Hhub.
  assert (elems (compareFields X expected actual) = []) as Hfields.
  { apply compareViolation_fields in Hkantra as [[more Herrs] Hok].
    destruct (elems errs); [|done]. symmetry in Herrs. by apply app_eq_nil in Herrs as [? _]. }
  assert (∀ i, i ∈ elems (konveyor.Incidents expected) →
            searchIncidents (kantra_turn X k i) (elems (konveyor.Incidents actual)) false
            = Ok true) as Hfound.
  { intros i Hi. revert Hkantra. unfold compareViolation. cbn [orPanic mbind result_bind bind].
    unfold kantra_compareViolation. cbv zeta.
    intros (missing & Hloop & [= Herrs Hok])%bind_inv.
    apply (forEach_all_found _ (λ i, i) _ _ _ Hloop); [|done].
    unfold len at 2. cbn [elems length]. clear Herrs. revert Hok.
    destruct (0 <? len missing)%nat eqn:Hmissing; [|apply Nat.ltb_ge in Hmissing; lia].
    unfold len. rewrite ?elems_append. cbn [elems]. rewrite length_app. cbn.
    intros Hok%negb_false_iff%Nat.eqb_eq. lia. }
  revert Hhub. unfold compareViolation. cbn [orPanic mbind result_bind bind].
  unfold tackle2Hub_compareViolation. cbv zeta.
  intros (s & Hloop & [= <- <-])%bind_inv.
  assert (s = compareFields X expected actual) as ->.
  { eapply (forEach_keeps (λ s, s = compareFields X expected actual)) in Hloop;
      [done | done |].
    intros s0 i s1 Hi -> (found & Hsearch & [= <-])%bind_inv.
    by rewrite (search_hub k i _ found (Huri i Hi) (Hfound i Hi) Hsearch). }
  unfold len. rewrite Hfields. done.
Qed.

End ComparerVerdicts.

Section Acceptance.

Import validator props further.

Context (X : External).

Lemma compareRest_found (i ai : konveyor.Incident) :
  compareRest i ai = match_ ∧ sameDetails i ai
  ∨ compareRest i ai = skip ∧ ¬ sameDetails i ai.
Proof.
  unfold compareRest, sameDetails.
  destruct (String.eqb_spec (konveyor.Message i) (konveyor.Message ai)) as [Hm|Hm];
    cbn [negb]; [|right; split; [done|]; by intros (? & _)].
  destruct (ptrEq _ _); cbn [negb]; [|right; split; [done|]; by intros (_ & ? & _)].
  destruct (konveyor.deepEqualVariables _ _); cbn [negb]; [by left|].
  right. split; [done|]. by intros (_ & _ & ?).
Qed.

Lemma comparePaths_found (testDir : string) (i ai : konveyor.Incident) :
  (∃ file pathToTest,
     Filename X (konveyor.URI i) = Some file
     ∧ filepathRel X (filepathJoin X testDir "source") file = Some pathToTest) →
  is_Some (Filename X (konveyor.URI ai)) →
  comparePaths X testDir i ai = Ok match_ ∧ samePath X testDir i ai ∧ sameDetails i ai
  ∨ comparePaths X testDir i ai = Ok skip
    ∧ ¬ (samePath X testDir i ai ∧ sameDetails i ai).
Proof.
  intros (file & pathToTest & Hfile & Hrel) [afile Hafile].
  unfold comparePaths, samePath. rewrite Hfile. cbn [orPanic mbind result_bind bind].
  rewrite Hrel, Hafile. cbn [orPanic mbind result_bind bind].
  destruct (Contains afile pathToTest) eqn:Hsub; cbn [negb].
  - destruct (compareRest_found i ai) as [[-> Hd] | [-> Hd]].
    + left. split_and!; [done | by exists file, pathToTest, afile | done].
    + right. split; [done|]. by intros [_ ?].
  - right. split; [done|]. intros [(f & p & a & Hf & Hp & Ha & Hc) _]. congruence.
Qed.

Lemma turn_found (c : comparer) (expected actual : konveyor.Violation)
    (i ai : konveyor.Incident) :
  resolvable X c expected actual →
  i ∈ elems (konveyor.Incidents expected) → ai ∈ elems (konveyor.Incidents actual) →
  let turn := match c with
              | kantraComparer k => kantra_turn X k i ai
              | tackle2HubComparer t => tackle2Hub_turn X t i ai
              end in
  turn = Ok match_ ∧ found X c i ai ∨ turn = Ok skip ∧ ¬ found X c i ai.
Proof.
  intros [Hexpected Hactual] Hi Hai. specialize (Hexpected i Hi). specialize (Hactual ai Hai).
  destruct c as [k|t]; cbn [found filed receiver] in *.
  - unfold kantra_turn.
    destruct (String.eqb_spec (TrimSpace (konveyor.CodeSnip i))
                              (TrimSpace (konveyor.CodeSnip ai))) as [Hsnip|Hsnip];
      cbn [negb]; [|right; split; [done|]; by intros (? & _)].
    destruct (String.eqb_spec (konveyor.URI i) "") as [Hiu|Hiu]; cbn [orb].
    { destruct (String.eqb_spec (konveyor.URI i) (konveyor.URI ai)) as [Huri|Huri];
        cbn [negb]; [|right; split; [done|]; by intros (_ & ? & _)].
      destruct (compareRest_found i ai) as [[-> Hd] | [-> Hd]];
        [by left | right; split; [done|]; by intros (_ & _ & ?)]. }
    destruct (String.eqb_spec (konveyor.URI ai) "") as [Haiu|Haiu].
    { destruct (String.eqb_spec (konveyor.URI i) (konveyor.URI ai)) as [Huri|Huri];
        [congruence|]. cbn [negb]. right. split; [done|]. by intros (_ & ? & _). }
    destruct (comparePaths_found (testDir k) i ai) as [(-> & Hp & Hd) | [-> Hn]]; auto.
    right. split; [done|]. intros (_ & Hp & Hd). by apply Hn.
  - unfold tackle2Hub_turn.
    destruct (comparePaths_found (testDir (embedded t)) i ai) as [(-> & Hp & Hd) | [-> Hn]];
      auto.
Qed.

Lemma search_found (body : konveyor.Incident → result turn) (P : konveyor.Incident → Prop)
    (actual : list konveyor.Incident) (before : bool) :
  (∀ ai, ai ∈ actual → body ai = Ok match_ ∧ P ai ∨ body ai = Ok skip ∧ ¬ P ai) →
  ∃ after, searchIncidents body actual before = Ok after
           ∧ (after = true ↔ before = true ∨ ∃ ai, ai ∈ actual ∧ P ai).
Proof.
  revert before. induction actual as [|ai actual IH]; intros before Hbody.
  - exists before. split; [done|]. split; [by left|]. intros [?|(ai & Hai & _)]; [done|].
    by apply elem_of_nil in Hai.
  - cbn [searchIncidents].
    destruct (Hbody ai) as [[-> Hp] | [-> Hn]]; [constructor| |];
      cbn [mbind result_bind bind].
    + destruct (IH true) as (after & -> & Hafter).
      { intros ? ?. apply Hbody. by constructor. }
      exists after. split; [done|]. split.
      * intros _. right. exists ai. split; [constructor | done].
      * intros _. apply Hafter. by left.
    + destruct (IH before) as (after & -> & Hafter).
      { intros ? ?. apply Hbody. by constructor. }
      exists after. split; [done|]. rewrite Hafter. split.
      * intros [?|(aj & Haj & Hp)]; [by left|]. right. exists aj.
        split; [by constructor | done].
      * intros [?|(aj & [->|Haj]%elem_of_cons & Hp)]; [by left | done |].
        right. by exists aj.
Qed.

Lemma append_append {A} (s : slice A) (xs ys : list A) :
  append (append s xs) ys = append s (xs ++ ys).
Proof.
  destruct xs as [|x xs]; [done|]. destruct ys as [|y ys].
  - by rewrite app_nil_r.
  - cbn [append elems app]. by rewrite <- app_assoc.
Qed.

Lemma forEach_found {A B} (search : A → result bool) (Q : A → Prop) (g : A → B)
    (l : list A) (s : slice B) :
  (∀ x, x ∈ l → ∃ b, search x = Ok b ∧ (b = true ↔ Q x)) →
  ∃ more,
    forEach (λ s x, found ← search x; Ok (if negb found then append s [g x] else s)) l s
    = Ok (append s more)
    ∧ (more = [] ↔ ∀ x, x ∈ l → Q x).
Proof.
  revert s. induction l as [|x l IH]; intros s Hsearch.
  - exists []. split; [done|]. split; [|done]. intros _ x Hx. by apply elem_of_nil in Hx.
  - cbn [forEach]. destruct (Hsearch x) as (b & -> & Hb); [constructor|].
    cbn [mbind result_bind bind].
    destruct (IH (if negb b then append s [g x] else s)) as (more & -> & Hmore).
    { intros ? ?. apply Hsearch. by constructor. }
    destruct b; cbn [negb].
    + exists more. split; [done|]. rewrite Hmore. split.
      * intros Hl y [->|Hy]%elem_of_cons; [by apply Hb | by apply Hl].
      * intros Hl y Hy. apply Hl. by constructor.
    + exists (g x :: more). split; [by rewrite append_append|]. split; [done|].
      intros Hl. assert (false = true) as Hfalse; [|done].
      apply Hb, Hl. constructor.
Qed.

Lemma flat_map_nil {A B} (found : A → bool) (f : A → B) (l : list A) :
  flat_map (λ x, if found x then [] else [f x]) l = [] ↔ ∀ x, x ∈ l → found x = true.
Proof.
  induction l as [|x l IH]; cbn [flat_map].
  - split; [|done]. intros _ x Hx. by apply elem_of_nil in Hx.
  - destruct (found x) eqn:Hx; cbn [app].
    + rewrite IH. split.
      * intros Hl y [->|Hy]%elem_of_cons; [done | by apply Hl].
      * intros Hl y Hy. apply Hl. by constructor.
    + split; [done|]. intros Hl. specialize (Hl x ltac:(constructor)). congruence.
Qed.

(** The field checks report nothing exactly when the pointers are
    the same and every expected link and label is found. *)
Lemma compareFields_nil (expected actual : konveyor.Violation) :
  elems (compareFields X expected actual) = []
  ↔ ptrEq (konveyor.Category expected) (konveyor.Category actual) = true
    ∧ ptrEq (konveyor.Effort expected) (konveyor.Effort actual) = true
    ∧ (∀ l, l ∈ elems (konveyor.Links expected) →
            ∃ al, al ∈ elems (konveyor.Links actual)
                  ∧ konveyor.Title al = konveyor.Title l
                  ∧ konveyor.Title al = konveyor.URL l)
    ∧ (∀ l, l ∈ elems (konveyor.Labels expected) → l ∈ elems (konveyor.Labels actual)).
Proof.
  rewrite compareFields_errors. cbn [elems].
  rewrite !app_nil, !flat_map_nil.
  assert (∀ l, linkFound l (konveyor.Links actual) = true
               ↔ ∃ al, al ∈ elems (konveyor.Links actual)
                       ∧ konveyor.Title al = konveyor.Title l
                       ∧ konveyor.Title al = konveyor.URL l) as Hlink.
  { intros l. unfold linkFound. rewrite existsb_exists. split.
    - intros (al & Hal%list_elem_of_In & [Ht Hu]%andb_true_iff).
      apply String.eqb_eq in Ht, Hu. by exists al.
    - intros (al & Hal & Ht & Hu). exists al. split; [by apply list_elem_of_In|].
      by rewrite <- Ht, <- Hu, !String.eqb_refl. }
  assert (∀ l, findExpectedString l (konveyor.Labels actual) = true
               ↔ l ∈ elems (konveyor.Labels actual)) as Hlabel.
  { intros l. unfold findExpectedString. rewrite existsb_exists. split.
    - intros (a & Ha%list_elem_of_In & ->%String.eqb_eq). done.
    - intros Hl. exists l. split; [by apply list_elem_of_In | apply String.eqb_refl]. }
  split.
  - intros (Hc & He & Hl & Hb). split_and!.
    + by destruct (ptrEq _ _).
    + by destruct (ptrEq (konveyor.Effort _) _).
    + intros l Hin. by apply Hlink, Hl.
    + intros l Hin. by apply Hlabel, Hb.
  - intros (-> & -> & Hl & Hb). split_and!; [done | done | |].
    + intros l Hin. by apply Hlink, Hl.
    + intros l Hin. by apply Hlabel, Hb.
Qed.

(** X21: when a comparer accepts.  When the files of the incidents
    can be resolved, a comparison returns, and it reports no error
    exactly when the category and the effort are the same pointers as
    the expected ones, every expected link has its title for a URL and
    an actual link of that title, every expected label is among the
    actual labels, and every expected incident is found: some actual
    incident has its message, line-number pointer and variables, and
    its file name holds the expected path relative to [testDir/source]
    (for kantra, with the same code snippet up to surrounding white
    space, and with the same URI instead when either URI is empty). *)
Theorem compareViolation_accepts (c : comparer) (expected actual : konveyor.Violation) :
  resolvable X c expected actual →
  ∃ errs ok,
    compareViolation X (Some c) expected actual = Ok (errs, ok)
    ∧ (ok = false ↔ accepted X c expected actual).
Proof.
  intros Hresolvable. unfold accepted.
  pose proof (compareFields_nil expected actual) as Hfields.
  unfold compareViolation. cbn [orPanic mbind result_bind bind].
  destruct c as [k|t]; unfold kantra_compareViolation, tackle2Hub_compareViolation;
    cbv zeta.
  - destruct (forEach_found
                (λ i, searchIncidents (kantra_turn X k i)
                        (elems (konveyor.Incidents actual)) false)
                (λ i, ∃ ai, ai ∈ elems (konveyor.Incidents actual)
                            ∧ found X (kantraComparer k) i ai)
                (λ i, i) (elems (konveyor.Incidents expected)) None)
      as (missing & -> & Hmissing).
    { intros i Hi.
      destruct (search_found (kantra_turn X k i) (found X (kantraComparer k) i)
                  (elems (konveyor.Incidents actual)) false) as (b & Hb & Hiff).
      { intros ai Hai. by apply (turn_found (kantraComparer k) expected actual). }
      exists b. split; [done|]. rewrite Hiff. split; [by intros [?|?] | by right]. }
    cbn [mbind result_bind bind]. eexists _, _. split; [done|].
    rewrite negb_false_iff, Nat.eqb_eq. unfold len.
    destruct missing as [|i missing];
      cbn [append elems app length Nat.ltb Nat.leb Nat.add].
    + rewrite length_zero_iff_nil, Hfields. split.
      * intros (? & ? & ? & ?). split_and!; try done. by apply Hmissing.
      * intros (? & ? & ? & ? & _). done.
    + rewrite length_app. cbn [length]. split; [lia|].
      intros (_ & _ & _ & _ & Hall). by apply Hmissing in Hall.
  - destruct (forEach_found
                (λ i, searchIncidents (tackle2Hub_turn X t i)
                        (elems (konveyor.Incidents actual)) false)
                (λ i, ∃ ai, ai ∈ elems (konveyor.Incidents actual)
                            ∧ found X (tackle2HubComparer t) i ai)
                (incidentError X expected) (elems (konveyor.Incidents expected))
                (compareFields X expected actual))
      as (more & -> & Hmore).
    { intros i Hi.
      destruct (search_found (tackle2Hub_turn X t i) (found X (tackle2HubComparer t) i)
                  (elems (konveyor.Incidents actual)) false) as (b & Hb & Hiff).
      { intros ai Hai. by apply (turn_found (tackle2HubComparer t) expected actual). }
      exists b. split; [done|]. rewrite Hiff. split; [by intros [?|?] | by right]. }
    cbn [mbind result_bind bind]. eexists _, _. split; [done|].
    rewrite negb_false_iff, Nat.eqb_eq. unfold len.
    rewrite elems_append, length_app, Nat.eq_add_0, !length_zero_iff_nil, Hfields, Hmore.
    split.
    + intros ((? & ? & ? & ?) & ?). done.
    + intros (? & ? & ? & ? & ?). done.
Qed.

End Acceptance.

(** ** The text of a result file *)

Section Lines.

Import further.

Lemma Split_not_nil (s sep : string) : sep ≠ "" → Split s sep ≠ [].
Proof. intros Hsep. rewrite Split_cut by done. by destruct (cut s sep) as [[? ?]|]. Qed.

Lemma Join_cons (x : string) (l : list string) (sep : string) :
  l ≠ [] → Join (x :: l) sep = x +:+ sep +:+ Join l sep.
Proof. by destruct l. Qed.

Lemma string_length_ind (P : string → Prop) :
  (∀ s, (∀ t, (String.length t < String.length s)%nat → P t) → P s) → ∀ s, P s.
Proof.
  intros Hind s. remember (String.length s) as n eqn:Hn. revert s Hn.
  induction (lt_wf n) as [n _ IH]. intros s ->. apply Hind.
  intros t Ht. by apply (IH (String.length t)).
Qed.

(** Splitting and joining again gives the text back. *)
Lemma Join_Split (s sep : string) : sep ≠ "" → Join (Split s sep) sep = s.
Proof.
  intros Hsep. induction s as [s IH] using string_length_ind.
  rewrite Split_cut by done. destruct (cut s sep) as [[before after]|] eqn:Hcut; [|done].
  rewrite Join_cons by (by apply Split_not_nil).
  rewrite IH by (by apply (cut_shorter s sep before)). symmetry. by apply cut_Some.
Qed.

(** No part holds the one-byte separator. *)
Lemma Split_parts (c : ascii) (s : string) :
  Forall (λ part, Contains part (String c "") = false) (Split s (String c "")).
Proof.
  induction s as [s IH] using string_length_ind.
  rewrite Split_cut by done. pose proof (cut_char_inv c s) as Hinv.
  destruct (cut s (String c "")) as [[before after]|] eqn:Hcut.
  - constructor; [done|]. apply IH. by apply (cut_shorter s (String c "") before).
  - by constructor.
Qed.

(** Joining and splitting again gives the parts back. *)
Lemma Split_Join (c : ascii) (parts : list string) :
  parts ≠ [] → Forall (λ part, Contains part (String c "") = false) parts →
  Split (Join parts (String c "")) (String c "") = parts.
Proof.
  intros Hparts Hfree. induction Hfree as [|part parts Hpart Hfree IH]; [done|].
  rewrite Split_cut by done. destruct parts as [|part' parts].
  - cbn [Join]. by rewrite cut_char_none.
  - rewrite Join_cons by done.
    change (String c "" +:+ Join (part' :: parts) (String c ""))
      with (String c (Join (part' :: parts) (String c ""))).
    rewrite cut_char_app by done. f_equal. by apply IH.
Qed.

End Lines.

Section CodeSnippetLines.

Import validator further replace yaml.

Lemma fold_keep (lines : list string) (filtered : slice string) (skipNext : bool) :
  ∃ kept,
    elems (fold_left keep lines (filtered, skipNext)).1 = elems filtered ++ kept
    ∧ sublist kept lines
    ∧ Forall (λ line, codeSnipLine line = false) kept
    ∧ (∀ line, line ∈ lines → codeSnipLine line = false → continuation line = false →
               line ∈ kept).
Proof.
  revert filtered skipNext.
  induction lines as [|line lines IH]; intros filtered skipNext; cbn [fold_left].
  { exists []. rewrite app_nil_r. split_and!; [done | done | done |].
    intros line Hline. by apply elem_of_nil in Hline. }
  unfold keep at 2. fold (codeSnipLine line). fold (continuation line).
  assert ((if skipNext
           then if continuation line then (filtered, skipNext)
                else (append filtered [line], false)
           else (append filtered [line], skipNext))
          = if skipNext && continuation line then (filtered, skipNext)
            else (append filtered [line], false)) as ->.
  { by destruct skipNext, (continuation line). }
  destruct (codeSnipLine line) eqn:Hsnip;
    [|destruct (skipNext && continuation line) eqn:Hskip].
  - destruct (IH filtered true) as (kept & Hkept & Hsub & Hfree & Hall).
    exists kept. split_and!; [done | by apply sublist_cons | done |].
    intros l [->|Hl]%elem_of_cons Hl1 Hl2; [congruence | by apply Hall].
  - destruct (IH filtered skipNext) as (kept & Hkept & Hsub & Hfree & Hall).
    exists kept. split_and!; [done | by apply sublist_cons | done |].
    intros l [->|Hl]%elem_of_cons Hl1 Hl2; [|by apply Hall].
    rewrite Hl2, andb_false_r in Hskip. done.
  - destruct (IH (append filtered [line]) false) as (kept & Hkept & Hsub & Hfree & Hall).
    exists (line :: kept). split_and!.
    + rewrite Hkept, elems_append, <- app_assoc. done.
    + by apply sublist_skip.
    + by constructor.
    + intros l [->|Hl]%elem_of_cons Hl1 Hl2; [constructor|].
      apply elem_of_cons. right. by apply Hall.
Qed.

(** The text that reaches the filter for the tackle-hub target is
    the text returned for every other target. *)
Lemma normalizeYAMLPaths_filter (yamlStr testDir targetType : string) :
  targetType ≠ "tackle-hub" →
  normalizeYAMLPaths yamlStr testDir "tackle-hub"
  = Join (elems (fold_left keep
                   (Split (normalizeYAMLPaths yamlStr testDir targetType) newline)
                   (None, false)).1) newline.
Proof.
  intros Htarget%String.eqb_neq. unfold normalizeYAMLPaths. by rewrite Htarget.
Qed.

(** X22: for the tackle-hub target no line of the text returned
    opens a code snippet. *)
Theorem normalizeYAMLPaths_no_code_snippet (yamlStr testDir line : string) :
  line ∈ Split (normalizeYAMLPaths yamlStr testDir "tackle-hub") newline →
  codeSnipLine line = false.
Proof.
  rewrite (normalizeYAMLPaths_filter _ _ "") by done.
  destruct (fold_keep (Split (normalizeYAMLPaths yamlStr testDir "") newline) None false)
    as (kept & Hkept & Hsub & Hfree & _).
  match goal with
  | |- context [Join ?l newline] => replace l with kept by (symmetry; exact Hkept)
  end.
  destruct kept as [|first kept].
  { change (Split (Join [] newline) newline) with [""].
    intros ->%list_elem_of_singleton. reflexivity. }
  unfold newline. rewrite Split_Join; [|done|].
  - intros Hline. by eapply Forall_forall in Hfree.
  - apply Forall_forall. intros part Hpart.
    apply (elem_of_sublist _ _ _ Hpart) in Hsub.
    clear Hpart. revert part Hsub. apply Forall_forall, Split_parts.
Qed.

(** X23: what the filter for the tackle-hub target keeps.  The
    text returned is made of lines of the text returned for the other
    targets, in their order, and among them is every line that
    neither opens a code snippet nor is indented without a colon. *)
Theorem normalizeYAMLPaths_kept_lines (yamlStr testDir targetType : string) :
  targetType ≠ "tackle-hub" →
  ∃ kept,
    normalizeYAMLPaths yamlStr testDir "tackle-hub" = Join kept newline
    ∧ sublist kept (Split (normalizeYAMLPaths yamlStr testDir targetType) newline)
    ∧ (∀ line,
         line ∈ Split (normalizeYAMLPaths yamlStr testDir targetType) newline →
         codeSnipLine line = false → continuation line = false → line ∈ kept).
Proof.
  intros Htarget. rewrite (normalizeYAMLPaths_filter _ _ targetType) by done.
  destruct (fold_keep (Split (normalizeYAMLPaths yamlStr testDir targetType) newline)
              None false) as (kept & Hkept & Hsub & _ & Hall).
  match goal with
  | |- context [Join ?l newline] => replace l with kept by (symmetry; exact Hkept)
  end.
  by exists kept.
Qed.

End CodeSnippetLines.

Section Replacing.

Import validator further replace yaml.

Lemma replaceFrom_none (m : matcher) (repl s : string) :
  (∀ j, m (dropBytes j s) = None) → replaceFrom m repl 0 s = s.
Proof.
  induction s as [|c s IH]; intros Hnone; [done|].
  cbn [replaceFrom]. pose proof (Hnone 0) as H0. cbn [dropBytes] in H0. rewrite H0.
  f_equal. apply IH.
  intros j. apply (Hnone (S j)).
Qed.

Lemma Contains_dropBytes (s x : string) (j : nat) :
  Contains s x = false → String.prefix x (dropBytes j s) = false.
Proof.
  revert s. induction j as [|j IH]; intros s.
  - destruct s; cbn [Contains dropBytes]; by intros [? _]%orb_false_iff.
  - destruct s as [|c s]; cbn [Contains dropBytes].
    + by intros [? _]%orb_false_iff.
    + intros [_ Hs]%orb_false_iff. by apply IH.
Qed.

Lemma ReplaceAll_without (s old new : string) :
  Contains s old = false → ReplaceAll s old new = s.
Proof.
  intros Hs. apply replaceFrom_none. intros j. unfold literal.
  by rewrite Contains_dropBytes.
Qed.

Lemma ReplaceAllString_without (text s repl : string) :
  Contains s text = false → ReplaceAllString (segmentAfter text) s repl = s.
Proof.
  intros Hs. apply replaceFrom_none. intros j. unfold segmentAfter.
  by rewrite Contains_dropBytes.
Qed.

Lemma prefix_trans (p q t : string) :
  String.prefix p q = true → String.prefix q t = true → String.prefix p t = true.
Proof.
  revert q t. induction p as [|a p IH]; intros q t; [intros _ _; apply prefix_empty|].
  destruct q as [|b q]; [done|]. destruct t as [|c t]; [done|].
  rewrite !prefix_cons. intros [Hab Hp]%andb_true_iff [Hbc Hq]%andb_true_iff.
  apply Ascii.eqb_eq in Hab as ->. rewrite Hbc. by apply (IH q).
Qed.

(** A text that does not hold the opening of a pattern does not hold
    the pattern. *)
Lemma Contains_longer (s p q : string) :
  String.prefix p q = true → Contains s p = false → Contains s q = false.
Proof.
  intros Hpq. induction s as [|c s IH]; cbn [Contains].
  - intros [Hp _]%orb_false_iff. rewrite orb_false_r.
    apply not_true_is_false. intros Hq. by rewrite (prefix_trans _ _ _ Hpq Hq) in Hp.
  - intros [Hp Hs]%orb_false_iff. rewrite (IH Hs), orb_false_r.
    apply not_true_is_false. intros Hq. by rewrite (prefix_trans _ _ _ Hpq Hq) in Hp.
Qed.

Lemma fold_keep_all (lines : list string) (filtered : slice string) :
  Forall (λ line, codeSnipLine line = false) lines →
  fold_left keep lines (filtered, false) = (append filtered lines, false).
Proof.
  intros Hlines. revert filtered.
  induction Hlines as [|line lines Hline _ IH]; intros filtered; [done|].
  cbn [fold_left]. unfold keep at 2. fold (codeSnipLine line). rewrite Hline.
  rewrite IH. f_equal.
  destruct lines; cbn [append elems]; [done|]. by rewrite <- app_assoc.
Qed.

(** X24: a text with nothing to normalise is returned as it is: no
    file URI, no occurrence of the test folder and, for the
    tackle-hub target, no line that, once trimmed, opens a code
    snippet. *)
Theorem normalizeYAMLPaths_unchanged (yamlStr testDir targetType : string) :
  without testDir yamlStr →
  Contains yamlStr "file:///" = false →
  (targetType = "tackle-hub" →
   ∀ line, line ∈ Split yamlStr newline → codeSnipLine line = false) →
  normalizeYAMLPaths yamlStr testDir targetType = yamlStr.
Proof.
  intros Hdir Huri Hlines. unfold normalizeYAMLPaths. cbv zeta.
  assert ((if negb (String.eqb testDir "") then ReplaceAll yamlStr testDir "" else yamlStr)
          = yamlStr) as ->.
  { destruct Hdir as [->|Hdir]; [done|]. rewrite ReplaceAll_without by done.
    by destruct (negb _). }
  unfold re.
  rewrite (ReplaceAll_without yamlStr) by (by apply (Contains_longer _ "file:///")).
  rewrite ReplaceAllString_without by (by apply (Contains_longer _ "file:///")).
  rewrite !(ReplaceAll_without yamlStr) by (by apply (Contains_longer _ "file:///")).
  destruct (String.eqb_spec targetType "tackle-hub") as [Htarget|_]; [|done].
  rewrite fold_keep_all by (apply Forall_forall; by apply Hlines).
  cbn [fst]. rewrite elems_append. cbn [elems app]. by apply Join_Split.
Qed.

End Replacing.

Section Mounts.

Import validator further replace yaml.

Lemma app_string_assoc (a b c : string) : (a +:+ b) +:+ c = a +:+ b +:+ c.
Proof.
  induction a as [|x a IH]; [done|].
  change (String x ((a +:+ b) +:+ c) = String x (a +:+ b +:+ c)). by rewrite IH.
Qed.

Lemma replaceFrom_skip (m : matcher) (repl a b : string) :
  replaceFrom m repl (String.length a) (a +:+ b) = replaceFrom m repl 0 b.
Proof.
  induction a as [|x a IH]; [done|].
  change (String x a +:+ b) with (String x (a +:+ b)). cbn [String.length replaceFrom].
  apply IH.
Qed.

(** A match at the head of the text is replaced, and the search goes
    on behind it. *)
Lemma replaceFrom_match (m : matcher) (repl a b : string) :
  a ≠ "" → m (a +:+ b) = Some (String.length a) →
  replaceFrom m repl 0 (a +:+ b) = repl +:+ replaceFrom m repl 0 b.
Proof.
  destruct a as [|x a]; [done|]. intros _ Hm.
  change (String x a +:+ b) with (String x (a +:+ b)) in *.
  cbn [replaceFrom]. rewrite Hm. cbn [String.length]. rewrite Nat.sub_1_r. cbn [Nat.pred].
  by rewrite replaceFrom_skip.
Qed.

Lemma prefix_Contains (pattern s x : string) :
  String.prefix pattern s = true → Contains pattern x = true → Contains s x = true.
Proof.
  revert s. induction pattern as [|a pattern IH]; intros s Hs.
  - cbn [Contains]. rewrite orb_false_r. intros Hx.
    destruct s; cbn [Contains]; by rewrite (prefix_trans _ _ _ Hx Hs).
  - destruct s as [|b s]; [done|]. rewrite prefix_cons in Hs.
    apply andb_true_iff in Hs as [Hab Hs]. apply Ascii.eqb_eq in Hab as <-.
    cbn [Contains]. intros [Hx|Hx]%orb_true_iff.
    + rewrite (prefix_trans x (String a pattern) (String a s)); [done | done |].
      by rewrite prefix_cons, Ascii.eqb_refl.
    + rewrite (IH s Hs Hx). apply orb_true_r.
Qed.

(** A text that does not hold [x] holds no pattern that holds [x]. *)
Lemma Contains_sub (s pattern x : string) :
  Contains pattern x = true → Contains s x = false → Contains s pattern = false.
Proof.
  intros Hx. induction s as [|c s IH]; cbn [Contains].
  - intros [Hs _]%orb_false_iff. rewrite orb_false_r.
    apply not_true_is_false. intros Hp.
    pose proof (prefix_Contains _ _ _ Hp Hx) as Hc. cbn [Contains] in Hc.
    by rewrite Hs in Hc.
  - intros [Hs Hs']%orb_false_iff. rewrite (IH Hs'), orb_false_r.
    apply not_true_is_false. intros Hp.
    pose proof (prefix_Contains _ _ _ Hp Hx) as Hc. cbn [Contains] in Hc.
    by rewrite Hs, Hs' in Hc.
Qed.

Lemma untilSlash_app (repo rest : string) :
  Contains repo "/" = false →
  untilSlash (repo +:+ "/" +:+ rest) = Some (String.length repo).
Proof.
  induction repo as [|c repo IH]; [done|].
  rewrite Contains_char_cons. intros [Hc Hrepo]%orb_false_iff.
  change (String c repo +:+ "/" +:+ rest) with (String c (repo +:+ "/" +:+ rest)).
  cbn [untilSlash String.length]. rewrite Ascii.eqb_sym, Hc. by rewrite (IH Hrepo).
Qed.

Lemma Contains_mount (repo path : string) :
  Contains repo "/" = false → HasPrefix path "/" = false → Contains path "//" = false →
  Contains (repo +:+ "/" +:+ path) "//" = false.
Proof.
  intros Hrepo Hpath Hfree. induction repo as [|c repo IH].
  - change ("" +:+ "/" +:+ path) with (String "/" path). cbn [Contains].
    rewrite Hfree, orb_false_r. rewrite prefix_cons. cbn. exact Hpath.
  - rewrite Contains_char_cons in Hrepo. apply orb_false_iff in Hrepo as [Hc Hrepo].
    change (String c repo +:+ "/" +:+ path) with (String c (repo +:+ "/" +:+ path)).
    cbn [Contains]. rewrite (IH Hrepo), orb_false_r, prefix_cons, Hc. done.
Qed.

Lemma normalizeYAMLPaths_target (yamlStr yamlStr' testDir targetType : string) :
  normalizeYAMLPaths yamlStr testDir "" = normalizeYAMLPaths yamlStr' testDir "" →
  normalizeYAMLPaths yamlStr testDir targetType
  = normalizeYAMLPaths yamlStr' testDir targetType.
Proof.
  intros Heq. destruct (String.eqb_spec targetType "tackle-hub") as [->|Hne].
  - rewrite !(normalizeYAMLPaths_filter _ _ "") by done. by rewrite Heq.
  - apply String.eqb_neq in Hne. revert Heq. unfold normalizeYAMLPaths. by rewrite Hne.
Qed.

Lemma removal_without (testDir text : string) :
  without testDir text →
  (if negb (String.eqb testDir "") then ReplaceAll text testDir "" else text) = text.
Proof.
  intros [->|Hdir]; [done|]. rewrite ReplaceAll_without by done. by destruct (negb _).
Qed.

Lemma slashes_without (path pattern new : string) :
  Contains pattern "//" = true → Contains path "//" = false →
  ReplaceAll path pattern new = path.
Proof. intros Hp Hpath. apply ReplaceAll_without. by apply (Contains_sub _ _ "//"). Qed.

Lemma prefix_refl (s : string) : String.prefix s s = true.
Proof. induction s as [|c s IH]; [done|]. by rewrite prefix_cons, Ascii.eqb_refl. Qed.

Lemma ReplaceAll_head (old new rest : string) :
  old ≠ "" → ReplaceAll (old +:+ rest) old new = new +:+ ReplaceAll rest old new.
Proof.
  intros Hold. apply replaceFrom_match; [done|]. unfold literal.
  by rewrite prefix_app by apply prefix_refl.
Qed.

(** The four mounts, under a target that is not tackle-hub. *)
Lemma normalizeYAMLPaths_kantra_mount (path testDir : string) :
  Contains path "//" = false →
  without testDir ("file:///opt/input/source/" +:+ path) →
  normalizeYAMLPaths ("file:///opt/input/source/" +:+ path) testDir ""
  = "file:///source/" +:+ path.
Proof.
  intros Hpath Hdir. unfold normalizeYAMLPaths. cbv zeta. rewrite removal_without by done.
  change (String.eqb "" "tackle-hub") with false. cbv iota.
  rewrite ReplaceAll_head by done. rewrite (slashes_without path) by done.
  change (ReplaceAllString re ("file:///source/" +:+ path) "file:///source/")
    with ("file:///source/" +:+ ReplaceAllString re path "file:///source/").
  unfold re. rewrite ReplaceAllString_without by (by apply (Contains_sub _ _ "//")).
  change (ReplaceAll ("file:///source/" +:+ path) "file:///root/.m2/repository/" "file:///m2/")
    with ("file:///source/" +:+ ReplaceAll path "file:///root/.m2/repository/" "file:///m2/").
  rewrite (slashes_without path) by done.
  change (ReplaceAll ("file:///source/" +:+ path) "file:///cache/m2/repository/" "file:///m2/")
    with ("file:///source/" +:+ ReplaceAll path "file:///cache/m2/repository/" "file:///m2/").
  by rewrite (slashes_without path).
Qed.

(** The expression matches a mount of the shared folder: the text
    up to the [/] that ends the name of the repository. *)
Lemma ReplaceAllString_mount (repo rest repl : string) :
  repo ≠ "" → Contains repo "/" = false →
  ReplaceAllString re ("file:///shared/source/" +:+ repo +:+ "/" +:+ rest) repl
  = repl +:+ ReplaceAllString re rest repl.
Proof.
  intros Hrepo Hfree. unfold ReplaceAllString.
  rewrite <- (app_string_assoc repo "/" rest).
  change ("file:///shared/source/" +:+ (repo +:+ "/") +:+ rest)
    with (("file:///shared/source/" +:+ repo +:+ "/") +:+ rest).
  apply replaceFrom_match; [done|].
  change (("file:///shared/source/" +:+ repo +:+ "/") +:+ rest)
    with ("file:///shared/source/" +:+ (repo +:+ "/") +:+ rest).
  rewrite app_string_assoc. unfold re, segmentAfter.
  rewrite prefix_app by apply prefix_refl.
  change (dropBytes (String.length "file:///shared/source/")
            ("file:///shared/source/" +:+ repo +:+ "/" +:+ rest))
    with (repo +:+ "/" +:+ rest).
  rewrite untilSlash_app by done. rewrite !length_app_string.
  destruct repo as [|c repo]; [done|]. cbn [String.length]. f_equal; lia.
Qed.

Lemma normalizeYAMLPaths_hub_mount (repo path testDir : string) :
  repo ≠ "" → Contains repo "/" = false →
  HasPrefix path "/" = false → Contains path "//" = false →
  without testDir ("file:///shared/source/" +:+ repo +:+ "/" +:+ path) →
  normalizeYAMLPaths ("file:///shared/source/" +:+ repo +:+ "/" +:+ path) testDir ""
  = "file:///source/" +:+ path.
Proof.
  intros Hrepo Hfree Hrel Hpath Hdir.
  unfold normalizeYAMLPaths. cbv zeta. rewrite removal_without by done.
  change (String.eqb "" "tackle-hub") with false. cbv iota.
  change (ReplaceAll ("file:///shared/source/" +:+ repo +:+ "/" +:+ path)
            "file:///opt/input/source/" "file:///source/")
    with ("file:///shared/source/"
          +:+ ReplaceAll (repo +:+ "/" +:+ path)
                "file:///opt/input/source/" "file:///source/").
  rewrite (slashes_without (repo +:+ "/" +:+ path)) by (by try apply Contains_mount).
  rewrite ReplaceAllString_mount by done.
  unfold re. rewrite ReplaceAllString_without by (by apply (Contains_sub _ _ "//")).
  change (ReplaceAll ("file:///source/" +:+ path) "file:///root/.m2/repository/" "file:///m2/")
    with ("file:///source/" +:+ ReplaceAll path "file:///root/.m2/repository/" "file:///m2/").
  rewrite (slashes_without path) by done.
  change (ReplaceAll ("file:///source/" +:+ path) "file:///cache/m2/repository/" "file:///m2/")
    with ("file:///source/" +:+ ReplaceAll path "file:///cache/m2/repository/" "file:///m2/").
  by rewrite (slashes_without path).
Qed.

Lemma normalizeYAMLPaths_root_mount (path testDir : string) :
  Contains path "//" = false →
  without testDir ("file:///root/.m2/repository/" +:+ path) →
  normalizeYAMLPaths ("file:///root/.m2/repository/" +:+ path) testDir ""
  = "file:///m2/" +:+ path.
Proof.
  intros Hpath Hdir. unfold normalizeYAMLPaths. cbv zeta. rewrite removal_without by done.
  change (String.eqb "" "tackle-hub") with false. cbv iota.
  change (ReplaceAll ("file:///root/.m2/repository/" +:+ path)
            "file:///opt/input/source/" "file:///source/")
    with ("file:///root/.m2/repository/"
          +:+ ReplaceAll path "file:///opt/input/source/" "file:///source/").
  rewrite (slashes_without path) by done.
  change (ReplaceAllString re ("file:///root/.m2/repository/" +:+ path) "file:///source/")
    with ("file:///root/.m2/repository/" +:+ ReplaceAllString re path "file:///source/").
  unfold re. rewrite ReplaceAllString_without by (by apply (Contains_sub _ _ "//")).
  rewrite ReplaceAll_head by done. rewrite (slashes_without path) by done.
  change (ReplaceAll ("file:///m2/" +:+ path) "file:///cache/m2/repository/" "file:///m2/")
    with ("file:///m2/" +:+ ReplaceAll path "file:///cache/m2/repository/" "file:///m2/").
  by rewrite (slashes_without path).
Qed.

Lemma normalizeYAMLPaths_cache_mount (path testDir : string) :
  Contains path "//" = false →
  without testDir ("file:///cache/m2/repository/" +:+ path) →
  normalizeYAMLPaths ("file:///cache/m2/repository/" +:+ path) testDir ""
  = "file:///m2/" +:+ path.
Proof.
  intros Hpath Hdir. unfold normalizeYAMLPaths. cbv zeta. rewrite removal_without by done.
  change (String.eqb "" "tackle-hub") with false. cbv iota.
  change (ReplaceAll ("file:///cache/m2/repository/" +:+ path)
            "file:///opt/input/source/" "file:///source/")
    with ("file:///cache/m2/repository/"
          +:+ ReplaceAll path "file:///opt/input/source/" "file:///source/").
  rewrite (slashes_without path) by done.
  change (ReplaceAllString re ("file:///cache/m2/repository/" +:+ path) "file:///source/")
    with ("file:///cache/m2/repository/" +:+ ReplaceAllString re path "file:///source/").
  unfold re. rewrite ReplaceAllString_without by (by apply (Contains_sub _ _ "//")).
  change (ReplaceAll ("file:///cache/m2/repository/" +:+ path)
            "file:///root/.m2/repository/" "file:///m2/")
    with ("file:///cache/m2/repository/"
          +:+ ReplaceAll path "file:///root/.m2/repository/" "file:///m2/").
  rewrite (slashes_without path) by done.
  rewrite ReplaceAll_head by done. by rewrite (slashes_without path).
Qed.

(** X25: the mounts of the source tree.  The URI of a file under
    the mount of kantra and its URI under the mount of tackle-hub,
    whatever the name of the repository, are normalised to one text,
    for every target; for a target other than tackle-hub that text is
    the URI under [file:///source/]. *)
Theorem normalizeYAMLPaths_source_mounts (repo path testDir targetType : string) :
  repo ≠ "" → Contains repo "/" = false →
  HasPrefix path "/" = false → Contains path "//" = false →
  without testDir ("file:///opt/input/source/" +:+ path) →
  without testDir ("file:///shared/source/" +:+ repo +:+ "/" +:+ path) →
  normalizeYAMLPaths ("file:///opt/input/source/" +:+ path) testDir targetType
  = normalizeYAMLPaths ("file:///shared/source/" +:+ repo +:+ "/" +:+ path)
      testDir targetType
  ∧ (targetType ≠ "tackle-hub" →
     normalizeYAMLPaths ("file:///opt/input/source/" +:+ path) testDir targetType
     = "file:///source/" +:+ path).
Proof.
  intros Hrepo Hfree Hrel Hpath Hkantra Hhub. split.
  - apply normalizeYAMLPaths_target.
    by rewrite normalizeYAMLPaths_kantra_mount, normalizeYAMLPaths_hub_mount.
  - intros Htarget. rewrite <- (normalizeYAMLPaths_kantra_mount path testDir) by done.
    apply String.eqb_neq in Htarget. unfold normalizeYAMLPaths. by rewrite Htarget.
Qed.

(** X26: the mounts of the dependency repository.  The URI of a
    file under [/root/.m2/repository] and its URI under
    [/cache/m2/repository] are normalised to one text, for every
    target; for a target other than tackle-hub that text is the URI
    under [file:///m2/]. *)
Theorem normalizeYAMLPaths_maven_mounts (path testDir targetType : string) :
  Contains path "//" = false →
  without testDir ("file:///root/.m2/repository/" +:+ path) →
  without testDir ("file:///cache/m2/repository/" +:+ path) →
  normalizeYAMLPaths ("file:///root/.m2/repository/" +:+ path) testDir targetType
  = normalizeYAMLPaths ("file:///cache/m2/repository/" +:+ path) testDir targetType
  ∧ (targetType ≠ "tackle-hub" →
     normalizeYAMLPaths ("file:///root/.m2/repository/" +:+ path) testDir targetType
     = "file:///m2/" +:+ path).
Proof.
  intros Hpath Hroot Hcache. split.
  - apply normalizeYAMLPaths_target.
    by rewrite normalizeYAMLPaths_root_mount, normalizeYAMLPaths_cache_mount.
  - intros Htarget. rewrite <- (normalizeYAMLPaths_root_mount path testDir) by done.
    apply String.eqb_neq in Htarget. unfold normalizeYAMLPaths. by rewrite Htarget.
Qed.

End Mounts.

(** ** The further properties on sample data *)

Lemma ValidateFiles_paths_witness :
  List.filter further.hasPath
    (elems (validator.Errors
              (examples.report reference.external "/test" "kantra"
                 (Some [props.bare "r"]) (Some [sample.tagged "r" (Some ["t"])]))))
  = map (λ ers, props.rulesetError (konveyor.Name ers))
        (elems (Some [sample.tagged "r" (Some ["t"])])).
Proof.
  apply (ValidateFiles_paths reference.external "/test" "kantra" (Some [props.bare "r"])).
  reflexivity.
Defined.

Lemma ValidateFiles_returns_witness :
  ∃ r, validator.ValidateFiles reference.external "/test" "tackle-hub"
         (Some [sample.exactMatch 10]) (Some [sample.exactMatch 0]) = Ok r.
Proof.
  apply ValidateFiles_returns.
  - unfold props.knownTargets. set_solver.
  - intros rs i Hrs Hi.
    apply elem_of_app in Hrs as [Hrs|Hrs]; apply list_elem_of_singleton in Hrs as ->;
      vm_compute in Hi; apply list_elem_of_singleton in Hi as ->; by eexists.
Defined.

Lemma ValidateFiles_within_witness :
  validator.ValidateFiles reference.external "/test" "kantra"
    (Some [sample.tagged "r" (Some ["u"; "t"]); sample.tagged "other" (Some ["v"])])
    (Some [sample.tagged "r" (Some ["t"])])
  = Ok {| validator.Passed := false;
          validator.Errors := Some [props.rulesetError "r"] |}.
Proof.
  apply (ValidateFiles_within reference.external "/test" "kantra").
  - unfold props.knownTargets. set_solver.
  - intros ers rs ->%list_elem_of_singleton Hrs Hname.
    apply elem_of_cons in Hrs as [->|Hrs]; [|by apply list_elem_of_singleton in Hrs as ->].
    unfold further.within. cbn. split_and!; try done; set_solver.
Defined.

Lemma ValidateFiles_reports_missing_witness :
  further.notFound "tag" "t"
  ∈ elems (validator.Errors
             (examples.report reference.external "/test" "kantra"
                (Some [props.bare "r"]) (Some [sample.tagged "r" (Some ["t"])]))).
Proof.
  refine (proj1 (proj2 (ValidateFiles_reports_missing reference.external "/test" "kantra"
                          (Some [props.bare "r"]) (Some [sample.tagged "r" (Some ["t"])])
                          _ (sample.tagged "r" (Some ["t"])) (props.bare "r") _ _ _ _))
                "t" _ _).
  - reflexivity.
  - constructor.
  - constructor.
  - reflexivity.
  - constructor.
  - cbn. apply not_elem_of_nil.
Defined.

Lemma ValidateFiles_reports_absent_witness :
  let v := sample.violation None (Some [sample.incident "file:///test/source/a.java" "x"]) in
  ∃ e, e ∈ elems (validator.Errors
                    (examples.report reference.external "/test" "kantra"
                       (Some [props.bare "r"]) (Some [examples.withViolation "r" v])))
       ∧ validator.Expected e = validator.ofViolation v
       ∧ HasPrefix (validator.Message e) "Did not find violations" = true.
Proof.
  intros v.
  refine (proj1 (ValidateFiles_reports_absent reference.external "/test" "kantra"
                   (Some [props.bare "r"]) (Some [examples.withViolation "r" v])
                   _ (examples.withViolation "r" v) (props.bare "r") "rule1" v _ _ _ _ _)
                _ _).
  - reflexivity.
  - constructor.
  - constructor.
  - reflexivity.
  - reflexivity.
  - reflexivity.
  - reflexivity.
Defined.

Lemma ValidateFiles_targets_witness :
  ("vscode" ≠ "tackle-hub" →
   validator.ValidateFiles reference.external "/test" "vscode"
     (Some [sample.exactMatch 10]) (Some [sample.exactMatch 0])
   = validator.ValidateFiles reference.external "/test" "kantra"
       (Some [sample.exactMatch 10]) (Some [sample.exactMatch 0]))
  ∧ ((∀ ers, ers ∈ elems (Some [sample.exactMatch 0]) →
        range (konveyor.Insights ers) = [] ∧ range (konveyor.Violations ers) = []) →
     validator.ValidateFiles reference.external "/test" "vscode"
       (Some [sample.exactMatch 10]) (Some [sample.exactMatch 0])
     = validator.ValidateFiles reference.external "/test" "kantra"
         (Some [sample.exactMatch 10]) (Some [sample.exactMatch 0])).
Proof.
  apply ValidateFiles_targets. unfold props.knownTargets. set_solver.
Defined.

Lemma compareViolation_reads_witness :
  let expected := sample.violation (Some [examples.link "guide" "guide"]) None in
  let actual :=
    {| konveyor.Description := "Test violation"; konveyor.Category := None;
       konveyor.Labels := Some ["label1"; "label2"]; konveyor.Incidents := None;
       konveyor.Links := Some [examples.link "https://example.com/a" "guide"];
       konveyor.Effort := None |} in
  let actual' :=
    {| konveyor.Description := "Another description"; konveyor.Category := None;
       konveyor.Labels := Some ["label2"; "label1"; "label2"]; konveyor.Incidents := None;
       konveyor.Links := Some [examples.link "https://example.com/b" "guide";
                               examples.link "https://example.com/c" "guide"];
       konveyor.Effort := None |} in
  validator.compareViolation reference.external (validator.getComparer "kantra" "/test")
    expected actual'
  = validator.compareViolation reference.external (validator.getComparer "kantra" "/test")
      expected actual.
Proof.
  intros expected actual actual'.
  apply compareViolation_reads; try reflexivity; intros x; cbn; set_solver.
Defined.

Lemma compareViolation_self_witness :
  let v :=
    sample.violation
      (Some [examples.link "https://example.com/a" "guide"; examples.link "same" "same"])
      (Some [sample.incident "file:///test/source/a.java" "x";
             sample.incident "file:///test/source/b.java" "y"]) in
  validator.compareViolation reference.external
    (Some (validator.kantraComparer {| validator.testDir := "/test" |})) v v
  = Ok (Some [validator.linkError reference.external v
                (examples.link "https://example.com/a" "guide")], true).
Proof.
  intros v.
  apply (compareViolation_self reference.external
           (validator.kantraComparer {| validator.testDir := "/test" |}) v).
  repeat constructor; eexists _, _; split_and!; reflexivity.
Defined.

Lemma compareViolation_pointer_identity_witness :
  load (Ref 1 "mandatory") = load (Ref 2 "mandatory") ∧
  validator.categoryError reference.external (examples.categorised 1)
  ∈ elems (Some [validator.categoryError reference.external (examples.categorised 1)])
  ∧ true = true.
Proof.
  split; [reflexivity|].
  refine (proj1 (compareViolation_pointer_identity reference.external
                   (validator.kantraComparer {| validator.testDir := "/test" |})
                   (examples.categorised 1) (examples.categorised 2) _ true _) _);
    reflexivity.
Defined.

Lemma tackle2Hub_accepts_what_kantra_accepts_witness :
  len (Some [] : slice validator.ValidationError) = 0%nat ∧ false = false.
Proof.
  apply (tackle2Hub_accepts_what_kantra_accepts reference.external
           {| validator.testDir := "/test" |}
           (sample.violation None (Some [sample.incident "file:///test/source/a.java" "x"]))
           (sample.violation None
              (Some [sample.incident "file:///test/source/b.java" "y";
                     sample.incident "file:///other/a.java" " x "]))
           (Some [])).
  - intros i ->%list_elem_of_singleton. discriminate.
  - reflexivity.
  - reflexivity.
Defined.

Lemma normalizeYAMLPaths_no_code_snippet_witness :
  further.codeSnipLine "message: m" = false.
Proof.
  apply (normalizeYAMLPaths_no_code_snippet examples.resultFile "/test").
  vm_compute. set_solver.
Defined.

Lemma normalizeYAMLPaths_kept_lines_witness :
  ∃ kept,
    yaml.normalizeYAMLPaths examples.resultFile "/test" "tackle-hub"
    = Join kept validator.newline
    ∧ sublist kept
        (Split (yaml.normalizeYAMLPaths examples.resultFile "/test" "kantra")
           validator.newline)
    ∧ (∀ line,
         line ∈ Split (yaml.normalizeYAMLPaths examples.resultFile "/test" "kantra")
                  validator.newline →
         further.codeSnipLine line = false → further.continuation line = false →
         line ∈ kept).
Proof. apply normalizeYAMLPaths_kept_lines. discriminate. Defined.

Lemma normalizeYAMLPaths_unchanged_witness :
  yaml.normalizeYAMLPaths ("name: x" +:+ validator.newline +:+ "tags: []") "/test"
    "tackle-hub"
  = "name: x" +:+ validator.newline +:+ "tags: []".
Proof.
  apply normalizeYAMLPaths_unchanged.
  - right. reflexivity.
  - reflexivity.
  - intros _ line Hline. vm_compute in Hline.
    apply elem_of_cons in Hline as [->|Hline]; [reflexivity|].
    apply list_elem_of_singleton in Hline as ->. reflexivity.
Defined.

Lemma normalizeYAMLPaths_source_mounts_witness :
  (yaml.normalizeYAMLPaths ("file:///opt/input/source/" +:+ "src/A.java") "/test" "kantra"
   = yaml.normalizeYAMLPaths
       ("file:///shared/source/" +:+ "coolstore" +:+ "/" +:+ "src/A.java") "/test" "kantra")
  ∧ ("kantra" ≠ "tackle-hub" →
     yaml.normalizeYAMLPaths ("file:///opt/input/source/" +:+ "src/A.java") "/test" "kantra"
     = "file:///source/" +:+ "src/A.java").
Proof.
  apply normalizeYAMLPaths_source_mounts; try reflexivity; try discriminate;
    right; reflexivity.
Defined.

Lemma normalizeYAMLPaths_maven_mounts_witness :
  (yaml.normalizeYAMLPaths ("file:///root/.m2/repository/" +:+ "org/a/a.jar") "/test" "kantra"
   = yaml.normalizeYAMLPaths ("file:///cache/m2/repository/" +:+ "org/a/a.jar") "/test"
       "kantra")
  ∧ ("kantra" ≠ "tackle-hub" →
     yaml.normalizeYAMLPaths ("file:///root/.m2/repository/" +:+ "org/a/a.jar") "/test"
       "kantra"
     = "file:///m2/" +:+ "org/a/a.jar").
Proof.
  apply normalizeYAMLPaths_maven_mounts; try reflexivity; right; reflexivity.
Defined.

Lemma compareViolation_accepts_witness :
  let c := validator.kantraComparer {| validator.testDir := "/test" |} in
  let expected :=
    sample.violation None (Some [sample.incident "file:///test/source/a.java" "x"]) in
  let actual :=
    sample.violation None
      (Some [sample.incident "file:///other/source/b.java" "y";
             sample.incident "file:///other/source/a.java" " x "]) in
  ∃ errs ok,
    validator.compareViolation reference.external (Some c) expected actual = Ok (errs, ok)
    ∧ (ok = false ↔ further.accepted reference.external c expected actual).
Proof.
  intros c expected actual. apply compareViolation_accepts. split.
  - intros i Hi _. apply list_elem_of_singleton in Hi as ->.
    eexists _, _. split; reflexivity.
  - intros ai Hai _.
    apply elem_of_cons in Hai as [->|Hai]; [by eexists|].
    apply list_elem_of_singleton in Hai as ->. by eexists.
Defined.
